(** * Model Court: a shallow embedding of the trial orchestration core

    The development follows the Python package [model_court]:
    - [core/models.py]      data classes and their validators,
    - [utils/helpers.py]    [run_with_concurrency_limit], [calculate_verdict],
                            [retry_on_failure], [truncate_text],
    - [llm/base.py], [llm/factory.py]   the Reasoner interface and the
                            provider registry,
    - [llm/openai_provider.py], [llm/anthropic_provider.py],
      [llm/google_provider.py]          the requests of the providers,
    - [references/]         the default scores, [GoogleSearchReference]
                            scores, [SimpleTextStorage], and retrieval of
                            [LocalRAGReference],
    - [code/base.py], [code/sqlite_code.py]   search with a validity date,
                            and the searches and writes of the SQLite store,
    - [core/jury.py], [core/judge.py], [core/prosecutor.py], [core/court.py].

    Python values are modelled as follows.
    - [str] is [string]; [int] is [Z]; [float] is an exact rational [Q]
      (rounding of binary floating point is abstracted away; comparisons of
      two floats are exact in Python, and so are they here).
    - [datetime] is a [Z] (microseconds on the time line; naive datetimes are
      totally ordered).
    - A parsed JSON document, and more generally a dynamically typed Python
      value coming back from a collaborator, is a [json] tree.
    - [dict] objects whose iteration order matters are association lists.
    - Exceptions, non-termination and the external world are explicit: a
      computation is a function from a state to an [outcome] and a state.

    Left out: the [print] calls (they only log), floating-point infinities
    and NaN, datetimes with time zones. In the trial the providers,
    reference sources and stores appear as type classes with the methods
    the trial calls. Of the concrete ones, the parts written in Python are
    modelled over the operations they perform on their libraries (the
    SDKs, SQLite, the vector collection, the file system); the set-up of
    those libraries, the decoding of database rows, the HTTP exchange of
    [GoogleSearchReference.retrieve], the embedding models and
    [Court.summary] are not.
*)

From Stdlib Require Import String Ascii List ZArith QArith Bool Lia DecimalString.
Import ListNotations.

Set Warnings "-register-all".

Local Open Scope list_scope.
Local Open Scope string_scope.

(* ================================================================= *)
(** ** Python runtime: strings, exceptions, JSON values *)

Module Py.

Definition nl : string := String (ascii_of_nat 10) EmptyString.
Definition dq : string := String (ascii_of_nat 34) EmptyString.

(** [s[:n]] *)
Definition slice_to (n : nat) (s : string) : string := substring 0 n s.

(** [s[1:-1]] *)
Definition slice_1_m1 (s : string) : string :=
  substring 1 (String.length s - 2) s.

(** [sep.join(l)] *)
Definition join (sep : string) (l : list string) : string := String.concat sep l.

Definition is_space (c : ascii) : bool :=
  let n := nat_of_ascii c in
  ((9 <=? n) && (n <=? 13) || (28 <=? n) && (n <=? 32))%nat.

Fixpoint lstrip (s : string) : string :=
  match s with
  | String c s' => if is_space c then lstrip s' else s
  | EmptyString => EmptyString
  end.

(** [rstrip] keeps a character when it is not a space or when something
    that is kept follows it. *)
Fixpoint rstrip (s : string) : string :=
  match s with
  | String c s' =>
      match rstrip s' with
      | EmptyString => if is_space c then EmptyString else String c EmptyString
      | r => String c r
      end
  | EmptyString => EmptyString
  end.

(** [s.strip()] (ASCII white space). *)
Definition strip (s : string) : string := rstrip (lstrip s).

Definition lower_ascii (c : ascii) : ascii :=
  let n := nat_of_ascii c in
  if ((65 <=? n) && (n <=? 90))%nat then ascii_of_nat (n + 32) else c.

(** [s.lower()] (ASCII letters). *)
Fixpoint lower (s : string) : string :=
  match s with
  | String c s' => String (lower_ascii c) (lower s')
  | EmptyString => EmptyString
  end.

Definition upper_ascii (c : ascii) : ascii :=
  let n := nat_of_ascii c in
  if ((97 <=? n) && (n <=? 122))%nat then ascii_of_nat (n - 32) else c.

(** [s.upper()] (ASCII letters). *)
Fixpoint upper (s : string) : string :=
  match s with
  | String c s' => String (upper_ascii c) (upper s')
  | EmptyString => EmptyString
  end.

Definition startswith (p s : string) : bool := prefix p s.

Fixpoint last_char (s : string) : option ascii :=
  match s with
  | EmptyString => None
  | String c EmptyString => Some c
  | String _ s' => last_char s'
  end.

(** [s.endswith(c)] for a one-character suffix. *)
Definition endswith_char (c : ascii) (s : string) : bool :=
  match last_char s with
  | Some c' => Ascii.eqb c c'
  | None => false
  end.

(** [x in l] for a list of strings. *)
Definition str_in (x : string) (l : list string) : bool :=
  existsb (String.eqb x) l.

(** [x or default] for an optional string: [None] and the empty string
    are falsy. *)
Definition str_or (x : option string) (default : string) : string :=
  match x with
  | Some s => if String.eqb s "" then default else s
  | None => default
  end.

(** [str(n)] for an [int]. *)
Definition str_of_Z (z : Z) : string :=
  NilZero.string_of_int (Z.to_int z).

(** [len(l)] *)
Definition len {A : Type} (l : list A) : Z := Z.of_nat (List.length l).

(** An exception object: its class and [str(e)]. *)
Record exn : Type := mkExn { exn_class : string; exn_msg : string }.

Definition str_exn (e : exn) : string := exn_msg e.

Definition ValueError (msg : string) : exn := mkExn "ValueError" msg.
Definition TypeError (msg : string) : exn := mkExn "TypeError" msg.
Definition AttributeError (msg : string) : exn := mkExn "AttributeError" msg.
Definition RuntimeError (msg : string) : exn := mkExn "RuntimeError" msg.
(** pydantic's [ValidationError]; the text lists the model and the field. *)
Definition ValidationError (model field : string) : exn :=
  mkExn "ValidationError" ("1 validation error for " ++ model ++ nl ++ field).

(** A dynamically typed value (the result of [json.loads], or any value a
    collaborator hands back). *)
Inductive json : Type :=
| JNull
| JBool (b : bool)
| JNum (q : Q)
| JStr (s : string)
| JArr (l : list json)
| JObj (kv : list (string * json)).

(** Python truthiness. *)
Definition truthy (v : json) : bool :=
  match v with
  | JNull => false
  | JBool b => b
  | JNum q => negb (Qeq_bool q 0)
  | JStr s => negb (String.eqb s "")
  | JArr l => match l with [] => false | _ => true end
  | JObj kv => match kv with [] => false | _ => true end
  end.

Fixpoint assoc {A : Type} (k : string) (kv : list (string * A)) : option A :=
  match kv with
  | [] => None
  | (k', v) :: rest => if String.eqb k k' then Some v else assoc k rest
  end.

(** [d.get(k, default)] on a dict. *)
Definition dict_get (kv : list (string * json)) (k : string) (default : json) : json :=
  match assoc k kv with
  | Some v => v
  | None => default
  end.

(** The three ways an awaited call can end. [Hang] is a coroutine that is
    never resumed. *)
Inductive outcome (A : Type) : Type :=
| Ret (a : A)
| Raise (e : exn)
| Hang.
Arguments Ret {A} a.
Arguments Raise {A} e.
Arguments Hang {A}.

(** Computations over a state [S]. The state survives an exception, as
    Python's heap does. *)
Definition M (S A : Type) : Type := S -> outcome A * S.

Definition ret {S A : Type} (a : A) : M S A := fun s => (Ret a, s).

Definition bind {S A B : Type} (m : M S A) (k : A -> M S B) : M S B :=
  fun s =>
    match m s with
    | (Ret a, s') => k a s'
    | (Raise e, s') => (Raise e, s')
    | (Hang, s') => (Hang, s')
    end.

Definition raise {S A : Type} (e : exn) : M S A := fun s => (Raise e, s).

Definition hang {S A : Type} : M S A := fun s => (Hang, s).

(** [try: body except Exception as e: handler(e)] *)
Definition try_except {S A : Type} (body : M S A) (handler : exn -> M S A) : M S A :=
  fun s =>
    match body s with
    | (Raise e, s') => handler e s'
    | r => r
    end.

(** Run a computation on the second component of a larger state. *)
Definition zoom {L S A : Type} (m : M S A) : M (L * S) A :=
  fun ls =>
    let (r, s') := m (snd ls) in (r, (fst ls, s')).

(** Read and update the first component (local variables of a frame). *)
Definition get_local {L S : Type} : M (L * S) L := fun ls => (Ret (fst ls), ls).
Definition set_local {L S : Type} (l : L) : M (L * S) unit :=
  fun ls => (Ret tt, (l, snd ls)).

Definition modify_local {L S : Type} (f : L -> L) : M (L * S) unit :=
  fun ls => (Ret tt, (f (fst ls), snd ls)).

(** Run a frame with local variables starting at [l]; the result comes
    with the final locals. *)
Definition with_locals {L S A : Type} (l : L) (m : M (L * S) A) : M S (A * L) :=
  fun s =>
    match m (l, s) with
    | (Ret a, ls) => (Ret (a, fst ls), snd ls)
    | (Raise e, ls) => (Raise e, snd ls)
    | (Hang, ls) => (Hang, snd ls)
    end.

(** Lift a call that answers with a value or an exception. *)
Definition of_sum {S A : Type} (r : exn + A) : M S A :=
  match r with
  | inr a => ret a
  | inl e => raise e
  end.

(** [len(s)] for a string. *)
Definition str_len (s : string) : Z := Z.of_nat (String.length s).

(** [s[:k]] for any integer [k]: a negative [k] counts from the end. *)
Definition slice_upto (k : Z) (s : string) : string :=
  if (k <? 0)%Z then substring 0 (Z.to_nat (str_len s + k)) s
  else substring 0 (Z.to_nat k) s.

(** [l[:k]] on a list, likewise. *)
Definition list_upto {A : Type} (k : Z) (l : list A) : list A :=
  if (k <? 0)%Z then firstn (Z.to_nat (len l + k)) l
  else firstn (Z.to_nat k) l.

(** [range(n)] *)
Definition range (n : Z) : list Z := map Z.of_nat (seq 0 (Z.to_nat n)).

(** [sorted(l)] for a list of strings: the order is that of the character
    codes. *)
Fixpoint insert_sorted (x : string) (l : list string) : list string :=
  match l with
  | [] => [x]
  | y :: rest => if String.leb x y then x :: l else y :: insert_sorted x rest
  end.

Definition sorted (l : list string) : list string := fold_right insert_sorted [] l.

(** [d[k] = v] on a dict: the value of an existing key is replaced where
    it stands, a new key goes last. *)
Fixpoint dict_set {A : Type} (k : string) (v : A) (d : list (string * A))
    : list (string * A) :=
  match d with
  | [] => [(k, v)]
  | (k', v') :: rest =>
      if String.eqb k k' then (k', v) :: rest else (k', v') :: dict_set k v rest
  end.

End Py.

Export Py.

Declare Scope py_scope.
Delimit Scope py_scope with py.
Notation "x <- c1 ;; c2" := (bind c1 (fun x => c2))
  (at level 61, c1 at next level, right associativity) : py_scope.
Notation "c1 ;; c2" := (bind c1 (fun _ => c2))
  (at level 61, right associativity) : py_scope.
Local Open Scope py_scope.

(* ================================================================= *)
(** ** The world outside the process

    A state is the external world [W] together with the list of calls made
    to collaborators so far (the suspension points of the trial: Reasoner
    calls, EvidenceSource calls and precedent-store I/O), most recent last.
    Reading the clock or drawing an identifier steps the world but is not a
    collaborator call. *)

Module world.

Definition datetime : Type := Z.

Record call : Type := mkCall {
  call_target : string;     (* the object called *)
  call_method : string;     (* the method name *)
  call_args : list json     (* its arguments *)
}.

Record St (W : Type) : Type := mkSt { world : W; calls : list call }.
Arguments mkSt {W} world calls.
Arguments world {W} s.
Arguments calls {W} s.

(** The operating system services the package uses: [datetime.now()] and
    [uuid4()]. *)
Class Sys (W : Type) : Type := {
  sys_now : W -> datetime * W;
  sys_uuid4 : W -> string * W
}.

(** Pure library functions whose definitions are outside the package:
    [json.loads] ([None] is [JSONDecodeError]), the three regular
    expression searches the package performs (the text of group 1, or of
    the match), [float(s)] on a string, and float formatting. *)
Class Lib : Type := {
  json_loads : string -> option json;
  re_search_fenced : string -> option string;
  re_search_object_or_array : string -> option string;
  re_search_array : string -> option string;
  float_of_str : string -> option Q;
  format_2f : Q -> string;
  format_pct1 : Q -> string
}.

Section ops.
Context {W : Type} `{Sys W}.

(** [datetime.now()] *)
Definition datetime_now : M (St W) datetime :=
  fun s => let (t, w) := sys_now (world s) in (Ret t, mkSt w (calls s)).

(** [str(uuid4())] *)
Definition uuid4 : M (St W) string :=
  fun s => let (u, w) := sys_uuid4 (world s) in (Ret u, mkSt w (calls s)).

(** An awaited call on a collaborator: it is recorded, then answered by
    the world with a value or an exception. *)
Definition await_call {A : Type} (c : call) (f : W -> (exn + A) * W) : M (St W) A :=
  fun s =>
    let (r, w) := f (world s) in
    of_sum r (mkSt w (calls s ++ [c])%list).
End ops.

(** The event loop: what [await asyncio.sleep(d)] does to the world. *)
Class EventLoop (W : Type) : Type := {
  loop_sleep : Q -> W -> W
}.

(** [await asyncio.sleep(delay)]: a suspension point that always resumes. *)
Definition asyncio_sleep {W : Type} `{EventLoop W} (delay : Q) : M (St W) unit :=
  await_call (mkCall "asyncio" "sleep" [JNum delay])
             (fun w => (inr tt, loop_sleep delay w)).

End world.

Export world.

(* ================================================================= *)
(** ** core/models.py *)

Module models.

(** [generate_id()] *)
Definition generate_id {W : Type} `{Sys W} : M (St W) string := uuid4.

(** [Literal["no_objection", "suspicious_fact", "reasonable_doubt", "abstain"]] *)
Inductive Decision : Type := no_objection | suspicious_fact | reasonable_doubt | abstain.

Definition Decision_str (d : Decision) : string :=
  match d with
  | no_objection => "no_objection"
  | suspicious_fact => "suspicious_fact"
  | reasonable_doubt => "reasonable_doubt"
  | abstain => "abstain"
  end.

Definition Decision_eqb (a b : Decision) : bool :=
  match a, b with
  | no_objection, no_objection | suspicious_fact, suspicious_fact
  | reasonable_doubt, reasonable_doubt | abstain, abstain => true
  | _, _ => false
  end.

(** Validation of a value against the literal type. *)
Definition Decision_of_json (v : json) : option Decision :=
  match v with
  | JStr s =>
      if String.eqb s "no_objection" then Some no_objection
      else if String.eqb s "suspicious_fact" then Some suspicious_fact
      else if String.eqb s "reasonable_doubt" then Some reasonable_doubt
      else if String.eqb s "abstain" then Some abstain
      else None
  | _ => None
  end.

(** Validation of a value against [str]. *)
Definition str_of_json (v : json) : option string :=
  match v with
  | JStr s => Some s
  | _ => None
  end.

(** [Literal["new", "cache", "precedent"]] *)
Inductive Source : Type := new | cache | precedent.

Definition Source_eqb (a b : Source) : bool :=
  match a, b with
  | new, new | cache, cache | precedent, precedent => true
  | _, _ => false
  end.

(** [Literal["completed", "mistrial", "partial"]] *)
Inductive Status : Type := completed | mistrial | partial.

(** In both [is_valid] methods a [datetime] is always truthy, so
    [self.valid_from and ...] tests for [None], and so does
    [check_date or datetime.now()]. *)
Module Precedent.
Record t : Type := mk {
  precedent_id : string;
  claim : string;
  verdict : string;
  reasoning : string;
  similarity_score : Q;
  timestamp : datetime;
  valid_from : option datetime;
  valid_until : option datetime
}.

Section methods.
Context {W : Type} `{Sys W}.

Definition is_valid (self : t) (check_date : option datetime) : M (St W) bool :=
  check_date <- match check_date with
                | Some d => ret d
                | None => datetime_now
                end ;;
  if match valid_from self with
     | Some vf => (check_date <? vf)%Z
     | None => false
     end then ret false
  else if match valid_until self with
          | Some vu => (check_date >? vu)%Z
          | None => false
          end then ret false
  else ret true.
End methods.
End Precedent.

Module Claim.
Record t : Type := mk {
  claim_id : string;
  text : string;
  source : Source;
  cache_id : option string;
  cached_verdict : option string;
  precedents : list Precedent.t;
  metadata : list (string * json)
}.

Section methods.
Context {W : Type} `{Sys W}.

(** [Claim(text=..., source=..., cache_id=..., cached_verdict=...,
    precedents=...)]; [claim_id] comes from its default factory. *)
Definition new (text : string) (source : Source) (cache_id cached_verdict : option string)
    (precedents : list Precedent.t) : M (St W) t :=
  claim_id <- generate_id ;;
  ret (mk claim_id text source cache_id cached_verdict precedents []).
End methods.
End Claim.

Module JuryVote.
Record t : Type := mk {
  jury_name : string;
  claim_id : string;
  decision : Decision;
  confidence : Q;
  reason : string;
  reference_summary : option string;
  search_cycles : Z;
  timestamp : datetime
}.

(** [is_objection] *)
Definition is_objection (self : t) : bool :=
  str_in (Decision_str (decision self)) ["suspicious_fact"; "reasonable_doubt"].

Section methods.
Context {W : Type} `{Sys W}.

(** [JuryVote(jury_name=..., claim_id=..., decision=..., confidence=...,
    reason=..., reference_summary=..., search_cycles=...)]. The
    caller passes [decision] and [reason] as it got them from the
    Reasoner; pydantic validates every field, calls the default
    factory of [timestamp], and then raises if a field was rejected. *)
Definition new (jury_name claim_id : string) (decision : json) (confidence : Q)
    (reason : json) (reference_summary : option string) (search_cycles : Z)
    : M (St W) t :=
  timestamp <- datetime_now ;;
  match Decision_of_json decision with
  | None => raise (ValidationError "JuryVote" "decision")
  | Some d =>
      if negb (Qle_bool 0 confidence && Qle_bool confidence 1)
      then raise (ValidationError "JuryVote" "confidence")
      else
        match str_of_json reason with
        | None => raise (ValidationError "JuryVote" "reason")
        | Some r =>
            ret (mk jury_name claim_id d confidence r reference_summary
                    search_cycles timestamp)
        end
  end.
End methods.
End JuryVote.

Module ClaimResult.
Record t : Type := mk {
  claim : Claim.t;
  jury_votes : list JuryVote.t;
  verdict : string;
  judge_reasoning : string;
  objection_count : Z;
  objection_ratio : Q;
  timestamp : datetime
}.

(** [calculate_objection_stats]: the object after the update. *)
Definition calculate_objection_stats (self : t) : t :=
  match jury_votes self with
  | [] => mk (claim self) (jury_votes self) (verdict self) (judge_reasoning self)
             0%Z 0%Q (timestamp self)
  | _ =>
      let n := len (filter JuryVote.is_objection (jury_votes self)) in
      mk (claim self) (jury_votes self) (verdict self) (judge_reasoning self)
         n (inject_Z n / inject_Z (len (jury_votes self)))%Q (timestamp self)
  end.

Section methods.
Context {W : Type} `{Sys W}.

(** [ClaimResult(claim=..., jury_votes=..., verdict=...,
    judge_reasoning=..., objection_count=..., objection_ratio=...)];
    [verdict] and [judge_reasoning] must be strings. *)
Definition new (claim : Claim.t) (jury_votes : list JuryVote.t) (verdict : json)
    (judge_reasoning : json) (objection_count : Z) (objection_ratio : Q)
    : M (St W) t :=
  timestamp <- datetime_now ;;
  match str_of_json verdict with
  | None => raise (ValidationError "ClaimResult" "verdict")
  | Some v =>
      match str_of_json judge_reasoning with
      | None => raise (ValidationError "ClaimResult" "judge_reasoning")
      | Some r =>
          ret (mk claim jury_votes v r objection_count objection_ratio timestamp)
      end
  end.
End methods.
End ClaimResult.

Module CaseReport.
Record t : Type := mk {
  case_id : string;
  case_text : string;
  domain : string;
  status : Status;
  claims : list ClaimResult.t;
  overall_verdict : option string;
  error_message : option string;
  timestamp : datetime;
  metadata : list (string * json)
}.

(** [get_verdicts_summary]: the dict it builds, in insertion order. *)
Definition get_verdicts_summary (self : t) : list (string * Z) :=
  fold_left
    (fun summary claim_result =>
       let verdict := ClaimResult.verdict claim_result in
       dict_set verdict
                (match assoc verdict summary with Some n => n | None => 0 end + 1)%Z
                summary)
    (claims self) [].

Section methods.
Context {W : Type} `{Sys W}.

(** [CaseReport(case_id=..., case_text=..., domain=..., status=...,
    claims=..., error_message=...)] *)
Definition new (case_id case_text domain : string) (status : Status)
    (claims : list ClaimResult.t) (error_message : option string) : M (St W) t :=
  timestamp <- datetime_now ;;
  ret (mk case_id case_text domain status claims None error_message timestamp []).
End methods.
End CaseReport.

Module CourtCodeEntry.
Record t : Type := mk {
  entry_id : string;
  claim : string;
  verdict : string;
  reasoning : string;
  domain : string;
  case_id : string;
  timestamp : datetime;
  valid_from : option datetime;
  valid_until : option datetime;
  jury_votes_count : Z;
  objection_count : Z;
  objection_ratio : Q;
  metadata : list (string * json)
}.

Section methods.
Context {W : Type} `{Sys W}.

(** [CourtCodeEntry(claim=..., verdict=..., reasoning=..., domain=...,
    case_id=..., jury_votes_count=..., objection_count=...,
    objection_ratio=...)] *)
Definition new (claim verdict reasoning domain case_id : string)
    (jury_votes_count objection_count : Z) (objection_ratio : Q) : M (St W) t :=
  entry_id <- generate_id ;;
  timestamp <- datetime_now ;;
  ret (mk entry_id claim verdict reasoning domain case_id timestamp None None
          jury_votes_count objection_count objection_ratio []).

Definition is_valid (self : t) (check_date : option datetime) : M (St W) bool :=
  check_date <- match check_date with
                | Some d => ret d
                | None => datetime_now
                end ;;
  if match valid_from self with
     | Some vf => (check_date <? vf)%Z
     | None => false
     end then ret false
  else if match valid_until self with
          | Some vu => (check_date >? vu)%Z
          | None => false
          end then ret false
  else ret true.
End methods.
End CourtCodeEntry.

Module ProsecutorReport.
Record t : Type := mk {
  case_id : string;
  original_text : string;
  claims : list Claim.t;
  rejected : bool;
  rejection_reason : option string;
  cache_hits : Z;
  precedents_found : Z;
  timestamp : datetime
}.

Section methods.
Context {W : Type} `{Sys W}.

(** [ProsecutorReport(case_id=..., original_text=..., claims=...,
    cache_hits=..., precedents_found=...)] *)
Definition new (case_id original_text : string) (claims : list Claim.t)
    (cache_hits precedents_found : Z) : M (St W) t :=
  timestamp <- datetime_now ;;
  ret (mk case_id original_text claims false None cache_hits precedents_found timestamp).

(** [report.case_id = case_id] *)
Definition set_case_id (self : t) (case_id : string) : t :=
  mk case_id (original_text self) (claims self) (rejected self)
     (rejection_reason self) (cache_hits self) (precedents_found self) (timestamp self).
End methods.
End ProsecutorReport.

End models.

Export models.

(* ================================================================= *)
(** ** utils/helpers.py *)

Module helpers.

Section concurrency.
Context {S A : Type}.

(** [asyncio.Semaphore(value)]: the counter, refused when negative. *)
Definition Semaphore (value : Z) : M S Z :=
  if (value <? 0)%Z
  then raise (ValueError "Semaphore initial value must be >= 0")
  else ret value.

(** [async with semaphore: return await task]. Tasks are run one after
    the other here, so a slot is free whenever the counter started
    above zero; with a counter of zero no task ever acquires it. *)
Definition bounded_task (semaphore : Z) (task : M S A) : M S A :=
  if (semaphore =? 0)%Z then hang else task.

(** [asyncio.gather] over all the tasks, without [return_exceptions]:
    results are positional; the first exception is delivered to the
    caller, and the other tasks are not cancelled (their effects take
    place). The interleaving of the awaits of the tasks is not modelled. *)
Fixpoint gather (tasks : list (M S A)) : M S (list A) :=
  match tasks with
  | [] => ret []
  | task :: rest =>
      fun s =>
        match task s with
        | (Ret a, s1) =>
            match gather rest s1 with
            | (Ret l, s2) => (Ret (a :: l), s2)
            | (Raise e, s2) => (Raise e, s2)
            | (Hang, s2) => (Hang, s2)
            end
        | (Raise e, s1) => (Raise e, snd (gather rest s1))
        | (Hang, s1) =>
            match gather rest s1 with
            | (Raise e, s2) => (Raise e, s2)
            | (_, s2) => (Hang, s2)
            end
        end
  end.

Definition run_with_concurrency_limit (tasks : list (M S A)) (limit : Z) : M S (list A) :=
  semaphore <- Semaphore limit ;;
  gather (map (bounded_task semaphore) tasks).
End concurrency.

Section retry.
Context {W A : Type} `{EventLoop W}.

(** The loop [for attempt in range(max_retries)] of the [wrapper] that
    [retry_on_failure(max_retries, delay)] puts around [func], followed by
    the final [raise last_exception]. [attempts] holds the values of
    [attempt] still to come. With no exception recorded the final
    statement is [raise None], which is a [TypeError]. *)
Fixpoint retry_loop (func : M (St W) A) (max_retries : Z) (delay : Q)
    (attempts : list Z) (last_exception : option exn) : M (St W) A :=
  match attempts with
  | [] =>
      match last_exception with
      | Some e => raise e
      | None => raise (TypeError "exceptions must derive from BaseException")
      end
  | attempt :: rest =>
      tried <-
        try_except
          (a <- func ;; ret (inl a))
          (fun e =>
             (if (attempt <? max_retries - 1)%Z
              then asyncio_sleep (delay * inject_Z (attempt + 1))
              else ret tt) ;;
             ret (inr e)) ;;
      match tried with
      | inl a => ret a
      | inr e => retry_loop func max_retries delay rest (Some e)
      end
  end.

(** [retry_on_failure(max_retries, delay)(func)], called. *)
Definition retry_on_failure (max_retries : Z) (delay : Q) (func : M (St W) A)
    : M (St W) A :=
  retry_loop func max_retries delay (range max_retries) None.
End retry.

(** [truncate_text(text, max_length, suffix)]; the defaults are 100 and
    three dots. *)
Definition truncate_text (text : string) (max_length : Z) (suffix : string) : string :=
  if (str_len text <=? max_length)%Z then text
  else slice_upto (max_length - str_len suffix) text ++ suffix.

Definition Qlt_bool (x y : Q) : bool := negb (Qle_bool y x).

(** [x == v] for a float [x]: never raises. *)
Definition float_eq (x : Q) (v : json) : bool :=
  match v with
  | JNum q => Qeq_bool x q
  | JBool b => Qeq_bool x (if b then 1 else 0)
  | _ => false
  end.

(** [x < v], [x <= v], [x > v], [x >= v] for a float [x]: a [TypeError]
    unless [v] is a number. *)
Definition float_cmp (cmp : Q -> Q -> bool) (sym : string) (x : Q) (v : json) : exn + bool :=
  match v with
  | JNum q => inr (cmp x q)
  | JBool b => inr (cmp x (if b then 1 else 0))
  | _ => inl (TypeError ("'" ++ sym ++ "' not supported between instances of 'float' and this value"))
  end.

(** [operator == name] *)
Definition is_str (name : string) (v : json) : bool :=
  match v with
  | JStr s => String.eqb s name
  | _ => false
  end.

(** The [if]/[elif] chain of the loop body: [inr true] when a branch
    returns the verdict, [inr false] when control falls out of the chain. *)
Definition rule_test (objection_ratio : Q) (operator value : json) : exn + bool :=
  if is_str "eq" operator && float_eq objection_ratio value then inr true
  else
    match (if is_str "lt" operator
           then float_cmp Qlt_bool "<" objection_ratio value else inr false) with
    | inl e => inl e
    | inr true => inr true
    | inr false =>
    match (if is_str "le" operator
           then float_cmp Qle_bool "<=" objection_ratio value else inr false) with
    | inl e => inl e
    | inr true => inr true
    | inr false =>
    match (if is_str "gt" operator
           then float_cmp (fun x y => Qlt_bool y x) ">" objection_ratio value else inr false) with
    | inl e => inl e
    | inr true => inr true
    | inr false =>
        if is_str "ge" operator
        then float_cmp (fun x y => Qle_bool y x) ">=" objection_ratio value else inr false
    end end end.

(** [for verdict, rule in rules.items(): ...] followed by the final
    [return default_verdict or "unknown"]. *)
Fixpoint calculate_verdict_loop (objection_ratio : Q) (items : list (string * json))
    (default_verdict : option string) : exn + string :=
  match items with
  | [] => inr (str_or default_verdict "unknown")
  | (verdict, rule) :: rest =>
      if is_str "default" rule
      then calculate_verdict_loop objection_ratio rest (Some verdict)
      else
        match rule with
        | JObj kv =>
            let operator := dict_get kv "operator" JNull in
            let value := dict_get kv "value" JNull in
            match rule_test objection_ratio operator value with
            | inl e => inl e
            | inr true => inr verdict
            | inr false => calculate_verdict_loop objection_ratio rest default_verdict
            end
        | _ => inl (AttributeError "object has no attribute 'get'")
        end
  end.

Definition calculate_verdict (objection_ratio : Q) (rules : list (string * json))
    : exn + string :=
  calculate_verdict_loop objection_ratio rules None.

End helpers.

Export helpers.

(* ================================================================= *)
(** ** llm/base.py and llm/factory.py *)

Module llm.

(** A provider object: the class it was built from and the keyword
    arguments it was built with. *)
Record LLMProvider : Type := mkLLMProvider {
  provider_class : string;
  provider_params : list (string * json)
}.

(** The abstract part of [BaseLLMProvider]: the [generate] coroutine of
    each provider, and whether a provider class accepts its constructor
    arguments ([Some e] when the constructor raises [e]). *)
Class BaseLLMProvider (W : Type) : Type := {
  generate : LLMProvider -> string -> string -> W -> (exn + string) * W;
  provider_init_error : string -> list (string * json) -> option exn
}.

Section base.
Context {W : Type} `{Sys W} `{BaseLLMProvider W} `{Lib}.

Definition await_generate (self : LLMProvider) (prompt system_prompt : string)
    : M (St W) string :=
  await_call (mkCall (provider_class self) "generate" [JStr prompt; JStr system_prompt])
             (generate self prompt system_prompt).

Definition json_instruction : string :=
  nl ++ nl ++ "You MUST respond with ONLY valid JSON. Do not include any explanations, quotes, or other text. Just the raw JSON object starting with { and ending with }.".

(** [BaseLLMProvider.generate_json] *)
Definition generate_json (self : LLMProvider) (prompt system_prompt : string)
    : M (St W) json :=
  let full_system_prompt := system_prompt ++ json_instruction in
  response <- await_generate self prompt full_system_prompt ;;
  let response := strip response in
  let response :=
    if startswith dq response && endswith_char (ascii_of_nat 34) response
    then slice_1_m1 response else response in
  match json_loads response with
  | Some v => ret v
  | None =>
      match (match re_search_fenced response with
             | Some g => json_loads g
             | None => None
             end) with
      | Some v => ret v
      | None =>
          match (match re_search_object_or_array response with
                 | Some g => json_loads g
                 | None => None
                 end) with
          | Some v => ret v
          | None =>
              raise (ValueError ("Could not parse JSON from response: "
                                 ++ slice_to 200 response))
          end
      end
  end.
End base.

(** The registry of provider classes at import time. *)
Definition _PROVIDER_REGISTRY : list (string * string) :=
  [ ("openai", "OpenAIProvider");
    ("google", "GoogleProvider");
    ("gemini", "GoogleProvider");
    ("anthropic", "AnthropicProvider");
    ("claude", "AnthropicProvider");
    ("openai_compatible", "OpenAIProvider");
    ("custom", "CustomProvider") ].

Definition is_null (v : json) : bool :=
  match v with JNull => true | _ => false end.

Section factory.
Context {W : Type} `{BaseLLMProvider W}.

(** [create_llm_provider(config)] for a [dict] argument. *)
Definition create_llm_provider (config : list (string * json)) : exn + LLMProvider :=
  let provider_name := dict_get config "provider" JNull in
  if negb (truthy provider_name)
  then inl (ValueError "Config must include 'provider' field")
  else
    match provider_name with
    | JStr name =>
        let provider_name := lower name in
        match assoc provider_name _PROVIDER_REGISTRY with
        | None =>
            inl (ValueError ("Unknown provider: " ++ provider_name
                             ++ ". Available providers: "
                             ++ join ", " (map fst _PROVIDER_REGISTRY)))
        | Some provider_class =>
            let params :=
              [ ("model_name", dict_get config "model_name" JNull);
                ("api_key", dict_get config "api_key" JNull);
                ("base_url", dict_get config "base_url" JNull);
                ("temperature", dict_get config "temperature" (JNum (7 # 10)));
                ("max_tokens", dict_get config "max_tokens" JNull);
                ("timeout", dict_get config "timeout" (JNum 60)) ] in
            let params := filter (fun kv => negb (is_null (snd kv))) params in
            let extra_params :=
              filter (fun kv => negb (str_in (fst kv)
                        ["provider"; "model_name"; "api_key"; "base_url";
                         "temperature"; "max_tokens"; "timeout"])) config in
            let params := (params ++ extra_params)%list in
            match assoc "model_name" params with
            | None => inl (ValueError "Config must include 'model_name' field")
            | Some _ =>
                match provider_init_error provider_class params with
                | Some e =>
                    inl (RuntimeError ("Failed to create provider '" ++ provider_name
                                       ++ "': " ++ str_exn e))
                | None => inr (mkLLMProvider provider_class params)
                end
            end
        end
    | _ => inl (AttributeError "object has no attribute 'lower'")
    end.
End factory.

(** A class object handed to [register_provider]: its [__name__], and
    whether it is a subclass of [BaseLLMProvider]. *)
Record ProviderClass : Type := mkProviderClass {
  class_name : string;
  is_llm_provider : bool
}.

(** [register_provider(name, provider_class)]: the registry after the
    call. The registry is a module-level dict; here it is passed in and
    handed back. *)
Definition register_provider (name : string) (provider_class : ProviderClass)
    (registry : list (string * string)) : exn + list (string * string) :=
  if negb (is_llm_provider provider_class)
  then inl (TypeError ("Provider class must inherit from BaseLLMProvider, got "
                       ++ class_name provider_class))
  else inr (dict_set (lower name) (class_name provider_class) registry).

(** [list_providers()] on a registry. *)
Definition list_providers (registry : list (string * string)) : list string :=
  sorted (map fst registry).

Section factory_registry.
Context {W : Type} `{BaseLLMProvider W}.

(** [create_llm_provider(config)] read against the registry as it stands
    at the time of the call. *)
Definition create_llm_provider_from (registry : list (string * string))
    (config : list (string * json)) : exn + LLMProvider :=
  let provider_name := dict_get config "provider" JNull in
  if negb (truthy provider_name)
  then inl (ValueError "Config must include 'provider' field")
  else
    match provider_name with
    | JStr name =>
        let provider_name := lower name in
        match assoc provider_name registry with
        | None =>
            inl (ValueError ("Unknown provider: " ++ provider_name
                             ++ ". Available providers: "
                             ++ join ", " (map fst registry)))
        | Some provider_class =>
            let params :=
              [ ("model_name", dict_get config "model_name" JNull);
                ("api_key", dict_get config "api_key" JNull);
                ("base_url", dict_get config "base_url" JNull);
                ("temperature", dict_get config "temperature" (JNum (7 # 10)));
                ("max_tokens", dict_get config "max_tokens" JNull);
                ("timeout", dict_get config "timeout" (JNum 60)) ] in
            let params := filter (fun kv => negb (is_null (snd kv))) params in
            let extra_params :=
              filter (fun kv => negb (str_in (fst kv)
                        ["provider"; "model_name"; "api_key"; "base_url";
                         "temperature"; "max_tokens"; "timeout"])) config in
            let params := (params ++ extra_params)%list in
            match assoc "model_name" params with
            | None => inl (ValueError "Config must include 'model_name' field")
            | Some _ =>
                match provider_init_error provider_class params with
                | Some e =>
                    inl (RuntimeError ("Failed to create provider '" ++ provider_name
                                       ++ "': " ++ str_exn e))
                | None => inr (mkLLMProvider provider_class params)
                end
            end
        end
    | _ => inl (AttributeError "object has no attribute 'lower'")
    end.
End factory_registry.

End llm.

Export llm.

(* ================================================================= *)
(** ** llm/openai_provider.py, anthropic_provider.py, google_provider.py

    Each SDK appears by the two operations a provider performs on it:
    getting the client (or the model), which the provider builds on its
    first call and keeps, and sending the request. An answer is given by
    its parts the provider reads: the contents of the choices of a chat
    completion ([None] where the content is [None]), the texts of the
    content blocks of a message ([None] for a block without text), the
    text of a generated content. *)

Module providers.

(** [d.update(new)] *)
Definition dict_update {A : Type} (d new : list (string * A)) : list (string * A) :=
  fold_left (fun d kv => dict_set (fst kv) (snd kv) d) new d.

(** The attributes [BaseLLMProvider.__init__] sets and the requests
    read. *)
Record t : Type := mk {
  model_name : json;
  temperature : json;
  max_tokens : json;
  extra_params : list (string * json)
}.

(** The keyword arguments that go to [**kwargs] of a constructor whose
    named parameters are [named]. *)
Definition kwargs_of (named : list string) (params : list (string * json))
    : list (string * json) :=
  filter (fun kv => negb (str_in (fst kv) named)) params.

Definition message (role content : string) : json :=
  JObj [("role", JStr role); ("content", JStr content)].

Class OpenAI (W : Type) : Type := {
  openai_client : W -> (exn + unit) * W;
  chat_completions_create : list (string * json) -> W -> (exn + list (option string)) * W
}.

Class Anthropic (W : Type) : Type := {
  anthropic_client : W -> (exn + unit) * W;
  messages_create : list (string * json) -> W -> (exn + list (option string)) * W
}.

Class Gemini (W : Type) : Type := {
  gemini_model : json -> list (string * json) -> W -> (exn + unit) * W;
  generate_content : string -> W -> (exn + string) * W
}.

Module OpenAIProvider.

(** The constructor of [OpenAIProvider] on the keyword arguments [params]. *)
Definition new (params : list (string * json)) : t :=
  mk (dict_get params "model_name" (JStr "gpt-3.5-turbo"))
     (dict_get params "temperature" (JNum (7 # 10)))
     (dict_get params "max_tokens" JNull)
     (kwargs_of ["model_name"; "api_key"; "base_url"; "temperature"; "max_tokens"; "timeout"]
                params).

(** The [api_params] of [generate]. *)
Definition api_params (self : t) (prompt system_prompt : string)
    (kwargs : list (string * json)) : list (string * json) :=
  let messages :=
    ((if negb (String.eqb system_prompt "") then [message "system" system_prompt] else [])
       ++ [message "user" prompt])%list in
  let api_params :=
    [ ("model", model_name self);
      ("messages", JArr messages);
      ("temperature", temperature self) ] in
  let api_params :=
    if truthy (max_tokens self)
    then dict_set "max_tokens" (max_tokens self) api_params
    else api_params in
  dict_update (dict_update api_params kwargs) (extra_params self).

Section methods.
Context {W : Type} `{OpenAI W}.

(** [OpenAIProvider.generate] *)
Definition generate (self : t) (prompt system_prompt : string)
    (kwargs : list (string * json)) : M (St W) (option string) :=
  await_call (mkCall "OpenAIProvider" "_get_client" []) openai_client ;;
  let api_params := api_params self prompt system_prompt kwargs in
  try_except
    (choices <- await_call (mkCall "client" "chat.completions.create" [JObj api_params])
                           (chat_completions_create api_params) ;;
     match choices with
     | content :: _ => ret content
     | [] => raise (mkExn "IndexError" "list index out of range")
     end)
    (fun e => raise (RuntimeError ("OpenAI API call failed: " ++ str_exn e))).
End methods.
End OpenAIProvider.

Module AnthropicProvider.

(** The constructor of [AnthropicProvider] on the keyword arguments
    [params]. It has no parameter [base_url]; a [base_url] among [params]
    travels in its [**kwargs] to the base constructor, which binds it to
    its own parameter of that name. *)
Definition new (params : list (string * json)) : t :=
  mk (dict_get params "model_name" (JStr "claude-3-5-sonnet-20241022"))
     (dict_get params "temperature" (JNum (7 # 10)))
     (let max_tokens := dict_get params "max_tokens" (JNum 4096) in
      if truthy max_tokens then max_tokens else JNum 4096)
     (kwargs_of ["base_url"]
        (kwargs_of ["model_name"; "api_key"; "temperature"; "max_tokens"; "timeout"] params)).

(** The [api_params] of [generate]. *)
Definition api_params (self : t) (prompt system_prompt : string)
    (kwargs : list (string * json)) : list (string * json) :=
  let api_params :=
    [ ("model", model_name self);
      ("max_tokens", max_tokens self);
      ("temperature", temperature self);
      ("messages", JArr [message "user" prompt]) ] in
  let api_params :=
    if negb (String.eqb system_prompt "")
    then dict_set "system" (JStr system_prompt) api_params
    else api_params in
  dict_update (dict_update api_params kwargs) (extra_params self).

Section methods.
Context {W : Type} `{Anthropic W}.

(** [AnthropicProvider.generate] *)
Definition generate (self : t) (prompt system_prompt : string)
    (kwargs : list (string * json)) : M (St W) string :=
  await_call (mkCall "AnthropicProvider" "_get_client" []) anthropic_client ;;
  let api_params := api_params self prompt system_prompt kwargs in
  try_except
    (content <- await_call (mkCall "client" "messages.create" [JObj api_params])
                           (messages_create api_params) ;;
     match content with
     | Some text :: _ => ret text
     | None :: _ => raise (AttributeError "object has no attribute 'text'")
     | [] => raise (mkExn "IndexError" "list index out of range")
     end)
    (fun e => raise (RuntimeError ("Anthropic API call failed: " ++ str_exn e))).
End methods.
End AnthropicProvider.

Module GoogleProvider.

(** The constructor of [GoogleProvider] on the keyword arguments
    [params]; a [base_url] is bound by the base constructor, as for
    [AnthropicProvider]. *)
Definition new (params : list (string * json)) : t :=
  mk (dict_get params "model_name" (JStr "gemini-1.5-pro"))
     (dict_get params "temperature" (JNum (7 # 10)))
     (dict_get params "max_tokens" JNull)
     (kwargs_of ["base_url"]
        (kwargs_of ["model_name"; "api_key"; "temperature"; "max_tokens"; "timeout";
                    "enable_grounding"] params)).

(** The [generation_config] of [_get_model]. *)
Definition generation_config (self : t) : list (string * json) :=
  let generation_config := [ ("temperature", temperature self) ] in
  let generation_config :=
    if truthy (max_tokens self)
    then dict_set "max_output_tokens" (max_tokens self) generation_config
    else generation_config in
  dict_update generation_config (extra_params self).

Section methods.
Context {W : Type} `{Gemini W}.

(** [GoogleProvider.generate] *)
Definition generate (self : t) (prompt system_prompt : string)
    (kwargs : list (string * json)) : M (St W) string :=
  await_call (mkCall "GoogleProvider" "_get_model"
                     [model_name self; JObj (generation_config self)])
             (gemini_model (model_name self) (generation_config self)) ;;
  let full_prompt :=
    if negb (String.eqb system_prompt "")
    then system_prompt ++ nl ++ nl ++ prompt
    else prompt in
  try_except
    (await_call (mkCall "model" "generate_content" [JStr full_prompt])
                (generate_content full_prompt))
    (fun e => raise (RuntimeError ("Google Gemini API call failed: " ++ str_exn e))).
End methods.
End GoogleProvider.

End providers.

(* ================================================================= *)
(** ** references/base.py and code/base.py: the abstract collaborators *)

Module references.

(** A reference source object, known by its name. *)
Record Reference : Type := mkReference { reference_name : string }.

(** [BaseReference.retrieve(query, top_k)]. The query is whatever the
    caller passes (the Jury passes on what the Reasoner suggested). *)
Class BaseReference (W : Type) : Type := {
  retrieve : Reference -> json -> Z -> W -> (exn + list string) * W
}.

Definition await_retrieve {W : Type} `{BaseReference W}
    (self : Reference) (query : json) (top_k : Z) : M (St W) (list string) :=
  await_call (mkCall (reference_name self) "retrieve" [query; JNum (inject_Z top_k)])
             (retrieve self query top_k).

End references.

Export references.

Module code.

(** A court code object, known by its database path. *)
Record CourtCode : Type := mkCourtCode { db_path : string }.

(** The abstract methods of [BaseCourtCode] the trial uses. *)
Class BaseCourtCode (W : Type) : Type := {
  search_exact : CourtCode -> string -> W -> (exn + option CourtCodeEntry.t) * W;
  search_similar : CourtCode -> string -> Z -> Q -> W -> (exn + list Precedent.t) * W;
  add_entry : CourtCode -> CourtCodeEntry.t -> W -> (exn + string) * W
}.

Section calls.
Context {W : Type} `{BaseCourtCode W}.

Definition await_search_exact (self : CourtCode) (claim : string)
    : M (St W) (option CourtCodeEntry.t) :=
  await_call (mkCall (db_path self) "search_exact" [JStr claim])
             (search_exact self claim).

Definition await_search_similar (self : CourtCode) (claim : string) (top_k : Z)
    (threshold : Q) : M (St W) (list Precedent.t) :=
  await_call (mkCall (db_path self) "search_similar"
                     [JStr claim; JNum (inject_Z top_k); JNum threshold])
             (search_similar self claim top_k threshold).

Definition await_add_entry (self : CourtCode) (entry : CourtCodeEntry.t)
    : M (St W) string :=
  await_call (mkCall (db_path self) "add_entry"
                     [JStr (CourtCodeEntry.entry_id entry);
                      JStr (CourtCodeEntry.claim entry);
                      JStr (CourtCodeEntry.verdict entry)])
             (add_entry self entry).
End calls.

Section validity.
Context {W : Type} `{Sys W} `{BaseCourtCode W}.

(** [[p for p in similar if p.is_valid(check_date)]] *)
Fixpoint valid_at (check_date : datetime) (similar : list Precedent.t)
    : M (St W) (list Precedent.t) :=
  match similar with
  | [] => ret []
  | p :: rest =>
      ok <- Precedent.is_valid p (Some check_date) ;;
      l <- valid_at check_date rest ;;
      ret (if ok then p :: l else l)
  end.

(** [BaseCourtCode.search_with_validity]; the defaults of [top_k] and
    [threshold] are 5 and 0.7. An entry object is always truthy. *)
Definition search_with_validity (self : CourtCode) (claim : string)
    (check_date : option datetime) (top_k : Z) (threshold : Q)
    : M (St W) (option CourtCodeEntry.t * list Precedent.t) :=
  check_date <- match check_date with
                | Some d => ret d
                | None => datetime_now
                end ;;
  exact <- await_search_exact self claim ;;
  exact <- match exact with
           | Some entry =>
               ok <- CourtCodeEntry.is_valid entry (Some check_date) ;;
               ret (if negb ok then None else Some entry)
           | None => ret None
           end ;;
  similar <- await_search_similar self claim top_k threshold ;;
  valid_similar <- valid_at check_date similar ;;
  ret (exact, valid_similar).
End validity.

End code.

Export code.

(* ================================================================= *)
(** ** code/sqlite_code.py: the store on SQLite and a vector collection

    The two libraries under the store appear by the operations the
    methods perform on them. A SQL operation stands for the whole of
    connect, execute, commit or fetch, and close; a fetch includes the
    decoding of the row into an entry. *)

Module sqlite_code.

(** The answer of a collection query, as the vector library types it:
    one list of identifiers per query text, and the matching lists of
    distances when distances were asked for. *)
Record QueryResult : Type := mkQueryResult {
  ids : list (list string);
  distances : option (list (list Q))
}.

Class Sqlite3 (W : Type) : Type := {
  sql_connect : string -> W -> (exn + unit) * W;
  sql_insert : string -> CourtCodeEntry.t -> W -> (exn + unit) * W;
  sql_select_by_id : string -> string -> W -> (exn + option CourtCodeEntry.t) * W;
  sql_update : string -> string -> list (string * json) -> W -> (exn + Z) * W;
  sql_delete : string -> string -> W -> (exn + Z) * W
}.

Class Collection (W : Type) : Type := {
  collection_query : string -> Z -> W -> (exn + QueryResult) * W;
  collection_add : CourtCodeEntry.t -> W -> (exn + unit) * W;
  collection_update : string -> json -> W -> (exn + unit) * W;
  collection_delete : string -> W -> (exn + unit) * W
}.

(** A store object. [default_validity_period] is a [timedelta], counted
    in the unit of [datetime]. *)
Module SqliteCourtCode.
Record t : Type := mk {
  db_path : string;
  default_validity_period : option Z;
  enable_vector_search : bool
}.
End SqliteCourtCode.
Import SqliteCourtCode.

(** [precedents.sort(key=lambda p: p.similarity_score, reverse=True)]:
    descending, and stable. *)
Fixpoint insert_by_similarity (p : Precedent.t) (l : list Precedent.t)
    : list Precedent.t :=
  match l with
  | [] => [p]
  | p' :: rest =>
      if Qlt_bool (Precedent.similarity_score p) (Precedent.similarity_score p')
      then p' :: insert_by_similarity p rest
      else p :: l
  end.

Definition sort_by_similarity (l : list Precedent.t) : list Precedent.t :=
  fold_right insert_by_similarity [] l.

(** [[1.0 / (1.0 + dist) for dist in distances]]; a distance of -1 is a
    division by zero. *)
Fixpoint similarities_of (distances : list Q) : exn + list Q :=
  match distances with
  | [] => inr []
  | dist :: rest =>
      if Qeq_bool (1 + dist) 0 then inl (mkExn "ZeroDivisionError" "float division by zero")
      else
        match similarities_of rest with
        | inl e => inl e
        | inr l => inr ((1 / (1 + dist))%Q :: l)
        end
  end.

(** The validity defaulting at the head of [add_entry]: the entry object
    after it. A zero [timedelta] is falsy. *)
Definition with_default_validity (self : SqliteCourtCode.t) (entry : CourtCodeEntry.t)
    : CourtCodeEntry.t :=
  match CourtCodeEntry.valid_from entry, default_validity_period self with
  | None, Some period =>
      if (period =? 0)%Z then entry
      else
        CourtCodeEntry.mk
          (CourtCodeEntry.entry_id entry) (CourtCodeEntry.claim entry)
          (CourtCodeEntry.verdict entry) (CourtCodeEntry.reasoning entry)
          (CourtCodeEntry.domain entry) (CourtCodeEntry.case_id entry)
          (CourtCodeEntry.timestamp entry)
          (Some (CourtCodeEntry.timestamp entry))
          (Some (CourtCodeEntry.timestamp entry + period)%Z)
          (CourtCodeEntry.jury_votes_count entry) (CourtCodeEntry.objection_count entry)
          (CourtCodeEntry.objection_ratio entry) (CourtCodeEntry.metadata entry)
  | _, _ => entry
  end.

Section methods.
Context {W : Type} `{Sqlite3 W} `{Collection W}.

(** The loop of [search_similar] over the candidates and their
    similarities. *)
Fixpoint fetch_loop (self : SqliteCourtCode.t) (candidates : list (string * Q))
    (threshold : Q) (precedents : list Precedent.t) : M (St W) (list Precedent.t) :=
  match candidates with
  | [] => ret precedents
  | (entry_id, similarity) :: rest =>
      if Qlt_bool similarity threshold
      then fetch_loop self rest threshold precedents
      else
        row <- await_call (mkCall (db_path self) "select" [JStr entry_id])
                          (sql_select_by_id (db_path self) entry_id) ;;
        match row with
        | Some entry =>
            fetch_loop self rest threshold
              (precedents
                 ++ [Precedent.mk (CourtCodeEntry.entry_id entry)
                                  (CourtCodeEntry.claim entry)
                                  (CourtCodeEntry.verdict entry)
                                  (CourtCodeEntry.reasoning entry)
                                  similarity
                                  (CourtCodeEntry.timestamp entry)
                                  (CourtCodeEntry.valid_from entry)
                                  (CourtCodeEntry.valid_until entry)])%list
        | None => fetch_loop self rest threshold precedents
        end
  end.

(** [SqliteCourtCode.search_similar] *)
Definition search_similar (self : SqliteCourtCode.t) (claim : string) (top_k : Z)
    (threshold : Q) : M (St W) (list Precedent.t) :=
  if negb (enable_vector_search self) then ret []
  else
    try_except
      (results <- await_call (mkCall "collection" "query"
                                     [JStr claim; JNum (inject_Z (top_k * 2))])
                             (collection_query claim (top_k * 2)) ;;
       let entry_ids := match ids results with
                        | [] => []
                        | first :: _ => first
                        end in
       let distances := match distances results with
                        | Some (first :: _) => first
                        | _ => []
                        end in
       similarities <- of_sum (similarities_of distances) ;;
       await_call (mkCall (db_path self) "connect" []) (sql_connect (db_path self)) ;;
       precedents <- fetch_loop self (combine entry_ids similarities) threshold [] ;;
       ret (list_upto top_k (sort_by_similarity precedents)))
      (fun _ => ret []).

(** [SqliteCourtCode.add_entry]: the identifier returned. The caller's
    entry object is left as [with_default_validity] makes it. *)
Definition add_entry (self : SqliteCourtCode.t) (entry : CourtCodeEntry.t)
    : M (St W) string :=
  let entry := with_default_validity self entry in
  await_call (mkCall (db_path self) "insert" [JStr (CourtCodeEntry.entry_id entry)])
             (sql_insert (db_path self) entry) ;;
  (if enable_vector_search self
   then try_except
          (await_call (mkCall "collection" "add" [JStr (CourtCodeEntry.entry_id entry)])
                      (collection_add entry))
          (fun _ => ret tt)
   else ret tt) ;;
  ret (CourtCodeEntry.entry_id entry).

(** [SqliteCourtCode.update_entry(entry_id, **updates)] *)
Definition update_entry (self : SqliteCourtCode.t) (entry_id : string)
    (updates : list (string * json)) : M (St W) bool :=
  match updates with
  | [] => ret false
  | _ =>
      affected <- await_call (mkCall (db_path self) "update" [JStr entry_id])
                             (sql_update (db_path self) entry_id updates) ;;
      (match assoc "claim" updates with
       | Some claim =>
           if enable_vector_search self
           then try_except
                  (await_call (mkCall "collection" "update" [JStr entry_id; claim])
                              (collection_update entry_id claim))
                  (fun _ => ret tt)
           else ret tt
       | None => ret tt
       end) ;;
      ret (0 <? affected)%Z
  end.

(** [SqliteCourtCode.delete_entry] *)
Definition delete_entry (self : SqliteCourtCode.t) (entry_id : string) : M (St W) bool :=
  affected <- await_call (mkCall (db_path self) "delete" [JStr entry_id])
                         (sql_delete (db_path self) entry_id) ;;
  (if enable_vector_search self
   then try_except
          (await_call (mkCall "collection" "delete" [JStr entry_id])
                      (collection_delete entry_id))
          (fun _ => ret tt)
   else ret tt) ;;
  ret (0 <? affected)%Z.
End methods.

End sqlite_code.

(* ================================================================= *)
(** ** references/: the default scores, and three reference sources

    [GoogleSearchReference.retrieve] is an HTTP exchange and stays a
    method of the class [BaseReference]; the files [SimpleTextStorage]
    reads and the collection [LocalRAGReference] queries appear by the
    operations performed on them. *)

Module reference_sources.

Section scores.
Context {W : Type} `{BaseReference W}.

(** [BaseReference.retrieve_with_scores] *)
Definition retrieve_with_scores (self : Reference) (query : json) (top_k : Z)
    : M (St W) (list (string * Q)) :=
  results <- await_retrieve self query top_k ;;
  ret (map (fun text => (text, 1%Q)) results).
End scores.

Module GoogleSearchReference.

(** The loop [for i, text in enumerate(results)] from index [i] on, with
    [score = 1.0 - (i * 0.1)] and [max(score, 0.1)]. *)
Fixpoint scored_from (i : Z) (results : list string) : list (string * Q) :=
  match results with
  | [] => []
  | text :: rest =>
      let score := (1 - inject_Z i * (1 # 10))%Q in
      (text, if Qlt_bool score (1 # 10) then (1 # 10)%Q else score)
        :: scored_from (i + 1) rest
  end.

Section methods.
Context {W : Type} `{BaseReference W}.

(** [GoogleSearchReference.retrieve_with_scores] *)
Definition retrieve_with_scores (self : Reference) (query : json) (top_k : Z)
    : M (St W) (list (string * Q)) :=
  results <- await_retrieve self query top_k ;;
  ret (scored_from 0 results).
End methods.
End GoogleSearchReference.

(** Files: [str(Path(p))], and [open(p, 'r', encoding='utf-8')] followed
    by [read()]. *)
Class FileSystem (W : Type) : Type := {
  path_str : string -> string;
  read_text : string -> W -> (exn + string) * W
}.

Module SimpleTextStorage.

(** The object: [file_path] is [None] when the attribute is not set. *)
Record t : Type := mk {
  name : string;
  text : string;
  file_path : option string
}.

Section methods.
Context {W : Type} `{FileSystem W}.

(** [SimpleTextStorage._load_text] *)
Definition _load_text (file_path : string) : M (St W) string :=
  try_except
    (await_call (mkCall file_path "read" []) (read_text file_path))
    (fun e => raise (RuntimeError ("Failed to load text from " ++ path_str file_path
                                   ++ ": " ++ str_exn e))).

(** [SimpleTextStorage(text, file_path, name)]; the base class gets
    [name or "TextStorage"] and keeps [name or self.__class__.__name__]. *)
Definition new (text : option string) (file_path : option string) (name : option string)
    : M (St W) t :=
  let name := str_or (Some (str_or name "TextStorage")) "SimpleTextStorage" in
  match text, file_path with
  | None, None => raise (ValueError "Must provide either 'text' or 'file_path'")
  | Some text, _ => ret (mk name text None)
  | None, Some file_path =>
      text <- _load_text file_path ;;
      ret (mk name text (Some file_path))
  end.

(** [SimpleTextStorage.retrieve] *)
Definition retrieve (self : t) (query : json) (top_k : Z) : M (St W) (list string) :=
  ret [text self].

(** [SimpleTextStorage.retrieve_with_scores] *)
Definition retrieve_with_scores (self : t) (query : json) (top_k : Z)
    : M (St W) (list (string * Q)) :=
  ret [(text self, 1%Q)].

(** [SimpleTextStorage.update_text]: the object after the call. *)
Definition update_text (self : t) (new_text : string) : t :=
  mk (name self) new_text (file_path self).

(** [SimpleTextStorage.reload_from_file]: the object after the call. *)
Definition reload_from_file (self : t) : M (St W) t :=
  match file_path self with
  | None => raise (RuntimeError "No file path set, cannot reload")
  | Some path =>
      text <- _load_text path ;;
      ret (mk (name self) text (file_path self))
  end.
End methods.
End SimpleTextStorage.

(** The answer of the collection to a query, as the vector library types
    it: both fields may be [None]. *)
Record QueryResult : Type := mkQueryResult {
  documents : option (list (list string));
  distances : option (list (list Q))
}.

Class Collection (W : Type) : Type := {
  collection_query : string -> string -> Z -> W -> (exn + QueryResult) * W
}.

Module LocalRAGReference.

Record t : Type := mk {
  name : string;
  collection_name : string;
  default_top_k : Z
}.

(** [results[key][0] if results[key] else []] *)
Definition first_of {A : Type} (field : option (list (list A))) : list A :=
  match field with
  | Some (first :: _) => first
  | _ => []
  end.

Section methods.
Context {W : Type} `{Collection W}.

Definition query_collection (self : t) (query : string) (top_k : Z) : M (St W) QueryResult :=
  await_call (mkCall (collection_name self) "query" [JStr query; JNum (inject_Z top_k)])
             (collection_query (collection_name self) query top_k).

(** [LocalRAGReference.retrieve] *)
Definition retrieve (self : t) (query : string) (top_k : option Z) : M (St W) (list string) :=
  let top_k := match top_k with
               | None => default_top_k self
               | Some top_k => top_k
               end in
  try_except
    (results <- query_collection self query top_k ;;
     ret (first_of (documents results)))
    (fun e => raise (RuntimeError ("RAG retrieval failed: " ++ str_exn e))).

(** [LocalRAGReference.retrieve_with_scores] *)
Definition retrieve_with_scores (self : t) (query : string) (top_k : option Z)
    : M (St W) (list (string * Q)) :=
  let top_k := match top_k with
               | None => default_top_k self
               | Some top_k => top_k
               end in
  try_except
    (results <- query_collection self query top_k ;;
     let documents := first_of (documents results) in
     let distances := first_of (distances results) in
     scores <- of_sum (sqlite_code.similarities_of distances) ;;
     ret (combine documents scores))
    (fun e => raise (RuntimeError ("RAG retrieval failed: " ++ str_exn e))).
End methods.
End LocalRAGReference.

End reference_sources.

(* ================================================================= *)
(** ** Built-in operations on dynamically typed values *)

Module builtins.

Section ops.
Context {S : Type} `{Lib}.

(** [response.get(key, default)]: only a [dict] has the method. *)
Definition get (response : json) (key : string) (default : json) : M S json :=
  match response with
  | JObj kv => ret (dict_get kv key default)
  | _ => raise (AttributeError "object has no attribute 'get'")
  end.

(** [float(x)] *)
Definition float (x : json) : M S Q :=
  match x with
  | JNum q => ret q
  | JBool b => ret (if b then 1 else 0)%Q
  | JStr s =>
      match float_of_str s with
      | Some q => ret q
      | None => raise (ValueError ("could not convert string to float: " ++ s))
      end
  | _ => raise (TypeError "float() argument must be a string or a real number")
  end.
End ops.

(** [str(x)] for an optional string inside an f-string. *)
Definition str_of_option (x : option string) : string :=
  match x with
  | Some s => s
  | None => "None"
  end.

(** An optional string handed to a validator. *)
Definition json_of_option (x : option string) : json :=
  match x with
  | Some s => JStr s
  | None => JNull
  end.

End builtins.

(* ================================================================= *)
(** ** core/jury.py *)

Module jury.

Definition q (s : string) : string := dq ++ s ++ dq.

Definition SYSTEM_PROMPT : string :=
  "You are an expert jury member evaluating claims for truthfulness.
Your role is to carefully analyze the claim and any available evidence, then provide your verdict.

You must respond with a JSON object in this exact format:
{
    " ++ q "decision" ++ ": " ++ q "no_objection" ++ " | " ++ q "suspicious_fact" ++ " | "
    ++ q "reasonable_doubt" ++ " | " ++ q "abstain" ++ ",
    " ++ q "confidence" ++ ": 0.0-1.0,
    " ++ q "reason" ++ ": " ++ q "Your detailed reasoning" ++ "
}

Decision meanings:
- " ++ q "no_objection" ++ ": The claim appears to be true/valid
- " ++ q "suspicious_fact" ++ ": There are some concerns, but not conclusive
- " ++ q "reasonable_doubt" ++ ": The claim appears to be false/invalid
- " ++ q "abstain" ++ ": Unable to make a determination (abstain from voting)".

(** [self._sufficiency_prompt.format(evidence=evidence)] *)
Definition sufficiency_prompt_format (evidence : string) : string :=
  "You are evaluating whether the evidence is sufficient to make a determination.

Evidence collected so far:
" ++ evidence ++ "

Question: Is this evidence sufficient to make a confident determination about the claim?

You MUST respond with ONLY valid JSON in this exact format (no extra text, no quotes around the JSON):
{
    " ++ q "sufficient" ++ ": true,
    " ++ q "new_query" ++ ": " ++ q EmptyString ++ "
}

Or:
{
    " ++ q "sufficient" ++ ": false,
    " ++ q "new_query" ++ ": " ++ q "suggested search query here" ++ "
}
".

Module Jury.
Record t : Type := mk {
  name : string;
  reference : option Reference;
  jury_prompt : option string;
  search_cycle_mode : bool;
  search_cycle_max : Z;
  _llm : LLMProvider;
  _system_prompt : string
}.
End Jury.
Import Jury.

Section methods.
Context {W : Type} `{Sys W} `{BaseLLMProvider W} `{BaseReference W} `{Lib}.

(** [Jury.__init__] *)
Definition __init__ (name : string) (model : list (string * json))
    (reference : option Reference) (jury_prompt : option string)
    (search_cycle_mode : bool) (search_cycle_max : Z) : exn + Jury.t :=
  match create_llm_provider model with
  | inl e => inl e
  | inr llm =>
      inr (Jury.mk name reference jury_prompt search_cycle_mode search_cycle_max
                   llm SYSTEM_PROMPT)
  end.

(** The body of the final [try] block, which both voting modes share:
    ask the Reasoner, read the three fields, build the vote. *)
Definition decide (self : Jury.t) (claim : Claim.t) (user_prompt : string)
    (reference_summary : option string) (search_cycles : Z) : M (St W) JuryVote.t :=
  response <- generate_json (_llm self) user_prompt (_system_prompt self) ;;
  decision <- builtins.get response "decision" (JStr "reasonable_doubt") ;;
  confidence <- builtins.get response "confidence" (JNum (1 # 2)) ;;
  confidence <- builtins.float confidence ;;
  reason <- builtins.get response "reason" (JStr "No reason provided") ;;
  JuryVote.new (name self) (Claim.claim_id claim) decision confidence reason
               reference_summary search_cycles.

(** The final [try]/[except] of both voting modes: the decision request
    and, should anything in it raise, the abstaining vote built from the
    exception. [error_prefix] is the text each mode puts before
    [str(e)]. *)
Definition decide_or_abstain (self : Jury.t) (claim : Claim.t) (user_prompt : string)
    (reference_summary : option string) (search_cycles : Z) (error_prefix : string)
    : M (St W) JuryVote.t :=
  try_except
    (decide self claim user_prompt reference_summary search_cycles)
    (fun e =>
       JuryVote.new (name self) (Claim.claim_id claim) (JStr "abstain") 0
                    (JStr (error_prefix ++ str_exn e)) None search_cycles).

Definition _vote_simple (self : Jury.t) (claim : Claim.t) : M (St W) JuryVote.t :=
  evidence_text <-
    match reference self with
    | Some ref =>
        try_except
          (evidence <- await_retrieve ref (JStr (Claim.text claim)) 3 ;;
           match evidence with
           | [] => ret ""
           | _ => ret (nl ++ nl ++ "Available Evidence:" ++ nl
                       ++ join (nl ++ "---" ++ nl) evidence)
           end)
          (fun _ => ret "")
    | None => ret ""
    end ;;
  let user_prompt :=
    "Claim to evaluate:" ++ nl ++ Claim.text claim ++ nl ++ evidence_text ++ nl ++ nl
    ++ str_or (jury_prompt self) "Please evaluate this claim carefully." ++ nl ++ nl
    ++ "Remember to respond with JSON containing: decision, confidence, and reason." in
  decide_or_abstain self claim user_prompt
    (if String.eqb evidence_text "" then None else Some (slice_to 200 evidence_text))
    1 "Error during evaluation: ".

(** [is_sufficient] as the loop computes it from the Reasoner's answer. *)
Definition sufficiency (sufficiency_response : json) : json :=
  match sufficiency_response with
  | JObj kv =>
      match dict_get kv "sufficient" (JBool false) with
      | JStr s => JBool (str_in (lower s) ["true"; "yes"; "sufficient"])
      | v => v
      end
  | JStr s => JBool (str_in (lower s) ["true"; "yes"; "sufficient"])
  | _ => JBool false
  end.

(** The STEEL loop. [remaining] counts the iterations that the test
    [search_cycle < self.search_cycle_max] still allows; the result is
    the final [search_cycle] and [collected_evidence]. [None] from a
    step is [break]. *)
Fixpoint steel_loop (self : Jury.t) (remaining : nat) (search_cycle : Z) (query : json)
    (collected_evidence : list string) : M (St W) (Z * list string) :=
  match remaining with
  | O => ret (search_cycle, collected_evidence)
  | S remaining =>
      let search_cycle := (search_cycle + 1)%Z in
      searched <-
        try_except
          (evidence <- match reference self with
                       | Some ref => await_retrieve ref query 3
                       | None => raise (AttributeError
                                          "'NoneType' object has no attribute 'retrieve'")
                       end ;;
           ret (Some (collected_evidence ++ evidence)%list))
          (fun _ => ret None) ;;
      match searched with
      | None => ret (search_cycle, collected_evidence)
      | Some collected_evidence =>
          let evidence_summary := join (nl ++ "---" ++ nl) collected_evidence in
          let sufficiency_prompt := sufficiency_prompt_format evidence_summary in
          next <-
            try_except
              (sufficiency_response <-
                 generate_json (_llm self) sufficiency_prompt
                   "You are evaluating evidence sufficiency. Respond with valid JSON only." ;;
               if truthy (sufficiency sufficiency_response) then ret None
               else
                 match sufficiency_response with
                 | JObj kv =>
                     let new_query := dict_get kv "new_query" JNull in
                     if truthy new_query then ret (Some new_query) else ret None
                 | _ => ret None
                 end)
              (fun _ => ret None) ;;
          match next with
          | None => ret (search_cycle, collected_evidence)
          | Some query => steel_loop self remaining search_cycle query collected_evidence
          end
      end
  end.

Definition _vote_with_steel (self : Jury.t) (claim : Claim.t) : M (St W) JuryVote.t :=
  looped <- steel_loop self (Z.to_nat (search_cycle_max self)) 0
                       (JStr (Claim.text claim)) [] ;;
  let search_cycle := fst looped in
  let collected_evidence := snd looped in
  let evidence_text :=
    nl ++ nl ++ "Collected Evidence (from " ++ str_of_Z search_cycle
    ++ " search cycles):" ++ nl ++ join (nl ++ "---" ++ nl) collected_evidence in
  let user_prompt :=
    "Claim to evaluate:" ++ nl ++ Claim.text claim ++ nl ++ evidence_text ++ nl ++ nl
    ++ str_or (jury_prompt self)
              "Please evaluate this claim based on the collected evidence." ++ nl ++ nl
    ++ "Remember to respond with JSON containing: decision, confidence, and reason." in
  decide_or_abstain self claim user_prompt
    (Some ("Evidence from " ++ str_of_Z search_cycle ++ " search cycles"))
    search_cycle "Error during STEEL evaluation: ".

(** [Jury.vote] *)
Definition vote (self : Jury.t) (claim : Claim.t) : M (St W) JuryVote.t :=
  if search_cycle_mode self && match reference self with Some _ => true | None => false end
  then _vote_with_steel self claim
  else _vote_simple self claim.
End methods.

End jury.

Export jury.

(* ================================================================= *)
(** ** core/judge.py *)

Module judge.

Definition JUDGE_SYSTEM_PROMPT : string :=
  "You are a judge synthesizing jury opinions and historical precedents to explain a verdict.

Your task is to:
1. Summarize the jury votes
2. Consider any historical precedents
3. Provide clear reasoning for the verdict

You must respond with a JSON object:
{
    " ++ jury.q "reasoning" ++ ": " ++ jury.q "Detailed explanation of the verdict" ++ "
}".

(** The rules used when none are configured. *)
Definition DEFAULT_VERDICT_RULES : list (string * json) :=
  [ ("supported", JObj [("operator", JStr "eq"); ("value", JNum 0)]);
    ("suspicious", JObj [("operator", JStr "lt"); ("value", JNum (1 # 2))]);
    ("refuted", JStr "default") ].

Module Judge.
Record t : Type := mk {
  _llm : LLMProvider;
  judge_prompt : option string;
  verdict_rules : list (string * json);
  _system_prompt : string
}.
End Judge.
Import Judge.

(** [int(x)] for a float: truncation toward zero. *)
Definition int_of_float (x : Q) : Z := Z.quot (Qnum x) (Zpos (Qden x)).

Section methods.
Context {W : Type} `{Sys W} `{BaseLLMProvider W} `{Lib}.

(** [Judge.__init__]; an empty or absent rule dict selects the defaults. *)
Definition __init__ (model : list (string * json))
    (verdict_rules : option (list (string * json))) (judge_prompt : option string)
    : exn + Judge.t :=
  match create_llm_provider model with
  | inl e => inl e
  | inr llm =>
      inr (Judge.mk llm judge_prompt
             (match verdict_rules with
              | Some (r :: rules) => r :: rules
              | _ => DEFAULT_VERDICT_RULES
              end)
             JUDGE_SYSTEM_PROMPT)
  end.

Definition _generate_fallback_reasoning (total_votes : Z) (objection_ratio : Q)
    (verdict : string) : string :=
  let objection_count := int_of_float (inject_Z total_votes * objection_ratio) in
  if String.eqb verdict "supported" then
    "Based on unanimous agreement from " ++ str_of_Z total_votes ++ " jury members "
    ++ "with no objections raised, this claim is SUPPORTED."
  else if String.eqb verdict "suspicious" then
    "Based on " ++ str_of_Z objection_count ++ " objection(s) out of "
    ++ str_of_Z total_votes ++ " jury members "
    ++ "(" ++ format_pct1 objection_ratio
    ++ "), this claim is considered SUSPICIOUS and requires further investigation."
  else
    "Based on " ++ str_of_Z objection_count ++ " objection(s) out of "
    ++ str_of_Z total_votes ++ " jury members "
    ++ "(" ++ format_pct1 objection_ratio ++ "), this claim is REFUTED.".

(** The value returned is whatever the Reasoner put under the key
    [reasoning] when that is truthy. *)
Definition _generate_reasoning (self : Judge.t) (claim : Claim.t)
    (jury_votes : list JuryVote.t) (precedents : option (list Precedent.t))
    (verdict : string) (objection_ratio : Q) : M (St W) json :=
  let votes_summary :=
    map (fun vote =>
           "- " ++ JuryVote.jury_name vote ++ ": "
           ++ Decision_str (JuryVote.decision vote)
           ++ " (confidence: " ++ format_2f (JuryVote.confidence vote) ++ ")" ++ nl
           ++ "  Reason: " ++ slice_to 150 (JuryVote.reason vote) ++ "...")
        jury_votes in
  let votes_text := join nl votes_summary in
  let precedents_text :=
    match precedents with
    | Some (p :: ps) =>
        let prec_summary :=
          map (fun prec =>
                 "- Similar claim (similarity: "
                 ++ format_2f (Precedent.similarity_score prec) ++ "): "
                 ++ slice_to 100 (Precedent.claim prec) ++ "..." ++ nl
                 ++ "  Previous verdict: " ++ Precedent.verdict prec)
              (firstn 3 (p :: ps)) in
        nl ++ nl ++ "Historical Precedents:" ++ nl ++ join nl prec_summary
    | _ => ""
    end in
  let user_prompt :=
    "Claim under consideration:" ++ nl ++ Claim.text claim ++ nl ++ nl
    ++ "Jury Votes (" ++ str_of_Z (len jury_votes) ++ " total, "
    ++ format_pct1 objection_ratio ++ " objections):" ++ nl
    ++ votes_text ++ nl ++ precedents_text ++ nl ++ nl
    ++ "Final Verdict: " ++ upper verdict ++ nl ++ nl
    ++ str_or (judge_prompt self)
              "Please provide a clear, comprehensive explanation for this verdict."
    ++ nl ++ nl ++ "Respond with JSON containing the reasoning." in
  try_except
    (response <- generate_json (_llm self) user_prompt (_system_prompt self) ;;
     reasoning <- builtins.get response "reasoning" (JStr "") ;;
     if negb (truthy reasoning)
     then ret (JStr (_generate_fallback_reasoning (len jury_votes) objection_ratio verdict))
     else ret reasoning)
    (fun _ =>
       ret (JStr (_generate_fallback_reasoning (len jury_votes) objection_ratio verdict))).

(** [Judge.verdict] *)
Definition verdict (self : Judge.t) (claim : Claim.t) (jury_votes : list JuryVote.t)
    (precedents : option (list Precedent.t)) : M (St W) ClaimResult.t :=
  let objection_count := len (filter JuryVote.is_objection jury_votes) in
  let objection_ratio :=
    match jury_votes with
    | [] => 0%Q
    | _ => (inject_Z objection_count / inject_Z (len jury_votes))%Q
    end in
  verdict_decision <- of_sum (calculate_verdict objection_ratio (verdict_rules self)) ;;
  reasoning <- _generate_reasoning self claim jury_votes precedents verdict_decision
                                   objection_ratio ;;
  ClaimResult.new claim jury_votes (JStr verdict_decision) reasoning
                  objection_count objection_ratio.
End methods.

End judge.

Export judge.

(* ================================================================= *)
(** ** core/prosecutor.py *)

Module prosecutor.

Definition DEFAULT_SYSTEM_PROMPT : string :=
  "You are a prosecutor analyzing a case. Your job is to:
1. Break down the case into individual, verifiable claims
2. Each claim should be independent and testable
3. Return ONLY a JSON array of claims, with no other text

Example format:
[" ++ jury.q "Claim 1" ++ ", " ++ jury.q "Claim 2" ++ ", " ++ jury.q "Claim 3" ++ "]

Important: Return ONLY the JSON array, nothing else.".

Module Prosecutor.
Record t : Type := mk {
  court_code : CourtCode;
  auto_claim_splitting : bool;
  prosecutor_prompt : option string;
  _llm : option LLMProvider;
  _default_system_prompt : string
}.
End Prosecutor.
Import Prosecutor.

(** The local variables of [process] that the loop updates. *)
Record process_locals : Type := mkProcessLocals {
  claims : list Claim.t;
  cache_hits : Z;
  precedents_found : Z
}.

(** [[c.strip() for c in claims if c.strip()]] when every element is a
    string; [None] when one is not. *)
Fixpoint stripped_strings (claims : list json) : option (list string) :=
  match claims with
  | [] => Some []
  | JStr c :: rest =>
      match stripped_strings rest with
      | Some l => Some (if String.eqb (strip c) "" then l else strip c :: l)
      | None => None
      end
  | _ :: _ => None
  end.

Section methods.
Context {W : Type} `{Sys W} `{BaseLLMProvider W} `{BaseCourtCode W} `{Lib}.

(** [Prosecutor.__init__]; an empty [model] dict is falsy. *)
Definition __init__ (court_code : CourtCode) (auto_claim_splitting : bool)
    (model : option (list (string * json))) (prosecutor_prompt : option string)
    : exn + Prosecutor.t :=
  if auto_claim_splitting then
    match model with
    | Some (kv :: model) =>
        match create_llm_provider (kv :: model) with
        | inl e => inl e
        | inr llm =>
            inr (Prosecutor.mk court_code auto_claim_splitting prosecutor_prompt
                               (Some llm) DEFAULT_SYSTEM_PROMPT)
        end
    | _ => inl (ValueError "model configuration required when auto_claim_splitting is True")
    end
  else inr (Prosecutor.mk court_code auto_claim_splitting prosecutor_prompt
                          None DEFAULT_SYSTEM_PROMPT).

Definition _split_into_claims (self : Prosecutor.t) (case_text : string)
    : M (St W) (list string) :=
  match _llm self with
  | None => ret [case_text]
  | Some llm =>
      let user_prompt := str_or (prosecutor_prompt self) (_default_system_prompt self) in
      let full_prompt := user_prompt ++ nl ++ nl ++ "Case to analyze:" ++ nl ++ case_text in
      try_except
        (response <- await_generate llm full_prompt
                       "You are a legal prosecutor analyzing cases." ;;
         parsed <-
           match json_loads response with
           | Some claims => ret (Some claims)
           | None =>
               match re_search_array response with
               | Some json_match =>
                   match json_loads json_match with
                   | Some claims => ret (Some claims)
                   | None => raise (ValueError "JSONDecodeError")
                   end
               | None => ret None
               end
           end ;;
         match parsed with
         | None => ret [case_text]
         | Some (JArr claims) =>
             match stripped_strings claims with
             | Some l => ret l
             | None => ret [case_text]
             end
         | Some _ => ret [case_text]
         end)
        (fun _ => ret [case_text])
  end.

(** [[p for p in similar_precedents if p.is_valid()]] *)
Fixpoint valid_only (similar_precedents : list Precedent.t) : M (St W) (list Precedent.t) :=
  match similar_precedents with
  | [] => ret []
  | p :: rest =>
      ok <- Precedent.is_valid p None ;;
      l <- valid_only rest ;;
      ret (if ok then p :: l else l)
  end.

(** The body of the loop over [claim_texts]. *)
Definition process_claim_text (self : Prosecutor.t) (claim_text : string)
    : M (process_locals * St W) unit :=
  exact_match <- zoom (await_search_exact (court_code self) claim_text) ;;
  use_cache <- match exact_match with
               | Some entry => zoom (CourtCodeEntry.is_valid entry None)
               | None => ret false
               end ;;
  claim <-
    match exact_match, use_cache with
    | Some exact_match, true =>
        claim <- zoom (Claim.new claim_text cache
                         (Some (CourtCodeEntry.entry_id exact_match))
                         (Some (CourtCodeEntry.verdict exact_match)) []) ;;
        modify_local (fun l => mkProcessLocals (claims l) (cache_hits l + 1)
                                               (precedents_found l)) ;;
        ret claim
    | _, _ =>
        similar_precedents <-
          zoom (await_search_similar (court_code self) claim_text 5 (7 # 10)) ;;
        valid_precedents <- zoom (valid_only similar_precedents) ;;
        match valid_precedents with
        | _ :: _ =>
            claim <- zoom (Claim.new claim_text precedent None None valid_precedents) ;;
            modify_local (fun l => mkProcessLocals (claims l) (cache_hits l)
                            (precedents_found l + len valid_precedents)) ;;
            ret claim
        | [] => zoom (Claim.new claim_text new None None [])
        end
    end ;;
  modify_local (fun l => mkProcessLocals (claims l ++ [claim])%list (cache_hits l)
                                         (precedents_found l)).

Fixpoint process_loop (self : Prosecutor.t) (claim_texts : list string)
    : M (process_locals * St W) unit :=
  match claim_texts with
  | [] => ret tt
  | claim_text :: rest =>
      process_claim_text self claim_text ;;
      process_loop self rest
  end.

(** [Prosecutor.process] *)
Definition process (self : Prosecutor.t) (case_text : string)
    : M (St W) ProsecutorReport.t :=
  claim_texts <- (if auto_claim_splitting self
                  then _split_into_claims self case_text
                  else ret [case_text]) ;;
  done <- with_locals (mkProcessLocals [] 0 0) (process_loop self claim_texts) ;;
  let l := snd done in
  ProsecutorReport.new "" case_text (claims l) (cache_hits l) (precedents_found l).
End methods.

End prosecutor.

Export prosecutor.

(* ================================================================= *)
(** ** core/court.py *)

Module court.

(** What the Court needs of a jury object: a [name] and a [vote]
    coroutine. [Jury] is the class the package provides; the Court guards
    each call, so any object with these two members can sit. *)
Class Juror (W J : Type) : Type := {
  juror_name : J -> string;
  juror_vote : J -> Claim.t -> M (St W) JuryVote.t
}.

#[export] Instance Jury_Juror {W : Type} `{Sys W} `{BaseLLMProvider W} `{BaseReference W}
    `{Lib} : Juror W Jury.t :=
  {| juror_name := Jury.name; juror_vote := jury.vote |}.

Module Court.
Record t (J : Type) : Type := mk {
  prosecutor : Prosecutor.t;
  juries : list J;
  judge : Judge.t;
  verdict_rules : option (list (string * json));
  quorum : Z;
  concurrency_limit : Z
}.
Arguments mk {J}.
Arguments prosecutor {J}.
Arguments juries {J}.
Arguments judge {J}.
Arguments verdict_rules {J}.
Arguments quorum {J}.
Arguments concurrency_limit {J}.
End Court.
Import Court.

(** The local variables of [hear] that the loop over the claims updates. *)
Record hear_locals : Type := mkHearLocals {
  claim_results : list ClaimResult.t;
  mistrial_occurred : bool;
  partial_failure : bool;
  error_message : option string
}.

(** Their values before the first claim. *)
Definition initial_locals : hear_locals := mkHearLocals [] false false None.

(** How an iteration of the loop ends. *)
Inductive control : Type := Next | Break.

(** [Court.__init__] *)
Definition __init__ {J : Type} (prosecutor : Prosecutor.t) (juries : list J)
    (judge : Judge.t) (verdict_rules : option (list (string * json)))
    (quorum concurrency_limit : Z) : exn + Court.t J :=
  if (len juries <? quorum)%Z
  then inl (ValueError ("Number of juries (" ++ str_of_Z (len juries)
                        ++ ") must be >= quorum (" ++ str_of_Z quorum ++ ")"))
  else inr (Court.mk prosecutor juries judge verdict_rules quorum concurrency_limit).

Definition is_abstain (v : JuryVote.t) : bool :=
  String.eqb (Decision_str (JuryVote.decision v)) "abstain".

(** [[v for v in votes if v is not None and v.decision != "abstain"]] *)
Fixpoint successful (votes : list (option JuryVote.t)) : list JuryVote.t :=
  match votes with
  | [] => []
  | Some v :: rest => if negb (is_abstain v) then v :: successful rest else successful rest
  | None :: rest => successful rest
  end.

(** [sum(1 for v in votes if v is not None and v.decision == "abstain")] *)
Fixpoint abstentions (votes : list (option JuryVote.t)) : Z :=
  match votes with
  | [] => 0
  | Some v :: rest => if is_abstain v then 1 + abstentions rest else abstentions rest
  | None :: rest => abstentions rest
  end%Z.

Section methods.
Context {W : Type} `{Sys W} `{BaseLLMProvider W} `{BaseReference W} `{BaseCourtCode W}
        `{Lib}.
Context {J : Type} `{Juror W J}.

(** The closure [get_vote] of [_conduct_jury_trial]. *)
Definition get_vote (claim : Claim.t) (jury : J) : M (St W) (option JuryVote.t) :=
  try_except
    (v <- juror_vote jury claim ;; ret (Some v))
    (fun _ => ret None).

Definition _conduct_jury_trial (self : Court.t J) (claim : Claim.t)
    : M (St W) (option ClaimResult.t) :=
  let vote_tasks := map (get_vote claim) (juries self) in
  votes <- run_with_concurrency_limit vote_tasks (concurrency_limit self) ;;
  let successful_votes := successful votes in
  let abstention_count := abstentions votes in
  if (len successful_votes <? quorum self)%Z then ret None
  else
    result <- judge.verdict (judge self) claim successful_votes
                (if Source_eqb (Claim.source claim) precedent
                 then Some (Claim.precedents claim) else None) ;;
    ret (Some result).

Definition _record_verdict (self : Court.t J) (claim_result : ClaimResult.t)
    (case_id domain : string) : M (St W) unit :=
  try_except
    (entry <- CourtCodeEntry.new
                (Claim.text (ClaimResult.claim claim_result))
                (ClaimResult.verdict claim_result)
                (ClaimResult.judge_reasoning claim_result)
                domain case_id
                (len (ClaimResult.jury_votes claim_result))
                (ClaimResult.objection_count claim_result)
                (ClaimResult.objection_ratio claim_result) ;;
     await_add_entry (Prosecutor.court_code (prosecutor self)) entry ;;
     ret tt)
    (fun _ => ret tt).

Definition append_result (r : ClaimResult.t) : M (hear_locals * St W) unit :=
  modify_local (fun l => mkHearLocals (claim_results l ++ [r])%list (mistrial_occurred l)
                                      (partial_failure l) (error_message l)).

(** The [try] block of one iteration of
    [for claim in prosecutor_report.claims]. *)
Definition hear_claim_try (self : Court.t J) (case_id domain : string) (claim : Claim.t)
    : M (hear_locals * St W) control :=
  if Source_eqb (Claim.source claim) cache then
    cached_result <-
      zoom (ClaimResult.new claim []
              (builtins.json_of_option (Claim.cached_verdict claim))
              (JStr ("This claim was previously decided. Using cached verdict from precedent "
                     ++ builtins.str_of_option (Claim.cache_id claim) ++ "."))
              0 0) ;;
    append_result cached_result ;;
    ret Next
  else
    claim_result <- zoom (_conduct_jury_trial self claim) ;;
    match claim_result with
    | None =>
        modify_local (fun l =>
          mkHearLocals (claim_results l) true (partial_failure l)
            (Some ("Failed to meet quorum for claim: "
                   ++ slice_to 50 (Claim.text claim) ++ "..."))) ;;
        ret Break
    | Some claim_result =>
        append_result claim_result ;;
        zoom (_record_verdict self claim_result case_id domain) ;;
        ret Next
    end.

(** One iteration: the [try] block and its [except Exception]. *)
Definition hear_claim (self : Court.t J) (case_id domain : string) (claim : Claim.t)
    : M (hear_locals * St W) control :=
  try_except
    (hear_claim_try self case_id domain claim)
    (fun _ =>
       modify_local (fun l => mkHearLocals (claim_results l) (mistrial_occurred l) true
                                           (error_message l)) ;;
       ret Next).

Fixpoint hear_loop (self : Court.t J) (case_id domain : string) (claims : list Claim.t)
    : M (hear_locals * St W) unit :=
  match claims with
  | [] => ret tt
  | claim :: rest =>
      c <- hear_claim self case_id domain claim ;;
      match c with
      | Break => ret tt
      | Next => hear_loop self case_id domain rest
      end
  end.

(** The status computed in step 4 of [hear]. *)
Definition report_status (l : hear_locals) : Status :=
  if mistrial_occurred l then mistrial
  else if partial_failure l then partial
  else completed.

(** [Court.hear] *)
Definition hear (self : Court.t J) (case_text domain : string) : M (St W) CaseReport.t :=
  prosecutor_report <- prosecutor.process (prosecutor self) case_text ;;
  case_id <- generate_id ;;
  let prosecutor_report := ProsecutorReport.set_case_id prosecutor_report case_id in
  done <- with_locals initial_locals
            (hear_loop self case_id domain (ProsecutorReport.claims prosecutor_report)) ;;
  let l := snd done in
  CaseReport.new case_id case_text domain (report_status l) (claim_results l)
                 (error_message l).
End methods.

End court.

Export court.

(* ================================================================= *)
(** ** A scripted world for concrete runs

    The world is a tick counter: the clock shows the tick, identifiers are
    numbered by it, and every call advances it. A provider answers by its
    model name, a court code by its database path. *)

Module scenario.

Definition World : Type := nat.

#[export] Instance tick_Sys : Sys World :=
  {| sys_now := fun w => (Z.of_nat w, S w);
     sys_uuid4 := fun w => ("id-" ++ str_of_Z (Z.of_nat w), S w) |}.

Definition vote_json (decision : string) : json :=
  JObj [("decision", JStr decision); ("confidence", JNum (9 # 10));
        ("reason", JStr "as instructed")].

(** The only texts the scripted [json.loads] can parse. *)
#[export] Instance table_Lib : Lib :=
  {| json_loads := fun s =>
       if String.eqb s "NO_OBJECTION" then Some (vote_json "no_objection")
       else if String.eqb s "SUSPICIOUS_FACT" then Some (vote_json "suspicious_fact")
       else if String.eqb s "REASONABLE_DOUBT" then Some (vote_json "reasonable_doubt")
       else if String.eqb s "ABSTAIN" then Some (vote_json "abstain")
       else if String.eqb s "{}" then Some (JObj [])
       else if String.eqb s "REASONING" then Some (JObj [("reasoning", JStr "Because.")])
       else if String.eqb s "REASONING_NUMBER" then Some (JObj [("reasoning", JNum 5)])
       else if String.eqb s "TWO_CLAIMS"
            then Some (JArr [JStr "The Earth orbits the Sun."; JStr "Water is wet."])
       else if String.eqb s "FOUR_CLAIMS"
            then Some (JArr [JStr "The Earth orbits the Sun."; JStr "Pigs fly.";
                             JStr "Water is wet."; JStr "Fire is hot."])
       else None;
     re_search_fenced := fun _ => None;
     re_search_object_or_array := fun _ => None;
     re_search_array := fun _ => None;
     float_of_str := fun _ => None;
     format_2f := fun _ => "0.00";
     format_pct1 := fun _ => "0.0%" |}.

Definition model_name_of (p : LLMProvider) : string :=
  match assoc "model_name" (provider_params p) with
  | Some (JStr m) => m
  | _ => ""
  end.

(** A provider whose model is named [down] times out; the one named
    [braces] answers with an empty JSON object; any other answers with its
    model name in capitals. *)
#[export] Instance scripted_LLM : BaseLLMProvider World :=
  {| generate := fun p _ _ w =>
       if String.eqb (model_name_of p) "down"
       then (inl (mkExn "TimeoutError" "request timed out"), S w)
       else if String.eqb (model_name_of p) "braces" then (inr "{}", S w)
       else (inr (upper (model_name_of p)), S w);
     provider_init_error := fun _ _ => None |}.

#[export] Instance empty_Reference : BaseReference World :=
  {| retrieve := fun _ _ _ w => (inr [], S w) |}.

Definition known_entry : CourtCodeEntry.t :=
  CourtCodeEntry.mk "entry-1" "The Earth orbits the Sun." "supported"
    "Settled in an earlier case." "general" "case-0" 0%Z None (Some 1000%Z) 3%Z 0%Z 0%Q [].

(** The court code at path [locked] cannot be read; any other holds
    [known_entry] and nothing else. *)
#[export] Instance scripted_CourtCode : BaseCourtCode World :=
  {| search_exact := fun db claim w =>
       if String.eqb (db_path db) "locked"
       then (inl (mkExn "OperationalError" "database is locked"), S w)
       else if String.eqb claim (CourtCodeEntry.claim known_entry)
            then (inr (Some known_entry), S w)
            else (inr None, S w);
     search_similar := fun _ _ _ _ w => (inr [], S w);
     add_entry := fun _ entry w => (inr (CourtCodeEntry.entry_id entry), S w) |}.

(** The same entry as a precedent of a similarity search. *)
Definition known_precedent : Precedent.t :=
  Precedent.mk "entry-1" "The Earth orbits the Sun." "supported"
    "Settled in an earlier case." (9 # 10) 0%Z None (Some 1000%Z).

Definition s0 : St World := mkSt 0%nat [].

Definition provider (model_name : string) : LLMProvider :=
  mkLLMProvider "OpenAIProvider" [("model_name", JStr model_name)].

Definition juror (name model_name : string) : Jury.t :=
  Jury.mk name None None false 3 (provider model_name) jury.SYSTEM_PROMPT.

Definition the_judge : Judge.t :=
  Judge.mk (provider "reasoning") None judge.DEFAULT_VERDICT_RULES
           judge.JUDGE_SYSTEM_PROMPT.

Definition the_prosecutor (path : string) : Prosecutor.t :=
  Prosecutor.mk (mkCourtCode path) false None None prosecutor.DEFAULT_SYSTEM_PROMPT.

Definition panel : list Jury.t :=
  [ juror "j1" "no_objection"; juror "j2" "no_objection";
    juror "j3" "suspicious_fact"; juror "j4" "down" ].

Definition the_court : Court.t Jury.t :=
  Court.mk (the_prosecutor "store") panel the_judge None 3 4.

Definition a_claim (text : string) : Claim.t :=
  Claim.mk "claim-1" text new None None [] [].

(** Jury objects of another class: one that votes as told, and one whose
    [vote] raises. *)
Inductive Stub : Type :=
| Votes (name : string) (decision : Decision)
| Broken (name : string)
| Selective (name : string) (text : string).

(** A [Selective] juror has no objection to the one claim it knows and
    is unavailable for any other. *)
#[export] Instance Stub_Juror : Juror World Stub :=
  {| juror_name := fun j =>
       match j with Votes n _ => n | Broken n => n | Selective n _ => n end;
     juror_vote := fun j claim =>
       match j with
       | Votes n d =>
           JuryVote.new n (Claim.claim_id claim) (JStr (Decision_str d)) 1
                        (JStr "as told") None 1
       | Broken n => raise (RuntimeError "juror unavailable")
       | Selective n text =>
           if String.eqb (Claim.text claim) text
           then JuryVote.new n (Claim.claim_id claim) (JStr "no_objection") 1
                             (JStr "known to me") None 1
           else raise (RuntimeError "juror unavailable")
       end |}.

(** A judge whose Reasoner puts a number under [reasoning]. *)
Definition odd_judge : Judge.t :=
  Judge.mk (provider "reasoning_number") None judge.DEFAULT_VERDICT_RULES
           judge.JUDGE_SYSTEM_PROMPT.

(** A prosecutor that splits every case into the same four claims. *)
Definition splitting_prosecutor : Prosecutor.t :=
  Prosecutor.mk (mkCourtCode "store") true None (Some (provider "four_claims"))
                prosecutor.DEFAULT_SYSTEM_PROMPT.

(** A court whose three jurors only know the second claim. *)
Definition split_court : Court.t Stub :=
  Court.mk splitting_prosecutor
           [Selective "a" "Pigs fly."; Selective "b" "Pigs fly."; Selective "c" "Pigs fly."]
           odd_judge None 3 4.

(** The court of the end-to-end scenario: every case splits into a claim
    with a stored precedent and a novel one; quorum 3, four jurors. *)
Definition scenario_court : Court.t Jury.t :=
  Court.mk (Prosecutor.mk (mkCourtCode "store") true None (Some (provider "two_claims"))
                          prosecutor.DEFAULT_SYSTEM_PROMPT)
           panel the_judge None 3 4.

(** The same court with a precedent store that cannot be read, and with a
    concurrency limit of zero. *)
Definition locked_court : Court.t Jury.t :=
  Court.mk (the_prosecutor "locked") panel the_judge None 3 4.

Definition stalled_court : Court.t Jury.t :=
  Court.mk (the_prosecutor "store") panel the_judge None 3 0.

(** Rules with a misspelt operator, and a model configuration. *)
Definition misspelt_rules : list (string * json) :=
  [ ("supported", JObj [("operator", JStr "equals"); ("value", JNum 0)]);
    ("refuted", JStr "default") ].

Definition openai_model : list (string * json) :=
  [("provider", JStr "openai"); ("model_name", JStr "reasoning")].

(** The provider [create_llm_provider] builds from it: the defaults for
    temperature and timeout are filled in. *)
Definition openai_provider : LLMProvider :=
  mkLLMProvider "OpenAIProvider"
    [("model_name", JStr "reasoning"); ("temperature", JNum (7 # 10));
     ("timeout", JNum 60)].

(** The stages of the trial of [split_court] on a case: preprocessing,
    the loop over the first two claims, the votes on the third. *)
Definition no_report : ProsecutorReport.t :=
  ProsecutorReport.mk "" "" [] false None 0 0 0%Z.

Definition split_report : ProsecutorReport.t :=
  match fst (prosecutor.process splitting_prosecutor "A case." s0) with
  | Ret r => r
  | _ => no_report
  end.

Definition split_sa : St World :=
  snd (prosecutor.process splitting_prosecutor "A case." s0).

Definition split_case_id : string := fst (sys_uuid4 (world split_sa)).

Definition split_sb : St World :=
  mkSt (snd (sys_uuid4 (world split_sa))) (calls split_sa).

Definition split_pre : list Claim.t := firstn 2 (ProsecutorReport.claims split_report).

Definition split_claim : Claim.t :=
  nth 2 (ProsecutorReport.claims split_report) (a_claim "").

Definition split_post : list Claim.t := skipn 3 (ProsecutorReport.claims split_report).

Definition split_before : hear_locals * St World :=
  snd (hear_loop split_court split_case_id "general" split_pre (initial_locals, split_sb)).

Definition split_votes : list (option JuryVote.t) :=
  match fst (run_with_concurrency_limit
               (map (get_vote split_claim) (Court.juries split_court)) 4
               (snd split_before)) with
  | Ret votes => votes
  | _ => []
  end.

Definition split_s2 : St World :=
  snd (run_with_concurrency_limit
         (map (get_vote split_claim) (Court.juries split_court)) 4 (snd split_before)).

Definition stub_court (juries : list Stub) (quorum : Z) : Court.t Stub :=
  Court.mk (the_prosecutor "store") juries the_judge None quorum 4.

(** A vote on [a_claim], as a juror of the panel would cast it. *)
Definition a_vote (name : string) (decision : Decision) : JuryVote.t :=
  JuryVote.mk name "claim-1" decision (9 # 10) "as instructed" None 1 0%Z.

End scenario.

(* ================================================================= *)
(** * Properties *)

(** ** How computations end *)

(** [total m]: from every state, [m] returns a value. *)
Definition total {S A : Type} (m : M S A) : Prop :=
  forall s, exists a s', m s = (Ret a, s').

(** [answers m]: from every state, [m] returns or raises. *)
Definition answers {S A : Type} (m : M S A) : Prop :=
  forall s, fst (m s) <> Hang.

Section outcomes.
Context {S : Type}.

Lemma total_answers {A : Type} (m : M S A) : total m -> answers m.
Proof.
  intros Hm s. destruct (Hm s) as (a & s' & E). rewrite E. discriminate.
Qed.

Lemma run_bind_ret {A B : Type} (m : M S A) (k : A -> M S B) s a s' :
  m s = (Ret a, s') -> bind m k s = k a s'.
Proof. intros E. unfold bind. now rewrite E. Qed.

Lemma run_bind_raise {A B : Type} (m : M S A) (k : A -> M S B) s e s' :
  m s = (Raise e, s') -> bind m k s = (Raise e, s').
Proof. intros E. unfold bind. now rewrite E. Qed.

Lemma run_bind_hang {A B : Type} (m : M S A) (k : A -> M S B) s s' :
  m s = (Hang, s') -> bind m k s = (Hang, s').
Proof. intros E. unfold bind. now rewrite E. Qed.

Lemma run_try_ret {A : Type} (m : M S A) h s a s' :
  m s = (Ret a, s') -> try_except m h s = (Ret a, s').
Proof. intros E. unfold try_except. now rewrite E. Qed.

Lemma run_try_raise {A : Type} (m : M S A) h s e s' :
  m s = (Raise e, s') -> try_except m h s = h e s'.
Proof. intros E. unfold try_except. now rewrite E. Qed.

Lemma answers_ret {A : Type} (a : A) : answers (ret a : M S A).
Proof. intros s. discriminate. Qed.

Lemma answers_raise {A : Type} e : answers (raise e : M S A).
Proof. intros s. discriminate. Qed.

Lemma answers_of_sum {A : Type} (r : exn + A) : answers (of_sum r : M S A).
Proof. destruct r; intros s; discriminate. Qed.

Lemma answers_bind {A B : Type} (m : M S A) (k : A -> M S B) :
  answers m -> (forall a, answers (k a)) -> answers (bind m k).
Proof.
  intros Hm Hk s. unfold bind. specialize (Hm s).
  destruct (m s) as [[a | e |] s']; simpl in *; try easy. apply Hk.
Qed.

Lemma answers_try_except {A : Type} (m : M S A) h :
  answers m -> (forall e, answers (h e)) -> answers (try_except m h).
Proof.
  intros Hm Hh s. unfold try_except. specialize (Hm s).
  destruct (m s) as [[a | e |] s']; simpl in *; try easy. apply Hh.
Qed.

Lemma total_ret {A : Type} (a : A) : total (ret a : M S A).
Proof. intros s. now exists a, s. Qed.

Lemma total_bind {A B : Type} (m : M S A) (k : A -> M S B) :
  total m -> (forall a, total (k a)) -> total (bind m k).
Proof.
  intros Hm Hk s. destruct (Hm s) as (a & s' & E).
  rewrite (run_bind_ret _ _ _ _ _ E). apply Hk.
Qed.

(** A [try] whose handlers all return cannot raise. *)
Lemma total_try_except {A : Type} (m : M S A) h :
  answers m -> (forall e, total (h e)) -> total (try_except m h).
Proof.
  intros Hm Hh s. unfold try_except. specialize (Hm s).
  destruct (m s) as [[a | e |] s']; simpl in *; try easy.
  - now exists a, s'.
  - apply Hh.
Qed.

Lemma answers_zoom {L A : Type} (m : M S A) : answers m -> answers (zoom m : M (L * S) A).
Proof.
  intros Hm [l s]. unfold zoom. simpl. specialize (Hm s).
  destruct (m s) as [r s']. exact Hm.
Qed.

Lemma total_zoom {L A : Type} (m : M S A) : total m -> total (zoom m : M (L * S) A).
Proof.
  intros Hm [l s]. unfold zoom. simpl. destruct (Hm s) as (a & s' & E).
  rewrite E. now exists a, (l, s').
Qed.

Lemma total_modify_local {L : Type} (f : L -> L) : total (modify_local f : M (L * S) unit).
Proof. intros ls. now exists tt, (f (fst ls), snd ls). Qed.

Lemma total_with_locals {L A : Type} (l : L) (m : M (L * S) A) :
  total m -> total (with_locals l m).
Proof.
  intros Hm s. unfold with_locals. destruct (Hm (l, s)) as (a & ls & E).
  rewrite E. now exists (a, fst ls), (snd ls).
Qed.

Lemma answers_with_locals {L A : Type} (l : L) (m : M (L * S) A) :
  answers m -> answers (with_locals l m).
Proof.
  intros Hm s. unfold with_locals. specialize (Hm (l, s)).
  destruct (m (l, s)) as [[a | e |] ls]; simpl in *; easy.
Qed.
End outcomes.

Section world_calls.
Context {W : Type} `{Sys W}.

Lemma total_datetime_now : total (datetime_now : M (St W) datetime).
Proof.
  intros s. unfold datetime_now. destruct (sys_now (world s)) as [t w]. eauto.
Qed.

Lemma total_uuid4 : total (uuid4 : M (St W) string).
Proof.
  intros s. unfold uuid4. destruct (sys_uuid4 (world s)) as [t w]. eauto.
Qed.

Lemma answers_await_call {A : Type} c (f : W -> (exn + A) * W) : answers (await_call c f).
Proof.
  intros s. unfold await_call. destruct (f (world s)) as [[e | a] w]; discriminate.
Qed.

(** The clock and the identifier source make no collaborator call. *)
Lemma datetime_now_calls s t s' :
  datetime_now s = (Ret t, s') -> calls s' = calls s.
Proof.
  unfold datetime_now. destruct (sys_now (world s)) as [t0 w].
  intros E. injection E as _ <-. reflexivity.
Qed.

Lemma run_datetime_now s :
  datetime_now s = (Ret (fst (sys_now (world s))), mkSt (snd (sys_now (world s))) (calls s)).
Proof. unfold datetime_now. now destruct (sys_now (world s)). Qed.

Lemma run_uuid4 s :
  uuid4 s = (Ret (fst (sys_uuid4 (world s))), mkSt (snd (sys_uuid4 (world s))) (calls s)).
Proof. unfold uuid4. now destruct (sys_uuid4 (world s)). Qed.
End world_calls.

Create HintDb outcomes.

#[local] Hint Resolve answers_ret answers_raise answers_of_sum total_ret
  total_datetime_now total_uuid4 total_modify_local : outcomes.

(** Structural steps for goals [answers m] and [total m]. *)
Ltac outcome_step :=
  lazymatch goal with
  | |- answers (bind _ _) => apply answers_bind; [ | intro ]
  | |- answers (try_except _ _) => apply answers_try_except; [ | intro ]
  | |- answers (zoom _) => apply answers_zoom
  | |- answers (with_locals _ _) => apply answers_with_locals
  | |- answers (await_call _ _) => apply answers_await_call
  | |- answers (match ?x with _ => _ end) => destruct x
  | |- total (bind _ _) => apply total_bind; [ | intro ]
  | |- total (try_except _ _) => apply total_try_except; [ | intro ]
  | |- total (zoom _) => apply total_zoom
  | |- total (with_locals _ _) => apply total_with_locals
  | |- total (match ?x with _ => _ end) => destruct x
  | |- answers _ => first [ solve [ auto with outcomes ]
                          | apply total_answers; solve [ auto with outcomes ] ]
  | |- total _ => solve [ auto with outcomes ]
  end.

Ltac outcomes := repeat outcome_step.

(* ================================================================= *)
(** ** Validity windows (models.py) *)

Section validity.
Context {W : Type} `{Sys W}.

(** The window test of the specification. *)
Definition in_window (valid_from valid_until : option datetime) (t : datetime) : Prop :=
  (match valid_from with Some vf => (vf <= t)%Z | None => True end) /\
  (match valid_until with Some vu => (t <= vu)%Z | None => True end).

Lemma Precedent_is_valid_at (self : Precedent.t) (t : datetime) (s : St W) :
  exists b, Precedent.is_valid self (Some t) s = (Ret b, s) /\
            (b = true <-> in_window (Precedent.valid_from self)
                                    (Precedent.valid_until self) t).
Proof.
  unfold Precedent.is_valid, in_window, bind, ret.
  destruct (Precedent.valid_from self) as [vf |],
           (Precedent.valid_until self) as [vu |];
    repeat match goal with
           | |- context [(?a <? ?b)%Z] => destruct (Z.ltb_spec a b)
           | |- context [(?a >? ?b)%Z] => rewrite (Z.gtb_ltb a b)
           end;
    eexists; (split; [ reflexivity | ]); split; intros; try easy; try lia.
Qed.

Lemma CourtCodeEntry_is_valid_at (self : CourtCodeEntry.t) (t : datetime) (s : St W) :
  exists b, CourtCodeEntry.is_valid self (Some t) s = (Ret b, s) /\
            (b = true <-> in_window (CourtCodeEntry.valid_from self)
                                    (CourtCodeEntry.valid_until self) t).
Proof.
  unfold CourtCodeEntry.is_valid, in_window, bind, ret.
  destruct (CourtCodeEntry.valid_from self) as [vf |],
           (CourtCodeEntry.valid_until self) as [vu |];
    repeat match goal with
           | |- context [(?a <? ?b)%Z] => destruct (Z.ltb_spec a b)
           | |- context [(?a >? ?b)%Z] => rewrite (Z.gtb_ltb a b)
           end;
    eexists; (split; [ reflexivity | ]); split; intros; try easy; try lia.
Qed.

(** C9. [is_valid(t)] is true exactly when [t] lies in the validity
    window: ([valid_from] is unset or [valid_from <= t]) and
    ([valid_until] is unset or [t <= valid_until]). This holds for
    [Precedent.is_valid] and for [CourtCodeEntry.is_valid], and the call
    changes nothing. In particular an entry whose window ends at [T] is
    valid at [T] (when the window has begun) and invalid one time unit
    later. *)
Theorem is_valid_iff_in_window (p : Precedent.t) (e : CourtCodeEntry.t)
    (t : datetime) (s : St W) :
  (exists b, Precedent.is_valid p (Some t) s = (Ret b, s) /\
             (b = true <-> in_window (Precedent.valid_from p)
                                     (Precedent.valid_until p) t)) /\
  (exists b, CourtCodeEntry.is_valid e (Some t) s = (Ret b, s) /\
             (b = true <-> in_window (CourtCodeEntry.valid_from e)
                                     (CourtCodeEntry.valid_until e) t)) /\
  (forall T, Precedent.valid_until p = Some T ->
             in_window (Precedent.valid_from p) None T ->
             Precedent.is_valid p (Some T) s = (Ret true, s) /\
             Precedent.is_valid p (Some (T + 1)%Z) s = (Ret false, s)) /\
  (forall T, CourtCodeEntry.valid_until e = Some T ->
             in_window (CourtCodeEntry.valid_from e) None T ->
             CourtCodeEntry.is_valid e (Some T) s = (Ret true, s) /\
             CourtCodeEntry.is_valid e (Some (T + 1)%Z) s = (Ret false, s)).
Proof.
  split; [ apply Precedent_is_valid_at | ].
  split; [ apply CourtCodeEntry_is_valid_at | ].
  split; intros T HT [Hfrom _].
  - destruct (Precedent_is_valid_at p T s) as (b & E & Hb).
    destruct (Precedent_is_valid_at p (T + 1)%Z s) as (b' & E' & Hb').
    unfold datetime in *. rewrite E, E'. unfold in_window in Hb, Hb'. rewrite HT in Hb, Hb'. split.
    + replace b with true; [ reflexivity | ]. symmetry. apply Hb. split; [ exact Hfrom | lia ].
    + destruct b'; [ | reflexivity ]. destruct Hb' as [Hb' _].
      destruct (Hb' eq_refl) as [_ Hle]. lia.
  - destruct (CourtCodeEntry_is_valid_at e T s) as (b & E & Hb).
    destruct (CourtCodeEntry_is_valid_at e (T + 1)%Z s) as (b' & E' & Hb').
    unfold datetime in *. rewrite E, E'. unfold in_window in Hb, Hb'. rewrite HT in Hb, Hb'. split.
    + replace b with true; [ reflexivity | ]. symmetry. apply Hb. split; [ exact Hfrom | lia ].
    + destruct b'; [ | reflexivity ]. destruct Hb' as [Hb' _].
      destruct (Hb' eq_refl) as [_ Hle]. lia.
Qed.
End validity.

Section validity_examples.
Import scenario.

(** The stored entry of the scripted world expires at 1000: it is valid
    at 1000 and no longer at 1001. *)
Lemma is_valid_iff_in_window_witness :
  CourtCodeEntry.valid_until known_entry = Some 1000%Z /\
  in_window (CourtCodeEntry.valid_from known_entry) None 1000%Z /\
  CourtCodeEntry.is_valid known_entry (Some 1000%Z) s0 = (Ret true, s0) /\
  CourtCodeEntry.is_valid known_entry (Some (1000 + 1)%Z) s0 = (Ret false, s0).
Proof.
  assert (in_window (CourtCodeEntry.valid_from known_entry) None 1000%Z) as Hw
      by (split; exact I).
  split; [ reflexivity | ]. split; [ exact Hw | ].
  exact (proj2 (proj2 (proj2 (is_valid_iff_in_window known_precedent known_entry 0%Z s0)))
           1000%Z eq_refl Hw).
Defined.
End validity_examples.

(* ================================================================= *)
(** ** The verdict rules (helpers.py) *)

(** The rule sets of the specification: each verdict name maps to the
    string [default] or to a dict with an [operator] among the five
    comparison names and a numeric [value]. *)
Definition operators : list string := ["eq"; "lt"; "le"; "gt"; "ge"].

Definition well_formed_rule (rule : json) : bool :=
  is_str "default" rule ||
  match rule with
  | JObj kv =>
      match dict_get kv "operator" JNull, dict_get kv "value" JNull with
      | JStr op, JNum _ => str_in op operators
      | _, _ => false
      end
  | _ => false
  end.

Definition well_formed_rules (rules : list (string * json)) : bool :=
  forallb (fun item => well_formed_rule (snd item)) rules.

(** The operator/threshold test of a rule against a ratio, as the
    specification words it; a [default] entry has no test. *)
Definition threshold_test (r : Q) (rule : json) : bool :=
  match rule with
  | JObj kv =>
      match dict_get kv "operator" JNull, dict_get kv "value" JNull with
      | JStr op, JNum v =>
          if String.eqb op "eq" then Qeq_bool r v
          else if String.eqb op "lt" then negb (Qle_bool v r)
          else if String.eqb op "le" then Qle_bool r v
          else if String.eqb op "gt" then negb (Qle_bool r v)
          else if String.eqb op "ge" then Qle_bool v r
          else false
      | _, _ => false
      end
  | _ => false
  end.

(** The first verdict, in rule order, whose test succeeds. *)
Fixpoint first_match (r : Q) (rules : list (string * json)) : option string :=
  match rules with
  | [] => None
  | (verdict, rule) :: rest =>
      if threshold_test r rule then Some verdict else first_match r rest
  end.

(** The last verdict marked [default], if any. *)
Fixpoint marked_default (rules : list (string * json)) : option string :=
  match rules with
  | [] => None
  | (verdict, rule) :: rest =>
      match marked_default rest with
      | Some d => Some d
      | None => if is_str "default" rule then Some verdict else None
      end
  end.

Lemma rule_test_well_formed (r : Q) (kv : list (string * json)) :
  well_formed_rule (JObj kv) = true ->
  rule_test r (dict_get kv "operator" JNull) (dict_get kv "value" JNull)
  = inr (threshold_test r (JObj kv)).
Proof.
  unfold well_formed_rule, threshold_test. simpl.
  destruct (dict_get kv "operator" JNull) as [ | | | op | | ]; try discriminate.
  destruct (dict_get kv "value" JNull) as [ | | v | | | ]; try discriminate.
  unfold operators, str_in, existsb. intros Hop.
  repeat match type of Hop with
         | (String.eqb ?a ?b || _)%bool = true =>
             destruct (String.eqb_spec a b) as [-> | ?]; [ clear Hop | simpl in Hop ]
         end;
    try discriminate; unfold rule_test, float_cmp, float_eq, Qlt_bool; simpl;
    repeat match goal with
           | |- context [if ?b then _ else _] => destruct b
           end; reflexivity.
Qed.

Lemma calculate_verdict_loop_spec (r : Q) (rules : list (string * json)) :
  well_formed_rules rules = true ->
  forall d,
    calculate_verdict_loop r rules d
    = inr (match first_match r rules with
           | Some v => v
           | None => str_or (match marked_default rules with
                             | Some x => Some x
                             | None => d
                             end) "unknown"
           end).
Proof.
  induction rules as [ | [verdict rule] rest IH ]; intros Hwf d; [ reflexivity | ].
  simpl in Hwf. apply andb_true_iff in Hwf as [Hrule Hrest].
  specialize (IH Hrest). simpl.
  destruct (is_str "default" rule) eqn:Hdef.
  - assert (threshold_test r rule = false) as ->.
    { destruct rule; try discriminate; reflexivity. }
    rewrite IH. destruct (first_match r rest); [ reflexivity | ].
    destruct (marked_default rest); reflexivity.
  - unfold well_formed_rule in Hrule. rewrite Hdef in Hrule. simpl in Hrule.
    destruct rule as [ | | | | | kv ]; try discriminate.
    rewrite rule_test_well_formed
      by (unfold well_formed_rule; simpl; exact Hrule).
    destruct (threshold_test r (JObj kv)); [ reflexivity | ].
    rewrite IH. destruct (first_match r rest); [ reflexivity | ].
    destruct (marked_default rest); reflexivity.
Qed.




(* ================================================================= *)
(** ** Inversion of runs *)

Section inversion.
Context {S : Type}.

Lemma bind_ret_inv {A B : Type} (m : M S A) (k : A -> M S B) s b s' :
  bind m k s = (Ret b, s') ->
  exists a s1, m s = (Ret a, s1) /\ k a s1 = (Ret b, s').
Proof.
  unfold bind. destruct (m s) as [[a | e |] s1]; intros E; try discriminate. eauto.
Qed.

Lemma try_ret_inv {A : Type} (m : M S A) h s a s' :
  try_except m h s = (Ret a, s') ->
  m s = (Ret a, s') \/ exists e s1, m s = (Raise e, s1) /\ h e s1 = (Ret a, s').
Proof.
  unfold try_except. destruct (m s) as [[a0 | e |] s1]; intros E; try discriminate; eauto.
Qed.

Lemma zoom_ret_inv {L A : Type} (m : M S A) (l : L) s a ls' :
  zoom m (l, s) = (Ret a, ls') ->
  exists s', m s = (Ret a, s') /\ ls' = (l, s').
Proof.
  unfold zoom. simpl. destruct (m s) as [r s1]. intros E. injection E as -> <-. eauto.
Qed.

Lemma run_zoom {L A : Type} (m : M S A) (l : L) s :
  zoom m (l, s) = (fst (m s), (l, snd (m s))).
Proof. unfold zoom. simpl. now destruct (m s). Qed.

Lemma of_sum_ret_inv {A : Type} (r : exn + A) (s : S) a s' :
  of_sum r s = (Ret a, s') -> r = inr a /\ s' = s.
Proof. destruct r; unfold of_sum, ret, raise; intros E; now inversion E. Qed.
End inversion.

(* ================================================================= *)
(** ** Objection statistics (judge.py, court.py) *)

(** The votes that object, as the specification words it. *)
Definition objecting (votes : list JuryVote.t) : list JuryVote.t :=
  filter (fun v => Decision_eqb (JuryVote.decision v) suspicious_fact
                   || Decision_eqb (JuryVote.decision v) reasonable_doubt) votes.

(** The votes that came back at all, abstaining or not. *)
Fixpoint returned (votes : list (option JuryVote.t)) : Z :=
  match votes with
  | [] => 0
  | Some _ :: rest => 1 + returned rest
  | None :: rest => returned rest
  end%Z.

Lemma filter_is_objection (votes : list JuryVote.t) :
  filter JuryVote.is_objection votes = objecting votes.
Proof.
  unfold objecting. apply filter_ext. intros v.
  unfold JuryVote.is_objection. now destruct (JuryVote.decision v).
Qed.

Lemma is_abstain_iff (v : JuryVote.t) :
  is_abstain v = true <-> JuryVote.decision v = abstain.
Proof. unfold is_abstain. destruct (JuryVote.decision v); simpl; split; easy. Qed.

Lemma successful_no_abstain (votes : list (option JuryVote.t)) :
  Forall (fun v => JuryVote.decision v <> abstain) (successful votes).
Proof.
  induction votes as [ | [v |] rest IH ]; simpl; auto.
  destruct (is_abstain v) eqn:E; simpl; auto.
  constructor; auto. intros D. apply is_abstain_iff in D. congruence.
Qed.

Lemma len_successful (votes : list (option JuryVote.t)) :
  len (successful votes) = (returned votes - abstentions votes)%Z.
Proof.
  unfold len.
  induction votes as [ | [v |] rest IH ]; cbn [successful returned abstentions];
    [ reflexivity | | exact IH ].
  destruct (is_abstain v); cbn [negb length]; rewrite ?Nat2Z.inj_succ; lia.
Qed.

Section statistics.
Context {W : Type} `{Sys W} `{BaseLLMProvider W} `{BaseReference W} `{BaseCourtCode W}
        `{Lib}.
Context {J : Type} `{Juror W J}.

Lemma ClaimResult_new_inv claim jury_votes verdict judge_reasoning objection_count
    objection_ratio (s : St W) r s' :
  ClaimResult.new claim jury_votes verdict judge_reasoning objection_count
                  objection_ratio s = (Ret r, s') ->
  ClaimResult.claim r = claim /\ ClaimResult.jury_votes r = jury_votes /\
  verdict = JStr (ClaimResult.verdict r) /\
  judge_reasoning = JStr (ClaimResult.judge_reasoning r) /\
  ClaimResult.objection_count r = objection_count /\
  ClaimResult.objection_ratio r = objection_ratio /\
  calls s' = calls s.
Proof.
  unfold ClaimResult.new. intros E.
  apply bind_ret_inv in E as (t & s1 & Ht & E).
  apply datetime_now_calls in Ht.
  destruct verdict; try discriminate. destruct judge_reasoning; try discriminate.
  simpl in E. unfold ret in E. injection E as <- <-. simpl. intuition.
Qed.

Lemma judge_verdict_inv (self : Judge.t) claim votes precedents (s : St W) r s' :
  judge.verdict self claim votes precedents s = (Ret r, s') ->
  ClaimResult.claim r = claim /\
  ClaimResult.jury_votes r = votes /\
  ClaimResult.objection_count r = len (objecting votes) /\
  ClaimResult.objection_ratio r
  = match votes with
    | [] => 0%Q
    | _ => (inject_Z (len (objecting votes)) / inject_Z (len votes))%Q
    end /\
  calculate_verdict (ClaimResult.objection_ratio r) (Judge.verdict_rules self)
  = inr (ClaimResult.verdict r).
Proof.
  unfold judge.verdict. rewrite filter_is_objection. intros E.
  apply bind_ret_inv in E as (v & s1 & Hv & E).
  apply of_sum_ret_inv in Hv as [Hv ->].
  apply bind_ret_inv in E as (reasoning & s2 & _ & E).
  apply ClaimResult_new_inv in E as (Hc & Hvotes & Hverdict & _ & Hcount & Hratio & _).
  injection Hverdict as ->. rewrite Hratio. repeat split; assumption.
Qed.

(** C6. Every [ClaimResult] the Judge produces has [objection_count]
    equal to the number of votes whose decision is [suspicious_fact] or
    [reasonable_doubt], and [objection_ratio] equal to that count divided
    by the number of votes it was given (0 for no votes). In a jury trial
    the Court hands the Judge the returned votes less the abstentions, so
    with [n] returned votes of which [k] abstain the ratio is taken over
    [n - k]. *)
Theorem objection_ratio_excludes_abstentions :
  (forall (self : Judge.t) claim votes precedents (s : St W) r s',
      judge.verdict self claim votes precedents s = (Ret r, s') ->
      ClaimResult.objection_count r = len (objecting votes) /\
      ClaimResult.objection_ratio r
      = match votes with
        | [] => 0%Q
        | _ => (inject_Z (len (objecting votes)) / inject_Z (len votes))%Q
        end) /\
  (forall (self : Court.t J) claim (s : St W) r s',
      _conduct_jury_trial self claim s = (Ret (Some r), s') ->
      exists votes s1,
        run_with_concurrency_limit (map (get_vote claim) (Court.juries self))
                                   (Court.concurrency_limit self) s = (Ret votes, s1) /\
        ClaimResult.jury_votes r = successful votes /\
        Forall (fun v => JuryVote.decision v <> abstain) (ClaimResult.jury_votes r) /\
        len (ClaimResult.jury_votes r) = (returned votes - abstentions votes)%Z /\
        ClaimResult.objection_count r = len (objecting (successful votes)) /\
        ClaimResult.objection_ratio r
        = if (returned votes - abstentions votes =? 0)%Z then 0%Q
          else (inject_Z (ClaimResult.objection_count r)
                / inject_Z (returned votes - abstentions votes))%Q).
Proof.
  split.
  - intros self claim votes precedents s r s' E.
    apply judge_verdict_inv in E. tauto.
  - intros self claim s r s' E. unfold _conduct_jury_trial in E.
    apply bind_ret_inv in E as (votes & s1 & Hvotes & E).
    exists votes, s1. split; [ exact Hvotes | ].
    destruct (len (successful votes) <? Court.quorum self)%Z; [ discriminate | ].
    apply bind_ret_inv in E as (result & s2 & Hj & E).
    unfold ret in E. injection E as -> ->.
    apply judge_verdict_inv in Hj as (_ & Hv & Hcount & Hratio & _).
    rewrite Hv, Hcount, Hratio, <- len_successful.
    repeat split; auto using successful_no_abstain.
    unfold len at 3. destruct (successful votes); reflexivity.
Qed.
End statistics.

Section statistics_examples.
Import scenario.

(** The end-to-end scenario: four jurors answer no objection, no
    objection, suspicious fact and (after a timeout) abstain; the ratio
    is 1/3, taken over the three substantive votes. *)
Lemma objection_ratio_excludes_abstentions_witness :
  exists r s',
    _conduct_jury_trial the_court (a_claim "Water is wet.") s0 = (Ret (Some r), s') /\
    len (ClaimResult.jury_votes r) = 3%Z /\
    ClaimResult.objection_count r = 1%Z /\
    ClaimResult.objection_ratio r = (1 # 3)%Q.
Proof.
  destruct (_conduct_jury_trial the_court (a_claim "Water is wet.") s0)
    as [[[r |] | e |] s'] eqn:E; try (vm_compute in E; discriminate).
  exists r, s'. split; [ reflexivity | ].
  destruct (proj2 objection_ratio_excludes_abstentions the_court _ _ _ _ E)
    as (votes & s1 & Hvotes & Hv & _ & Hlen & Hcount & Hratio).
  vm_compute in Hvotes. injection Hvotes as <- <-.
  rewrite Hlen, Hratio, Hcount. repeat split.
Defined.
End statistics_examples.

(* ================================================================= *)
(** ** The Reasoner and the jury (llm/base.py, jury.py) *)

Section reasoner.
Context {W : Type} `{Sys W} `{BaseLLMProvider W} `{BaseReference W} `{Lib}.

Lemma answers_await_generate llm prompt system_prompt :
  answers (await_generate llm prompt system_prompt : M (St W) string).
Proof. apply answers_await_call. Qed.

Lemma answers_generate_json llm prompt system_prompt :
  answers (generate_json llm prompt system_prompt : M (St W) json).
Proof.
  unfold generate_json. apply answers_bind; [ apply answers_await_generate | intro ].
  outcomes.
Qed.

(** A transport failure of [generate] is a failure of [generate_json]. *)
Lemma generate_json_transport_error llm prompt system_prompt (s : St W) e s' :
  await_generate llm prompt (system_prompt ++ json_instruction) s = (Raise e, s') ->
  generate_json llm prompt system_prompt s = (Raise e, s').
Proof. intros E. unfold generate_json. now rewrite (run_bind_raise _ _ _ _ _ E). Qed.

Lemma answers_get {S : Type} response key default :
  answers (builtins.get response key default : M S json).
Proof. unfold builtins.get. outcomes. Qed.

Lemma answers_float {S : Type} x : answers (builtins.float x : M S Q).
Proof. unfold builtins.float. outcomes. Qed.

Lemma answers_JuryVote_new jury_name claim_id decision confidence reason
    reference_summary search_cycles :
  answers (JuryVote.new jury_name claim_id decision confidence reason
                        reference_summary search_cycles : M (St W) JuryVote.t).
Proof. unfold JuryVote.new. outcomes. Qed.

(** The vote built in the [except] branch is always accepted. *)
Lemma run_abstain_vote jury_name claim_id reason search_cycles (s : St W) :
  exists v s',
    JuryVote.new jury_name claim_id (JStr "abstain") 0 (JStr reason) None search_cycles s
    = (Ret v, s') /\
    JuryVote.jury_name v = jury_name /\ JuryVote.claim_id v = claim_id /\
    JuryVote.decision v = abstain /\ JuryVote.confidence v = 0%Q /\
    JuryVote.reason v = reason /\ JuryVote.search_cycles v = search_cycles /\
    calls s' = calls s.
Proof.
  unfold JuryVote.new. rewrite (run_bind_ret _ _ _ _ _ (run_datetime_now s)).
  simpl. unfold ret. eexists. eexists. split; [ reflexivity | ]. simpl. tauto.
Qed.

Lemma answers_decide self claim user_prompt reference_summary search_cycles :
  answers (decide self claim user_prompt reference_summary search_cycles
           : M (St W) JuryVote.t).
Proof.
  unfold decide.
  repeat first [ apply answers_generate_json | apply answers_get | apply answers_float
               | apply answers_JuryVote_new | outcome_step ].
Qed.

Lemma total_decide_or_abstain self claim user_prompt reference_summary search_cycles
    error_prefix :
  total (decide_or_abstain self claim user_prompt reference_summary search_cycles
                           error_prefix : M (St W) JuryVote.t).
Proof.
  unfold decide_or_abstain. apply total_try_except; [ apply answers_decide | ].
  intros e s.
  destruct (run_abstain_vote (Jury.name self) (Claim.claim_id claim)
              (error_prefix ++ str_exn e) search_cycles s) as (v & s' & E & _).
  eauto.
Qed.

(** Whatever makes the decision request raise, the vote is the
    abstention that quotes the exception. *)
Lemma decide_or_abstain_on_failure self claim user_prompt reference_summary
    search_cycles error_prefix (s : St W) e s1 :
  decide self claim user_prompt reference_summary search_cycles s = (Raise e, s1) ->
  exists v s',
    decide_or_abstain self claim user_prompt reference_summary search_cycles
                      error_prefix s = (Ret v, s') /\
    JuryVote.decision v = abstain /\ JuryVote.confidence v = 0%Q /\
    JuryVote.reason v = error_prefix ++ str_exn e.
Proof.
  intros E. unfold decide_or_abstain. rewrite (run_try_raise _ _ _ _ _ E).
  destruct (run_abstain_vote (Jury.name self) (Claim.claim_id claim)
              (error_prefix ++ str_exn e) search_cycles s1)
    as (v & s' & Ev & _ & _ & Hd & Hc & Hr & _).
  exists v, s'. auto.
Qed.

Lemma decide_reasoner_failure self claim user_prompt reference_summary search_cycles
    (s : St W) e s1 :
  generate_json (Jury._llm self) user_prompt (Jury._system_prompt self) s = (Raise e, s1) ->
  decide self claim user_prompt reference_summary search_cycles s = (Raise e, s1).
Proof. intros E. unfold decide. now rewrite (run_bind_raise _ _ _ _ _ E). Qed.

Lemma total_steel_loop self remaining :
  forall search_cycle query collected_evidence,
    total (steel_loop self remaining search_cycle query collected_evidence
           : M (St W) (Z * list string)).
Proof.
  induction remaining as [ | remaining IH ]; intros search_cycle query collected;
    simpl; [ apply total_ret | ].
  apply total_bind.
  - apply total_try_except; [ | intro; apply total_ret ].
    apply answers_bind; [ | intro; apply answers_ret ].
    destruct (Jury.reference self); [ apply answers_await_call | apply answers_raise ].
  - intros [collected' |]; [ | apply total_ret ].
    apply total_bind.
    + apply total_try_except; [ | intro; apply total_ret ].
      apply answers_bind; [ apply answers_generate_json | intro ]. outcomes.
    + intros [query' |]; [ apply IH | apply total_ret ].
Qed.

(** The vote is the outcome of the final guarded decision request, made
    once the evidence has been gathered. *)
Lemma jury_vote_as_guarded_decision (self : Jury.t) (claim : Claim.t) (s : St W) :
  exists user_prompt reference_summary search_cycles error_prefix s1,
    jury.vote self claim s
    = decide_or_abstain self claim user_prompt reference_summary search_cycles
                        error_prefix s1.
Proof.
  unfold jury.vote.
  destruct (Jury.search_cycle_mode self
            && match Jury.reference self with Some _ => true | None => false end).
  - unfold _vote_with_steel.
    destruct (total_steel_loop self (Z.to_nat (Jury.search_cycle_max self)) 0
                (JStr (Claim.text claim)) [] s) as (looped & s1 & E).
    rewrite (run_bind_ret _ _ _ _ _ E). do 5 eexists. reflexivity.
  - unfold _vote_simple.
    match goal with
    | |- context [bind ?m _ s] =>
        assert (total m) as Hev
          by (destruct (Jury.reference self);
              [ apply total_try_except; [ | intro; apply total_ret ];
                apply answers_bind; [ apply answers_await_call | intro; outcomes ]
              | apply total_ret ]);
        destruct (Hev s) as (evidence_text & s1 & E)
    end.
    rewrite (run_bind_ret _ _ _ _ _ E). do 5 eexists. reflexivity.
Qed.

Lemma total_jury_vote (self : Jury.t) (claim : Claim.t) :
  total (jury.vote self claim : M (St W) JuryVote.t).
Proof.
  intros s.
  destruct (jury_vote_as_guarded_decision self claim s) as (p & rs & sc & ep & s1 & ->).
  apply total_decide_or_abstain.
Qed.

(** An answer that is an object without the three keys is read with the
    defaults of the three [get] calls. *)
Lemma decide_or_abstain_on_missing_keys self claim user_prompt reference_summary
    search_cycles error_prefix (s : St W) kv s1 :
  generate_json (Jury._llm self) user_prompt (Jury._system_prompt self) s
  = (Ret (JObj kv), s1) ->
  assoc "decision" kv = None -> assoc "confidence" kv = None -> assoc "reason" kv = None ->
  exists v s',
    decide_or_abstain self claim user_prompt reference_summary search_cycles
                      error_prefix s = (Ret v, s') /\
    JuryVote.decision v = reasonable_doubt /\ JuryVote.confidence v = (1 # 2)%Q /\
    JuryVote.reason v = "No reason provided".
Proof.
  intros E Hd Hc Hr. unfold decide_or_abstain.
  assert (exists v s',
             decide self claim user_prompt reference_summary search_cycles s = (Ret v, s') /\
             JuryVote.decision v = reasonable_doubt /\ JuryVote.confidence v = (1 # 2)%Q /\
             JuryVote.reason v = "No reason provided") as (v & s' & Ev & Hv).
  { unfold decide. rewrite (run_bind_ret _ _ _ _ _ E).
    unfold builtins.get, dict_get. rewrite Hd, Hc, Hr. unfold bind, ret. simpl.
    unfold JuryVote.new. rewrite (run_bind_ret _ _ _ _ _ (run_datetime_now s1)). simpl.
    unfold ret. do 2 eexists. split; [ reflexivity | ]. simpl. auto. }
  exists v, s'. split; [ | exact Hv ]. now apply run_try_ret.
Qed.

End reasoner.

Section reasoner_examples.
Import scenario.

(** A juror whose provider times out abstains, quoting the timeout. *)
Example vote_after_timeout :
  exists v s',
    jury.vote (juror "j4" "down") (a_claim "Water is wet.") s0 = (Ret v, s') /\
    JuryVote.decision v = abstain /\ JuryVote.confidence v = 0%Q /\
    JuryVote.reason v = "Error during evaluation: request timed out".
Proof. do 2 eexists. split; [ cbv; reflexivity | ]. repeat split. Qed.

(** So does one whose provider answers with text that is not JSON. *)
Example vote_after_garbled_output :
  exists v s',
    jury.vote (juror "j4" "garbled") (a_claim "Water is wet.") s0 = (Ret v, s') /\
    JuryVote.decision v = abstain /\ JuryVote.confidence v = 0%Q /\
    JuryVote.reason v
    = "Error during evaluation: Could not parse JSON from response: GARBLED".
Proof. do 2 eexists. split; [ cbv; reflexivity | ]. repeat split. Qed.

End reasoner_examples.

(* ================================================================= *)
(** ** The bounded concurrency runner (helpers.py) *)

Section runner.
Context {S A : Type}.

Lemma bounded_task_free (semaphore : Z) (task : M S A) :
  semaphore <> 0%Z -> bounded_task semaphore task = task.
Proof. unfold bounded_task. now destruct (Z.eqb_spec semaphore 0). Qed.

Lemma map_bounded_task (semaphore : Z) (tasks : list (M S A)) :
  semaphore <> 0%Z -> map (bounded_task semaphore) tasks = tasks.
Proof.
  intros Hs. induction tasks as [ | t ts IH ]; simpl; [ reflexivity | ].
  now rewrite IH, bounded_task_free.
Qed.

Lemma run_Semaphore (value : Z) (s : S) :
  (0 <= value)%Z -> Semaphore value s = (Ret value, s).
Proof. unfold Semaphore. now destruct (Z.ltb_spec value 0); [ lia | ]. Qed.

Lemma total_gather (tasks : list (M S A)) :
  Forall total tasks -> total (gather tasks).
Proof.
  induction 1 as [ | t ts Ht _ IH ]; intros s; simpl; [ now exists [], s | ].
  destruct (Ht s) as (a & s1 & ->). destruct (IH s1) as (l & s2 & ->). eauto.
Qed.

(** Results are positional: the [i]-th result is a result of the [i]-th
    task. *)
Lemma gather_positional (tasks : list (M S A)) :
  forall s results s',
    gather tasks s = (Ret results, s') ->
    Forall2 (fun task r => exists s1 s2, task s1 = (Ret r, s2)) tasks results.
Proof.
  induction tasks as [ | t ts IH ]; intros s results s'; simpl.
  - intros E. injection E as <- _. constructor.
  - destruct (t s) as [[a | e |] s1] eqn:Et.
    + destruct (gather ts s1) as [[l | e |] s2] eqn:Eg; intros E; try discriminate.
      injection E as <- <-. constructor; eauto.
    + discriminate.
    + destruct (gather ts s1) as [[l | e |] s2]; discriminate.
Qed.

(** A task that raises makes the whole batch raise. *)
Lemma gather_raises (pre post : list (M S A)) (task : M S A) :
  (forall s, exists e s', task s = (Raise e, s')) ->
  forall s, exists e s', gather (pre ++ task :: post) s = (Raise e, s').
Proof.
  intros Ht. induction pre as [ | t ts IH ]; intros s; simpl.
  - destruct (Ht s) as (e & s1 & ->). eauto.
  - destruct (t s) as [[a | e |] s1].
    + destruct (IH s1) as (e' & s2 & ->). eauto.
    + eauto.
    + destruct (IH s1) as (e' & s2 & ->). eauto.
Qed.
End runner.

Section runner_votes.
Context {W : Type} `{Sys W} `{BaseLLMProvider W} `{BaseReference W} `{BaseCourtCode W}
        `{Lib}.
Context {J : Type} `{Juror W J}.

Lemma total_get_vote (claim : Claim.t) (jury : J) :
  answers (juror_vote jury claim) -> total (get_vote claim jury).
Proof.
  intros Hj. unfold get_vote. apply total_try_except; [ | intro; apply total_ret ].
  apply answers_bind; [ exact Hj | intro; apply answers_ret ].
Qed.

(** What [get_vote] hands back for a jury: its vote, or [None] when its
    [vote] raised. *)
Lemma get_vote_inv (claim : Claim.t) (jury : J) (s : St W) v s' :
  get_vote claim jury s = (Ret v, s') ->
  match v with
  | Some x => juror_vote jury claim s = (Ret x, s')
  | None => exists e, juror_vote jury claim s = (Raise e, s')
  end.
Proof.
  unfold get_vote, try_except, bind, ret.
  destruct (juror_vote jury claim s) as [[x | e |] s1]; intros E; inversion E; eauto.
Qed.

End runner_votes.

Section runner_examples.
Import scenario.


End runner_examples.

(* ================================================================= *)
(** ** Construction (court.py, judge.py) and unknown operators *)

Section construction.
Context {W : Type} `{BaseLLMProvider W}.

Lemma judge_init_result (model : list (string * json))
    (verdict_rules : option (list (string * json))) (judge_prompt : option string) :
  judge.__init__ model verdict_rules judge_prompt
  = match create_llm_provider model with
    | inl e => inl e
    | inr llm =>
        inr (Judge.mk llm judge_prompt
                      (match verdict_rules with
                       | Some (r :: rules) => r :: rules
                       | _ => judge.DEFAULT_VERDICT_RULES
                       end)
                      judge.JUDGE_SYSTEM_PROMPT)
    end.
Proof. reflexivity. Qed.

(** An operator that is none of the five names. *)
Definition unknown_operator (operator : json) : bool :=
  negb (existsb (fun name => is_str name operator) operators).

Lemma rule_test_unknown_operator (r : Q) (operator value : json) :
  unknown_operator operator = true -> rule_test r operator value = inr false.
Proof.
  unfold unknown_operator, operators, existsb, rule_test. intros Hop.
  apply negb_true_iff in Hop. repeat (apply orb_false_iff in Hop as [? Hop]).
  repeat match goal with
         | E : is_str _ operator = false |- _ => rewrite E; clear E
         end.
  reflexivity.
Qed.

(** C8, as amended. A Court with fewer juries than the quorum cannot be
    constructed: [Court.__init__] raises. The rules are not examined at
    construction: [Judge.__init__] succeeds whenever its model
    configuration yields a provider and keeps the rules as given, and at
    trial time [calculate_verdict] passes over a rule whose operator is
    none of the five names as if the rule were absent. *)
Theorem construction_checks_quorum_only :
  (forall {J : Type} prosecutor (juries : list J) judge verdict_rules
          (quorum concurrency_limit : Z),
      ((len juries < quorum)%Z ->
       exists e, court.__init__ prosecutor juries judge verdict_rules quorum
                                concurrency_limit = inl e) /\
      ((quorum <= len juries)%Z ->
       court.__init__ prosecutor juries judge verdict_rules quorum concurrency_limit
       = inr (Court.mk prosecutor juries judge verdict_rules quorum concurrency_limit))) /\
  (forall model rule rules judge_prompt llm,
      create_llm_provider model = inr llm ->
      judge.__init__ model (Some (rule :: rules)) judge_prompt
      = inr (Judge.mk llm judge_prompt (rule :: rules) judge.JUDGE_SYSTEM_PROMPT)) /\
  (forall (r : Q) verdict kv rest default_verdict,
      unknown_operator (dict_get kv "operator" JNull) = true ->
      calculate_verdict_loop r ((verdict, JObj kv) :: rest) default_verdict
      = calculate_verdict_loop r rest default_verdict).
Proof.
  split; [ | split ].
  - intros J prosecutor juries judge verdict_rules quorum concurrency_limit.
    unfold court.__init__.
    destruct (Z.ltb_spec (len juries) quorum); split; intros; try lia; eauto.
  - intros model rule rules judge_prompt llm E.
    rewrite judge_init_result, E. reflexivity.
  - intros r verdict kv rest default_verdict Hop. simpl.
    now rewrite rule_test_unknown_operator.
Qed.
End construction.

Section construction_examples.
Import scenario.

Lemma construction_checks_quorum_only_witness :
  (exists e, court.__init__ (the_prosecutor "store") panel the_judge None 5 4 = inl e) /\
  judge.__init__ openai_model (Some misspelt_rules) None
  = inr (Judge.mk openai_provider None misspelt_rules judge.JUDGE_SYSTEM_PROMPT) /\
  calculate_verdict 0 misspelt_rules = calculate_verdict 0 [("refuted", JStr "default")].
Proof.
  split; [ | split ].
  - apply (proj1 construction_checks_quorum_only). vm_compute. reflexivity.
  - apply (proj1 (proj2 construction_checks_quorum_only)). reflexivity.
  - apply (proj2 (proj2 construction_checks_quorum_only)). reflexivity.
Defined.

(** C8 fails as stated: a Judge is constructed with a rule whose
    operator is unknown, and at trial time a claim nobody objected to is
    given the default verdict. *)
Lemma judge_accepts_unknown_operator :
  exists j,
    judge.__init__ openai_model (Some misspelt_rules) None = inr j /\
    Judge.verdict_rules j = misspelt_rules /\
    calculate_verdict 0 (Judge.verdict_rules j) = inr "refuted".
Proof. eexists. split; [ reflexivity | ]. split; reflexivity. Qed.
End construction_examples.

(* ================================================================= *)
(** ** One claim of a trial (court.py) *)

(** The three updates the loop of [hear] makes to its local variables. *)
Definition add_result (l : hear_locals) (r : ClaimResult.t) : hear_locals :=
  mkHearLocals (claim_results l ++ [r])%list (mistrial_occurred l) (partial_failure l)
               (error_message l).

Definition quorum_message (claim : Claim.t) : string :=
  "Failed to meet quorum for claim: " ++ slice_to 50 (Claim.text claim) ++ "...".

Definition set_mistrial (l : hear_locals) (claim : Claim.t) : hear_locals :=
  mkHearLocals (claim_results l) true (partial_failure l) (Some (quorum_message claim)).

Definition set_partial (l : hear_locals) : hear_locals :=
  mkHearLocals (claim_results l) (mistrial_occurred l) true (error_message l).

Definition cache_reasoning (claim : Claim.t) : string :=
  "This claim was previously decided. Using cached verdict from precedent "
  ++ builtins.str_of_option (Claim.cache_id claim) ++ ".".

Lemma Source_eqb_eq (a b : Source) : Source_eqb a b = true <-> a = b.
Proof. destruct a, b; simpl; split; congruence. Qed.

Section claim_step.
Context {W : Type} `{Sys W} `{BaseLLMProvider W} `{BaseReference W} `{BaseCourtCode W}
        `{Lib}.
Context {J : Type} `{Juror W J}.

Lemma answers_ClaimResult_new claim jury_votes verdict judge_reasoning objection_count
    objection_ratio :
  answers (ClaimResult.new claim jury_votes verdict judge_reasoning objection_count
                           objection_ratio : M (St W) ClaimResult.t).
Proof. unfold ClaimResult.new. outcomes. Qed.

Lemma total_generate_reasoning (self : Judge.t) claim jury_votes precedents verdict
    objection_ratio :
  total (_generate_reasoning self claim jury_votes precedents verdict objection_ratio
         : M (St W) json).
Proof.
  unfold _generate_reasoning. apply total_try_except; [ | intro; apply total_ret ].
  apply answers_bind; [ apply answers_generate_json | intro ].
  apply answers_bind; [ apply answers_get | intro ]. outcomes.
Qed.

Lemma answers_judge_verdict (self : Judge.t) claim jury_votes precedents :
  answers (judge.verdict self claim jury_votes precedents : M (St W) ClaimResult.t).
Proof.
  unfold judge.verdict. apply answers_bind; [ apply answers_of_sum | intro ].
  apply answers_bind; [ apply total_answers, total_generate_reasoning | intro ].
  apply answers_ClaimResult_new.
Qed.

Lemma total_record_verdict (self : Court.t J) claim_result case_id domain :
  total (_record_verdict self claim_result case_id domain : M (St W) unit).
Proof.
  unfold _record_verdict. apply total_try_except; [ | intro; apply total_ret ].
  apply answers_bind.
  - unfold CourtCodeEntry.new, generate_id. outcomes.
  - intro. apply answers_bind; [ apply answers_await_call | intro; apply answers_ret ].
Qed.

Lemma answers_gather {S A : Type} (tasks : list (M S A)) :
  Forall answers tasks -> answers (gather tasks).
Proof.
  induction 1 as [ | t ts Ht _ IH ]; intros s; simpl; [ discriminate | ].
  specialize (Ht s). destruct (t s) as [[a | e |] s1]; simpl in *; try easy.
  specialize (IH s1). destruct (gather ts s1) as [[l | e |] s2]; simpl in *; easy.
Qed.

Lemma answers_run_with_concurrency_limit {S A : Type} (tasks : list (M S A)) (limit : Z) :
  (limit = 0%Z -> tasks = []) -> Forall answers tasks ->
  answers (run_with_concurrency_limit tasks limit).
Proof.
  intros Hl Ht s. unfold run_with_concurrency_limit, bind, Semaphore.
  destruct (Z.ltb_spec limit 0); [ discriminate | ]. unfold ret.
  destruct (Z.eq_dec limit 0) as [E | E].
  - rewrite (Hl E). discriminate.
  - rewrite map_bounded_task by exact E. now apply answers_gather.
Qed.

Lemma answers_conduct_jury_trial (self : Court.t J) (claim : Claim.t) :
  (forall jury, answers (juror_vote jury claim)) ->
  (Court.concurrency_limit self = 0%Z -> Court.juries self = []) ->
  answers (_conduct_jury_trial self claim).
Proof.
  intros Hj Hl. unfold _conduct_jury_trial. apply answers_bind.
  - apply answers_run_with_concurrency_limit.
    + intros E. now rewrite (Hl E).
    + apply Forall_forall. intros t Ht. apply in_map_iff in Ht as (j & <- & _).
      apply total_answers, total_get_vote, Hj.
  - intros votes. destruct (len (successful votes) <? Court.quorum self)%Z;
      [ apply answers_ret | ].
    apply answers_bind; [ apply answers_judge_verdict | intro; apply answers_ret ].
Qed.

(** The jury trial falls short of the quorum exactly when the votes came
    back and fewer than [quorum] of them are substantive. *)
Lemma conduct_jury_trial_none (self : Court.t J) (claim : Claim.t) (s s' : St W) :
  _conduct_jury_trial self claim s = (Ret None, s') <->
  exists votes,
    run_with_concurrency_limit (map (get_vote claim) (Court.juries self))
                               (Court.concurrency_limit self) s = (Ret votes, s') /\
    (len (successful votes) < Court.quorum self)%Z.
Proof.
  unfold _conduct_jury_trial. split.
  - intros E. apply bind_ret_inv in E as (votes & s1 & Hv & E). exists votes.
    destruct (Z.ltb_spec (len (successful votes)) (Court.quorum self)).
    + unfold ret in E. injection E as <-. auto.
    + apply bind_ret_inv in E as (r & s2 & _ & E). discriminate.
  - intros (votes & Hv & Hq). rewrite (run_bind_ret _ _ _ _ _ Hv).
    apply Z.ltb_lt in Hq. now rewrite Hq.
Qed.

(** The [try] block on a claim answered from the cache. *)
Lemma hear_claim_try_cache (self : Court.t J) case_id domain claim l (s : St W) :
  Claim.source claim = cache ->
  hear_claim_try self case_id domain claim (l, s)
  = match ClaimResult.new claim [] (builtins.json_of_option (Claim.cached_verdict claim))
                          (JStr (cache_reasoning claim)) 0 0 s with
    | (Ret r, s1) => (Ret Next, (add_result l r, s1))
    | (Raise e, s1) => (Raise e, (l, s1))
    | (Hang, s1) => (Hang, (l, s1))
    end.
Proof.
  intros Hc. unfold hear_claim_try. rewrite Hc. simpl.
  unfold bind, zoom, append_result, modify_local, ret, cache_reasoning. simpl.
  destruct (ClaimResult.new claim [] _ _ 0 0 s) as [[r | e |] s1]; reflexivity.
Qed.

(** The [try] block on a claim that goes to the jury. *)
Lemma hear_claim_try_trial (self : Court.t J) case_id domain claim l (s : St W) :
  Claim.source claim <> cache ->
  hear_claim_try self case_id domain claim (l, s)
  = match _conduct_jury_trial self claim s with
    | (Ret None, s1) => (Ret Break, (set_mistrial l claim, s1))
    | (Ret (Some r), s1) =>
        (Ret Next, (add_result l r, snd (_record_verdict self r case_id domain s1)))
    | (Raise e, s1) => (Raise e, (l, s1))
    | (Hang, s1) => (Hang, (l, s1))
    end.
Proof.
  intros Hc. unfold hear_claim_try.
  destruct (Source_eqb (Claim.source claim) cache) eqn:E;
    [ now apply Source_eqb_eq in E | ].
  unfold bind, zoom, append_result, modify_local, ret. simpl.
  destruct (_conduct_jury_trial self claim s) as [[[r |] | e |] s1]; try reflexivity.
  simpl. destruct (total_record_verdict self r case_id domain s1) as ([] & s2 & ->).
  reflexivity.
Qed.

(** How an iteration ends, read off the [try] block. *)
Lemma run_hear_claim (self : Court.t J) case_id domain claim ls :
  hear_claim self case_id domain claim ls
  = match hear_claim_try self case_id domain claim ls with
    | (Raise e, ls1) => (Ret Next, (set_partial (fst ls1), snd ls1))
    | r => r
    end.
Proof.
  unfold hear_claim, try_except.
  destruct (hear_claim_try self case_id domain claim ls) as [[c | e |] ls1]; reflexivity.
Qed.

Lemma answers_hear_claim_try (self : Court.t J) case_id domain claim :
  (forall jury, answers (juror_vote jury claim)) ->
  (Court.concurrency_limit self = 0%Z -> Court.juries self = []) ->
  answers (hear_claim_try self case_id domain claim).
Proof.
  intros Hj Hl [l s].
  destruct (Source_eqb (Claim.source claim) cache) eqn:E.
  - apply Source_eqb_eq in E. rewrite hear_claim_try_cache by exact E.
    pose proof (answers_ClaimResult_new claim []
                  (builtins.json_of_option (Claim.cached_verdict claim))
                  (JStr (cache_reasoning claim)) 0 0 s) as Hn.
    destruct (ClaimResult.new claim [] _ _ 0 0 s) as [[r | e |] s1]; simpl in *; easy.
  - rewrite hear_claim_try_trial
      by (intros Hc; apply Source_eqb_eq in Hc; congruence).
    pose proof (answers_conduct_jury_trial self claim Hj Hl s) as Hn.
    destruct (_conduct_jury_trial self claim s) as [[[r |] | e |] s1]; simpl in *; easy.
Qed.

Lemma total_hear_claim (self : Court.t J) case_id domain claim :
  (forall jury, answers (juror_vote jury claim)) ->
  (Court.concurrency_limit self = 0%Z -> Court.juries self = []) ->
  total (hear_claim self case_id domain claim).
Proof.
  intros Hj Hl ls. rewrite run_hear_claim.
  pose proof (answers_hear_claim_try self case_id domain claim Hj Hl ls) as Hn.
  destruct (hear_claim_try self case_id domain claim ls) as [[c | e |] ls1];
    simpl in *; try easy; eauto.
Qed.

Lemma total_hear_loop (self : Court.t J) case_id domain claims :
  (forall jury claim, answers (juror_vote jury claim)) ->
  (Court.concurrency_limit self = 0%Z -> Court.juries self = []) ->
  total (hear_loop self case_id domain claims).
Proof.
  intros Hj Hl. induction claims as [ | claim rest IH ]; simpl; [ apply total_ret | ].
  apply total_bind; [ now apply total_hear_claim | ].
  intros [ | ]; [ exact IH | apply total_ret ].
Qed.
End claim_step.

(* ================================================================= *)
(** ** Preprocessing (prosecutor.py) *)

Section preprocessing.
Context {W : Type} `{Sys W} `{BaseLLMProvider W} `{BaseCourtCode W} `{Lib}.

Lemma total_Claim_new text source cache_id cached_verdict precedents :
  total (Claim.new text source cache_id cached_verdict precedents : M (St W) Claim.t).
Proof. unfold Claim.new, generate_id. outcomes. Qed.

Lemma total_Precedent_is_valid (p : Precedent.t) check_date :
  total (Precedent.is_valid p check_date : M (St W) bool).
Proof. unfold Precedent.is_valid. outcomes. Qed.

Lemma total_CourtCodeEntry_is_valid (e : CourtCodeEntry.t) check_date :
  total (CourtCodeEntry.is_valid e check_date : M (St W) bool).
Proof. unfold CourtCodeEntry.is_valid. outcomes. Qed.

Lemma total_valid_only (similar_precedents : list Precedent.t) :
  total (valid_only similar_precedents : M (St W) (list Precedent.t)).
Proof.
  induction similar_precedents as [ | p rest IH ]; simpl; [ apply total_ret | ].
  apply total_bind; [ apply total_Precedent_is_valid | intro ].
  apply total_bind; [ exact IH | intro; apply total_ret ].
Qed.

(** Claim splitting never raises: every failure falls back to the whole
    case as one claim. *)
Lemma total_split_into_claims (self : Prosecutor.t) case_text :
  total (_split_into_claims self case_text : M (St W) (list string)).
Proof.
  unfold _split_into_claims. destruct (Prosecutor._llm self); [ | apply total_ret ].
  apply total_try_except; [ | intro; apply total_ret ].
  apply answers_bind; [ apply answers_await_call | intro ].
  apply answers_bind; [ | intro ]; outcomes.
Qed.

Lemma answers_process_claim_text (self : Prosecutor.t) claim_text :
  answers (process_claim_text self claim_text).
Proof.
  unfold process_claim_text.
  apply answers_bind; [ apply answers_zoom, answers_await_call | intros exact_match ].
  apply answers_bind.
  { destruct exact_match; [ | apply answers_ret ].
    apply answers_zoom, total_answers, total_CourtCodeEntry_is_valid. }
  intros use_cache. apply answers_bind; [ | intro; apply total_answers, total_modify_local ].
  assert (answers
            (similar_precedents <-
               zoom (await_search_similar (Prosecutor.court_code self) claim_text 5 (7 # 10)) ;;
             valid_precedents <- zoom (valid_only similar_precedents) ;;
             match valid_precedents with
             | _ :: _ =>
                 claim <- zoom (Claim.new claim_text precedent None None valid_precedents) ;;
                 modify_local (fun l : process_locals =>
                   mkProcessLocals (claims l) (cache_hits l)
                                   (precedents_found l + len valid_precedents)) ;;
                 ret claim
             | [] => zoom (Claim.new (W := W) claim_text new None None [])
             end)) as Hsimilar.
  { apply answers_bind; [ apply answers_zoom, answers_await_call | intro ].
    apply answers_bind; [ apply answers_zoom, total_answers, total_valid_only | intro ].
    destruct a0.
    - apply answers_zoom, total_answers, total_Claim_new.
    - apply answers_bind; [ apply answers_zoom, total_answers, total_Claim_new | intro ].
      apply answers_bind; [ apply total_answers, total_modify_local | intro ].
      apply answers_ret. }
  destruct exact_match as [entry |]; [ destruct use_cache | ]; try exact Hsimilar.
  apply answers_bind; [ apply answers_zoom, total_answers, total_Claim_new | intro ].
  apply answers_bind; [ apply total_answers, total_modify_local | intro ].
  apply answers_ret.
Qed.

Lemma answers_process_loop (self : Prosecutor.t) claim_texts :
  answers (process_loop self claim_texts).
Proof.
  induction claim_texts as [ | t rest IH ]; simpl; [ apply answers_ret | ].
  apply answers_bind; [ apply answers_process_claim_text | intro; exact IH ].
Qed.

(** Preprocessing returns or raises; it raises when the precedent store
    does. *)
Lemma answers_process (self : Prosecutor.t) case_text :
  answers (prosecutor.process self case_text).
Proof.
  unfold prosecutor.process. apply answers_bind.
  - destruct (Prosecutor.auto_claim_splitting self);
      [ apply total_answers, total_split_into_claims | apply answers_ret ].
  - intro. apply answers_bind; [ apply answers_with_locals, answers_process_loop | intro ].
    unfold ProsecutorReport.new. outcomes.
Qed.
End preprocessing.

(* ================================================================= *)
(** ** The trial (court.py) *)

(** What happened to a claim: a result was appended, its processing
    raised, or the jury fell short of the quorum. *)
Inductive claim_event : Type :=
| Decided (r : ClaimResult.t)
| Errored (claim : Claim.t) (e : exn)
| QuorumFailed (claim : Claim.t).

Definition is_quorum_failure (ev : claim_event) : bool :=
  match ev with QuorumFailed _ => true | _ => false end.

Definition is_error (ev : claim_event) : bool :=
  match ev with Errored _ _ => true | _ => false end.

(** The results of the claims that were decided, in order. *)
Fixpoint decided (events : list claim_event) : list ClaimResult.t :=
  match events with
  | [] => []
  | Decided r :: rest => r :: decided rest
  | _ :: rest => decided rest
  end.

(** The status the specification assigns to a run: a quorum failure makes
    a mistrial whatever else happened; otherwise an error makes the report
    partial. *)
Definition status_of_events (events : list claim_event) : Status :=
  if existsb is_quorum_failure events then mistrial
  else if existsb is_error events then partial
  else completed.

Section trial.
Context {W : Type} `{Sys W} `{BaseLLMProvider W} `{BaseReference W} `{BaseCourtCode W}
        `{Lib}.
Context {J : Type} `{Juror W J}.

(** The runs of the loop over the claims, claim by claim, with the
    events they produce. A quorum failure ends the run. *)
Inductive trial_run (self : Court.t J) (case_id domain : string)
  : list Claim.t -> hear_locals * St W -> list claim_event -> hear_locals * St W -> Prop :=
| run_end ls : trial_run self case_id domain [] ls [] ls
| run_decided claim rest l s r s1 events ls2 :
    hear_claim_try self case_id domain claim (l, s) = (Ret Next, (add_result l r, s1)) ->
    ClaimResult.claim r = claim ->
    trial_run self case_id domain rest (add_result l r, s1) events ls2 ->
    trial_run self case_id domain (claim :: rest) (l, s) (Decided r :: events) ls2
| run_errored claim rest l s e s1 events ls2 :
    hear_claim_try self case_id domain claim (l, s) = (Raise e, (l, s1)) ->
    trial_run self case_id domain rest (set_partial l, s1) events ls2 ->
    trial_run self case_id domain (claim :: rest) (l, s) (Errored claim e :: events) ls2
| run_quorum_failed claim rest l s s1 :
    Claim.source claim <> cache ->
    _conduct_jury_trial self claim s = (Ret None, s1) ->
    trial_run self case_id domain (claim :: rest) (l, s) [QuorumFailed claim]
              (set_mistrial l claim, s1).

Lemma conduct_jury_trial_claim (self : Court.t J) claim (s : St W) r s' :
  _conduct_jury_trial self claim s = (Ret (Some r), s') -> ClaimResult.claim r = claim.
Proof.
  unfold _conduct_jury_trial. intros E.
  apply bind_ret_inv in E as (votes & s1 & _ & E).
  destruct (len (successful votes) <? Court.quorum self)%Z; [ discriminate | ].
  apply bind_ret_inv in E as (result & s2 & Hj & E).
  unfold ret in E. injection E as -> ->.
  now apply judge_verdict_inv in Hj.
Qed.

(** The ways the [try] block of an iteration can end. *)
Lemma hear_claim_try_inv (self : Court.t J) case_id domain claim l (s : St W) o ls1 :
  hear_claim_try self case_id domain claim (l, s) = (o, ls1) ->
  match o with
  | Ret Next => exists r, ls1 = (add_result l r, snd ls1) /\ ClaimResult.claim r = claim
  | Ret Break =>
      Claim.source claim <> cache /\
      _conduct_jury_trial self claim s = (Ret None, snd ls1) /\
      ls1 = (set_mistrial l claim, snd ls1)
  | Raise _ | Hang => ls1 = (l, snd ls1)
  end.
Proof.
  destruct (Source_eqb (Claim.source claim) cache) eqn:Hsrc.
  - apply Source_eqb_eq in Hsrc. rewrite hear_claim_try_cache by exact Hsrc.
    destruct (ClaimResult.new claim [] _ _ 0 0 s) as [[r | e |] s1] eqn:En;
      intros E; injection E as <- <-; simpl; auto.
    exists r. split; [ reflexivity | ]. now apply ClaimResult_new_inv in En.
  - assert (Claim.source claim <> cache) as Hne
        by (intros Hc; apply Source_eqb_eq in Hc; congruence).
    rewrite hear_claim_try_trial by exact Hne.
    destruct (_conduct_jury_trial self claim s) as [[[r |] | e |] s1] eqn:Ec;
      intros E; injection E as <- <-; simpl; auto.
    exists r. split; [ reflexivity | ]. now apply conduct_jury_trial_claim in Ec.
Qed.

(** An iteration breaks the loop only with the mistrial flag raised. *)
Lemma hear_claim_break (self : Court.t J) case_id domain claim ls ls1 :
  hear_claim self case_id domain claim ls = (Ret Break, ls1) ->
  mistrial_occurred (fst ls1) = true.
Proof.
  rewrite run_hear_claim. destruct ls as [l s].
  destruct (hear_claim_try self case_id domain claim (l, s)) as [[[ | ] | e |] ls0] eqn:E;
    intros E1; try discriminate.
  injection E1 as <-. apply hear_claim_try_inv in E as (_ & _ & ->). reflexivity.
Qed.

(** A prefix of the claims that ends without a mistrial leaves the loop
    ready for the next claim. *)
Lemma hear_loop_prefix (self : Court.t J) case_id domain pre :
  forall ls ls1,
    hear_loop self case_id domain pre ls = (Ret tt, ls1) ->
    mistrial_occurred (fst ls1) = false ->
    forall rest,
      hear_loop self case_id domain (pre ++ rest) ls
      = hear_loop self case_id domain rest ls1.
Proof.
  induction pre as [ | claim pre IH ]; intros ls ls1 E Hm rest; simpl in *.
  - unfold ret in E. now injection E as <-.
  - unfold bind in *.
    destruct (hear_claim self case_id domain claim ls) as [[[ | ] | e |] ls0] eqn:Ec;
      try discriminate.
    + now apply IH.
    + unfold ret in E. injection E as <-.
      apply hear_claim_break in Ec. congruence.
Qed.

Lemma hear_loop_trial_run (self : Court.t J) case_id domain claims :
  forall l s ls',
    hear_loop self case_id domain claims (l, s) = (Ret tt, ls') ->
    exists events, trial_run self case_id domain claims (l, s) events ls'.
Proof.
  induction claims as [ | claim rest IH ]; intros l s ls' E; simpl in E.
  - unfold ret in E. injection E as <-. exists []. constructor.
  - unfold bind in E. rewrite run_hear_claim in E.
    destruct (hear_claim_try self case_id domain claim (l, s))
      as [[[ | ] | e |] [l0 s0]] eqn:Et; try discriminate;
      pose proof (hear_claim_try_inv _ _ _ _ _ _ _ _ Et) as Hinv; simpl in Hinv.
    + destruct Hinv as (r & Hls & Hr). injection Hls as ->.
      destruct (IH _ _ _ E) as (events & Hrun).
      exists (Decided r :: events). now apply run_decided with (s1 := s0).
    + destruct Hinv as (Hsrc & Hc & Hls). injection Hls as ->.
      unfold ret in E. injection E as <-.
      exists [QuorumFailed claim]. now apply run_quorum_failed.
    + injection Hinv as ->. simpl in E.
      destruct (IH _ _ _ E) as (events & Hrun).
      exists (Errored claim e :: events). now apply run_errored with (s1 := s0).
Qed.

(** What a run does to the local variables: results are appended, the
    two flags are raised by the matching events and never lowered. *)
Lemma trial_run_locals (self : Court.t J) case_id domain claims ls events ls' :
  trial_run self case_id domain claims ls events ls' ->
  claim_results (fst ls') = (claim_results (fst ls) ++ decided events)%list /\
  mistrial_occurred (fst ls')
  = (mistrial_occurred (fst ls) || existsb is_quorum_failure events)%bool /\
  partial_failure (fst ls')
  = (partial_failure (fst ls) || existsb is_error events)%bool.
Proof.
  induction 1 as [ ls | claim rest l s r s1 events ls2 _ _ _ IH
                 | claim rest l s e s1 events ls2 _ _ IH
                 | claim rest l s s1 _ _ ]; simpl in *.
  - now rewrite app_nil_r, !orb_false_r.
  - destruct IH as (-> & -> & ->). now rewrite <- app_assoc.
  - destruct IH as (-> & -> & ->). now rewrite orb_true_r.
  - now rewrite app_nil_r, orb_true_r, orb_false_r.
Qed.

Lemma run_CaseReport_new case_id case_text domain status claims error_message (s : St W) :
  CaseReport.new case_id case_text domain status claims error_message s
  = (Ret (CaseReport.mk case_id case_text domain status claims None error_message
                        (fst (sys_now (world s))) []),
     mkSt (snd (sys_now (world s))) (calls s)).
Proof.
  unfold CaseReport.new. now rewrite (run_bind_ret _ _ _ _ _ (run_datetime_now s)).
Qed.

(** [hear] once preprocessing has returned. *)
Lemma run_hear (self : Court.t J) case_text domain (s : St W) report sa :
  prosecutor.process (Court.prosecutor self) case_text s = (Ret report, sa) ->
  hear self case_text domain s
  = let case_id := fst (sys_uuid4 (world sa)) in
    let sb := mkSt (snd (sys_uuid4 (world sa))) (calls sa) in
    match hear_loop self case_id domain (ProsecutorReport.claims report)
                    (initial_locals, sb) with
    | (Ret _, ls) =>
        CaseReport.new case_id case_text domain (report_status (fst ls))
                       (claim_results (fst ls)) (error_message (fst ls)) (snd ls)
    | (Raise e, ls) => (Raise e, snd ls)
    | (Hang, ls) => (Hang, snd ls)
    end.
Proof.
  intros E. unfold hear. rewrite (run_bind_ret _ _ _ _ _ E). unfold generate_id.
  rewrite (run_bind_ret _ _ _ _ _ (run_uuid4 sa)). simpl.
  unfold bind, with_locals, initial_locals.
  destruct (hear_loop self _ domain (ProsecutorReport.claims report) _)
    as [[u | e |] ls]; reflexivity.
Qed.
End trial.

Section trial_properties.
Context {W : Type} `{Sys W} `{BaseLLMProvider W} `{BaseReference W} `{BaseCourtCode W}
        `{Lib}.
Context {J : Type} `{Juror W J}.

Lemma trial_run_decided_claims (self : Court.t J) case_id domain claims ls events ls' :
  trial_run self case_id domain claims ls events ls' ->
  Forall (fun r => In (ClaimResult.claim r) claims) (decided events).
Proof.
  induction 1 as [ ls | claim rest l s r s1 events ls2 _ Hr _ IH
                 | claim rest l s e s1 events ls2 _ _ IH
                 | claim rest l s s1 _ _ ]; simpl; auto.
  - constructor; [ now left | ].
    eapply Forall_impl; [ | exact IH ]. intros r0 Hin. now right.
  - eapply Forall_impl; [ | exact IH ]. intros r0 Hin. now right.
Qed.



(** C10. The status of the report is a function of the two flags, the
    mistrial flag first: [mistrial] if a quorum failure occurred, even if
    an earlier claim raised; otherwise [partial] if a claim raised;
    otherwise [completed]. The flags record exactly those events, and in
    every case, the mistrial included, the report carries the results of
    the claims decided before the trial ended. *)
Theorem report_status_from_flags (self : Court.t J) (case_text domain : string)
    (s : St W) r s' :
  hear self case_text domain s = (Ret r, s') ->
  exists report sa events l sc,
    prosecutor.process (Court.prosecutor self) case_text s = (Ret report, sa) /\
    trial_run self (fst (sys_uuid4 (world sa))) domain (ProsecutorReport.claims report)
              (initial_locals, mkSt (snd (sys_uuid4 (world sa))) (calls sa))
              events (l, sc) /\
    CaseReport.status r
    = (if mistrial_occurred l then mistrial
       else if partial_failure l then partial else completed) /\
    mistrial_occurred l = existsb is_quorum_failure events /\
    partial_failure l = existsb is_error events /\
    CaseReport.status r = status_of_events events /\
    CaseReport.claims r = decided events.
Proof.
  intros E.
  assert (exists report sa,
             prosecutor.process (Court.prosecutor self) case_text s = (Ret report, sa))
    as (report & sa & Hp).
  { unfold hear in E. apply bind_ret_inv in E as (report & sa & Hp & _). eauto. }
  rewrite (run_hear self case_text domain s report sa Hp) in E. simpl in E.
  destruct (hear_loop self (fst (sys_uuid4 (world sa))) domain
              (ProsecutorReport.claims report)
              (initial_locals, mkSt (snd (sys_uuid4 (world sa))) (calls sa)))
    as [[[] | e |] [l sc]] eqn:Hloop; try discriminate.
  apply hear_loop_trial_run in Hloop as (events & Hrun).
  destruct (trial_run_locals _ _ _ _ _ _ _ Hrun) as (Hres & Hmis & Hpar).
  simpl in Hres, Hmis, Hpar, E. rewrite run_CaseReport_new in E. injection E as <- _.
  exists report, sa, events, l, sc. simpl.
  unfold report_status, status_of_events. rewrite Hmis, Hpar, Hres. repeat split; auto.
Qed.

Lemma process_claim_text_cache (self : Prosecutor.t) claim_text pl (s : St W) entry s1 s2 :
  await_search_exact (Prosecutor.court_code self) claim_text s = (Ret (Some entry), s1) ->
  CourtCodeEntry.is_valid entry None s1 = (Ret true, s2) ->
  process_claim_text self claim_text (pl, s)
  = (Ret tt,
     (mkProcessLocals
        (claims pl ++ [Claim.mk (fst (sys_uuid4 (world s2))) claim_text cache
                                (Some (CourtCodeEntry.entry_id entry))
                                (Some (CourtCodeEntry.verdict entry)) [] []])%list
        (cache_hits pl + 1)%Z (precedents_found pl),
      mkSt (snd (sys_uuid4 (world s2))) (calls s2))).
Proof.
  intros Hsearch Hvalid. unfold process_claim_text, bind at 1. rewrite run_zoom, Hsearch.
  simpl. unfold bind at 1. rewrite run_zoom, Hvalid. simpl.
  unfold Claim.new, generate_id, bind, modify_local, ret. rewrite run_zoom.
  unfold bind. rewrite run_uuid4. reflexivity.
Qed.

(** C7. A claim whose text has a currently valid exact match in the
    precedent store is marked [cache] by the Prosecutor, with the stored
    verdict attached; for such a claim the Court appends a result with
    that verdict, no votes, objection count 0 and ratio 0.0, and makes no
    call to any collaborator, a jury evaluator in particular. *)
Theorem cached_claim_short_circuit (self : Court.t J) (claim_text : string)
    (pl : process_locals) (s : St W) entry s1 s2 :
  await_search_exact (Prosecutor.court_code (Court.prosecutor self)) claim_text s
  = (Ret (Some entry), s1) ->
  CourtCodeEntry.is_valid entry None s1 = (Ret true, s2) ->
  exists claim s3,
    process_claim_text (Court.prosecutor self) claim_text (pl, s)
    = (Ret tt, (mkProcessLocals (claims pl ++ [claim])%list (cache_hits pl + 1)%Z
                                (precedents_found pl), s3)) /\
    Claim.text claim = claim_text /\
    Claim.source claim = cache /\
    Claim.cached_verdict claim = Some (CourtCodeEntry.verdict entry) /\
    Claim.cache_id claim = Some (CourtCodeEntry.entry_id entry) /\
    forall case_id domain l s4,
    exists r s5,
      hear_claim self case_id domain claim (l, s4) = (Ret Next, (add_result l r, s5)) /\
      ClaimResult.claim r = claim /\
      ClaimResult.verdict r = CourtCodeEntry.verdict entry /\
      ClaimResult.jury_votes r = [] /\
      ClaimResult.objection_count r = 0%Z /\
      ClaimResult.objection_ratio r = 0%Q /\
      calls s5 = calls s4.
Proof.
  intros Hsearch Hvalid. do 2 eexists.
  split; [ apply (process_claim_text_cache _ _ _ _ _ _ _ Hsearch Hvalid) | ].
  simpl. repeat split.
  intros case_id domain l s4. rewrite run_hear_claim, hear_claim_try_cache by reflexivity.
  simpl. unfold ClaimResult.new.
  rewrite (run_bind_ret _ _ _ _ _ (run_datetime_now s4)). simpl. unfold ret.
  do 2 eexists. split; [ reflexivity | ]. simpl. repeat split.
Qed.
End trial_properties.

Section trial_examples.
Import scenario.



(** The end-to-end scenario of the specification: claim A is answered
    from the cache with no votes; claim B gets the votes no objection, no
    objection, suspicious fact and an abstention, hence ratio 1/3 and the
    verdict [suspicious]; the report is [completed] with two results. *)
Example end_to_end_scenario :
  exists r s',
    hear scenario_court "A case." "fact_check" s0 = (Ret r, s') /\
    CaseReport.status r = completed /\
    map ClaimResult.verdict (CaseReport.claims r) = ["supported"; "suspicious"] /\
    map (fun c => List.length (ClaimResult.jury_votes c)) (CaseReport.claims r)
    = [0%nat; 3%nat] /\
    map ClaimResult.objection_ratio (CaseReport.claims r) = [0%Q; (1 # 3)%Q] /\
    CaseReport.error_message r = None.
Proof.
  destruct (hear scenario_court "A case." "fact_check" s0) as [[r | e |] s'] eqn:E;
    try (vm_compute in E; discriminate).
  exists r, s'. split; [ reflexivity | ].
  vm_compute in E. injection E as <- _. repeat split.
Qed.


(** The same trial read through its events: an error, then a quorum
    failure, make a mistrial that still carries the cached result. *)
Lemma report_status_from_flags_witness :
  exists r s' events,
    hear split_court "A case." "general" s0 = (Ret r, s') /\
    CaseReport.status r = status_of_events events /\
    CaseReport.claims r = decided events /\
    CaseReport.status r = mistrial /\
    List.length (CaseReport.claims r) = 1%nat.
Proof.
  destruct (hear split_court "A case." "general" s0) as [[r | e |] s'] eqn:E;
    try (vm_compute in E; discriminate).
  destruct (report_status_from_flags split_court "A case." "general" s0 r s' E)
    as (report & sa & events & l & sc & _ & _ & _ & _ & _ & Hstatus & Hclaims).
  exists r, s', events. split; [ reflexivity | ]. split; [ exact Hstatus | ].
  split; [ exact Hclaims | ].
  vm_compute in E. injection E as <- _. split; reflexivity.
Defined.

Lemma cached_claim_short_circuit_witness :
  await_search_exact (mkCourtCode "store") "The Earth orbits the Sun." s0
  = (Ret (Some known_entry),
     mkSt 1%nat [mkCall "store" "search_exact" [JStr "The Earth orbits the Sun."]]) /\
  exists claim s3,
    process_claim_text (the_prosecutor "store") "The Earth orbits the Sun."
                       (mkProcessLocals [] 0 0, s0)
    = (Ret tt, (mkProcessLocals [claim] 1 0, s3)) /\
    Claim.source claim = cache /\
    Claim.cached_verdict claim = Some "supported" /\
    exists r s5,
      hear_claim the_court "case-1" "general" claim (initial_locals, s3)
      = (Ret Next, (add_result initial_locals r, s5)) /\
      ClaimResult.verdict r = "supported" /\ ClaimResult.jury_votes r = [] /\
      calls s5 = calls s3.
Proof.
  assert (await_search_exact (Prosecutor.court_code (Court.prosecutor the_court))
            "The Earth orbits the Sun." s0
          = (Ret (Some known_entry),
             mkSt 1%nat [mkCall "store" "search_exact" [JStr "The Earth orbits the Sun."]]))
    as Hsearch by (vm_compute; reflexivity).
  assert (CourtCodeEntry.is_valid known_entry None
            (mkSt 1%nat [mkCall "store" "search_exact" [JStr "The Earth orbits the Sun."]])
          = (Ret true,
             mkSt 2%nat [mkCall "store" "search_exact" [JStr "The Earth orbits the Sun."]]))
    as Hvalid by (vm_compute; reflexivity).
  split; [ exact Hsearch | ].
  destruct (cached_claim_short_circuit the_court "The Earth orbits the Sun."
              (mkProcessLocals [] 0 0) s0 known_entry _ _ Hsearch Hvalid)
    as (claim & s3 & Hp & _ & Hsrc & Hv & _ & Hhear).
  exists claim, s3. split; [ exact Hp | ]. split; [ exact Hsrc | ]. split; [ exact Hv | ].
  destruct (Hhear "case-1" "general" initial_locals s3)
    as (r & s5 & E & _ & Hr & Hvotes & _ & _ & Hcalls).
  exists r, s5. auto.
Defined.
End trial_examples.

(* ================================================================= *)
(** * Further properties of the package *)

(** ** Text truncation (helpers.py) *)

Lemma length_append (a b : string) :
  String.length (a ++ b) = (String.length a + String.length b)%nat.
Proof. induction a as [ | c a IH ]; simpl; [ reflexivity | now rewrite IH ]. Qed.

Lemma length_substring_0 (n : nat) (s : string) :
  String.length (substring 0 n s) = Nat.min n (String.length s).
Proof.
  revert n. induction s as [ | c s IH ]; intros [ | n ]; simpl; try reflexivity.
  now rewrite IH.
Qed.

Lemma str_len_slice_upto (k : Z) (s : string) :
  str_len (slice_upto k s)
  = (if (k <? 0)%Z then Z.max 0 (str_len s + k) else Z.min k (str_len s))%Z.
Proof.
  unfold slice_upto, str_len. destruct (Z.ltb_spec k 0);
    rewrite length_substring_0; lia.
Qed.

(** X1. [truncate_text] returns a text of at most [max_length] characters
    exactly when the text already fits or the suffix does: a text that
    fits is returned unchanged; a longer one is cut to
    [max_length - len(suffix)] characters and the suffix added, which makes
    exactly [max_length] characters when the suffix fits; and when the
    suffix is itself longer than [max_length] the result exceeds the
    limit. *)
Theorem truncate_text_length (text suffix : string) (max_length : Z) :
  ((str_len text <= max_length)%Z -> truncate_text text max_length suffix = text) /\
  ((str_len (truncate_text text max_length suffix) <= max_length)%Z
   <-> (str_len text <= max_length)%Z \/ (str_len suffix <= max_length)%Z) /\
  ((max_length < str_len text)%Z -> (str_len suffix <= max_length)%Z ->
   truncate_text text max_length suffix
   = substring 0 (Z.to_nat (max_length - str_len suffix)) text ++ suffix /\
   str_len (truncate_text text max_length suffix) = max_length) /\
  ((max_length < str_len text)%Z -> (max_length < str_len suffix)%Z ->
   (str_len suffix <= str_len (truncate_text text max_length suffix))%Z).
Proof.
  unfold truncate_text.
  assert (forall a b, str_len (a ++ b) = (str_len a + str_len b)%Z) as Happ
      by (intros; unfold str_len; rewrite length_append; lia).
  destruct (Z.leb_spec (str_len text) max_length) as [Hfit | Hlong].
  - repeat split; intros; auto; lia.
  - rewrite Happ, str_len_slice_upto.
    split; [ intros; lia | ]. split; [ | split ].
    + destruct (Z.ltb_spec (max_length - str_len suffix) 0); unfold str_len in *; split; lia.
    + intros _ Hs. unfold slice_upto.
      destruct (Z.ltb_spec (max_length - str_len suffix) 0); [ lia | ].
      split; [ reflexivity | unfold str_len in *; lia ].
    + intros _ Hs. destruct (Z.ltb_spec (max_length - str_len suffix) 0);
        unfold str_len in *; lia.
Qed.

(** ** Retrying (helpers.py) *)

(** The suspension point of a pause of [d] seconds. *)
Definition sleep_call (d : Q) : call := mkCall "asyncio" "sleep" [JNum d].

(** The calls of [k] attempts at a call [c], numbered from [attempt], with
    the pause the wrapper makes between two attempts. *)
Fixpoint backoff (c : call) (delay : Q) (attempt : Z) (k : nat) : list call :=
  match k with
  | O => []
  | S O => [c]
  | S k' => c :: sleep_call (delay * inject_Z (attempt + 1)) :: backoff c delay (attempt + 1) k'
  end.

Section retry_properties.
Context {W A : Type} `{EventLoop W}.

Lemma run_asyncio_sleep (d : Q) (s : St W) :
  asyncio_sleep d s = (Ret tt, mkSt (loop_sleep d (world s)) (calls s ++ [sleep_call d])).
Proof. reflexivity. Qed.

(** One turn of the loop: a result ends it; an exception is recorded,
    and a pause follows unless this was the last attempt. *)
Lemma retry_loop_step (func : M (St W) A) max_retries delay attempt rest last s :
  retry_loop func max_retries delay (attempt :: rest) last s
  = match func s with
    | (Ret a, s1) => (Ret a, s1)
    | (Raise e, s1) =>
        retry_loop func max_retries delay rest (Some e)
          (if (attempt <? max_retries - 1)%Z
           then mkSt (loop_sleep (delay * inject_Z (attempt + 1)) (world s1))
                     (calls s1 ++ [sleep_call (delay * inject_Z (attempt + 1))])
           else s1)
    | (Hang, s1) => (Hang, s1)
    end.
Proof.
  cbn [retry_loop]. unfold bind at 1, try_except, bind at 1.
  destruct (func s) as [[a | e |] s1]; try reflexivity.
  unfold bind. destruct (attempt <? max_retries - 1)%Z; reflexivity.
Qed.

(** The attempts [i, i+1, ..., i+m-1]. *)
Definition attempts_from (i m : nat) : list Z := map Z.of_nat (seq i m).

Lemma attempts_from_S (i m : nat) :
  attempts_from i (S m) = Z.of_nat i :: attempts_from (S i) m.
Proof. reflexivity. Qed.

Lemma retry_loop_last_attempt (func : M (St W) A) max_retries delay m :
  forall i last s,
    Z.of_nat (i + S m) = max_retries ->
    exists s1,
      retry_loop func max_retries delay (attempts_from i (S m)) last s = func s1.
Proof.
  induction m as [ | m IH ]; intros i last s Hn; rewrite attempts_from_S, retry_loop_step.
  - destruct (func s) as [[a | e |] s1] eqn:E; try (now exists s).
    destruct (Z.ltb_spec (Z.of_nat i) (max_retries - 1)); [ lia | ].
    exists s. now rewrite E.
  - destruct (func s) as [[a | e |] s1] eqn:E; try (now exists s).
    apply (IH (S i)). lia.
Qed.

Lemma retry_loop_schedule (c : call) (f : W -> (exn + A) * W) max_retries delay m :
  forall i last s,
    Z.of_nat (i + S m) = max_retries ->
    exists k,
      (1 <= k <= S m)%nat /\
      calls (snd (retry_loop (await_call c f) max_retries delay (attempts_from i (S m))
                             last s))
      = (calls s ++ backoff c delay (Z.of_nat i) k)%list /\
      (forall e, fst (retry_loop (await_call c f) max_retries delay
                                 (attempts_from i (S m)) last s) = Raise e -> k = S m).
Proof.
  assert (forall s o s1, await_call c f s = (o, s1) ->
                         calls s1 = (calls s ++ [c])%list /\ o <> Hang) as Hc.
  { intros s o s1. unfold await_call. destruct (f (world s)) as [[e | a] w];
      intros E; inversion E; (split; [ reflexivity | discriminate ]). }
  induction m as [ | m IH ]; intros i last s Hn;
    rewrite attempts_from_S, retry_loop_step; destruct (await_call c f s) as [[a | e |] s1] eqn:E;
    apply Hc in E as [E Hng]; try (now contradiction Hng).
  - exists 1%nat. simpl. rewrite E. repeat split; auto.
  - exists 1%nat. destruct (Z.ltb_spec (Z.of_nat i) (max_retries - 1)); [ lia | ].
    simpl. rewrite E. repeat split; auto.
  - exists 1%nat. simpl. rewrite E. repeat split; auto; try lia. discriminate.
  - destruct (Z.ltb_spec (Z.of_nat i) (max_retries - 1)); [ | lia ].
    match goal with
    | |- context [retry_loop _ _ _ _ _ ?s2] =>
        destruct (IH (S i) (Some e) s2 ltac:(lia)) as (k & Hk & Hcalls & Hlast)
    end.
    exists (S k). split; [ lia | ]. split.
    + rewrite Nat2Z.inj_succ, <- Z.add_1_r in Hcalls.
      destruct k as [ | k ]; [ lia | ].
      rewrite Hcalls. cbn [calls]. rewrite E, <- !app_assoc. reflexivity.
    + intros e0 He. f_equal. eapply Hlast. exact He.
Qed.

End retry_properties.

(** ** The verdict summary of a report (models.py) *)

(** The number of results of a list that carry the verdict [v]. *)
Definition count_verdict (v : string) (results : list ClaimResult.t) : Z :=
  len (filter (fun r => String.eqb (ClaimResult.verdict r) v) results).

(** The sum of the counts of a summary. *)
Definition sum_counts (summary : list (string * Z)) : Z :=
  fold_right Z.add 0%Z (map snd summary).

Lemma assoc_dict_set_same {A : Type} (k : string) (v : A) d :
  assoc k (dict_set k v d) = Some v.
Proof.
  induction d as [ | [k' v'] d IH ]; simpl; [ now rewrite String.eqb_refl | ].
  destruct (String.eqb k k') eqn:E; simpl; rewrite E; [ reflexivity | exact IH ].
Qed.

Lemma assoc_dict_set_other {A : Type} (k k0 : string) (v : A) d :
  k0 <> k -> assoc k0 (dict_set k v d) = assoc k0 d.
Proof.
  intros Hne. induction d as [ | [k' v'] d IH ]; simpl.
  - now destruct (String.eqb_spec k0 k).
  - destruct (String.eqb_spec k k') as [-> | Hk]; simpl.
    + now destruct (String.eqb_spec k0 k').
    + now rewrite IH.
Qed.

Lemma assoc_None_not_In {A : Type} (k : string) (d : list (string * A)) :
  assoc k d = None <-> ~ In k (map fst d).
Proof.
  induction d as [ | [k' v'] d IH ]; simpl; [ tauto | ].
  destruct (String.eqb_spec k k') as [-> | Hk]; split; intros; try easy.
  - tauto.
  - intros [-> | Hin]; [ easy | ]. now apply IH.
  - apply IH. tauto.
Qed.

Lemma keys_dict_set {A : Type} (k : string) (v : A) d :
  map fst (dict_set k v d)
  = match assoc k d with
    | Some _ => map fst d
    | None => (map fst d ++ [k])%list
    end.
Proof.
  induction d as [ | [k' v'] d IH ]; simpl; [ reflexivity | ].
  destruct (String.eqb k k'); simpl; [ reflexivity | ].
  rewrite IH. now destruct (assoc k d).
Qed.

Lemma NoDup_dict_set {A : Type} (k : string) (v : A) d :
  NoDup (map fst d) -> NoDup (map fst (dict_set k v d)).
Proof.
  intros Hd. rewrite keys_dict_set. destruct (assoc k d) eqn:E; [ exact Hd | ].
  apply assoc_None_not_In in E.
  apply NoDup_app; [ exact Hd | repeat constructor; easy | ].
  intros x Hx [<- | []]. contradiction.
Qed.

Lemma sum_counts_dict_set (k : string) (v : Z) d :
  sum_counts (dict_set k v d)
  = (sum_counts d - match assoc k d with Some n => n | None => 0 end + v)%Z.
Proof.
  unfold sum_counts. induction d as [ | [k' v'] d IH ]; simpl; [ lia | ].
  destruct (String.eqb k k'); simpl; [ lia | ]. rewrite IH. lia.
Qed.

Lemma count_verdict_In (v : string) (results : list ClaimResult.t) :
  count_verdict v results <> 0%Z <-> In v (map ClaimResult.verdict results).
Proof.
  unfold count_verdict, len. induction results as [ | r rest IH ]; simpl; [ tauto | ].
  destruct (String.eqb_spec (ClaimResult.verdict r) v) as [Hv | Hv]; simpl.
  - split; [ now left | lia ].
  - rewrite IH. tauto.
Qed.

(** What the loop of [get_verdicts_summary] maintains. *)
Definition summary_of (summary : list (string * Z)) (seen : list ClaimResult.t) : Prop :=
  (forall v, assoc v summary
             = if (count_verdict v seen =? 0)%Z then None else Some (count_verdict v seen)) /\
  NoDup (map fst summary) /\
  sum_counts summary = len seen.

Lemma count_verdict_snoc (v : string) seen r :
  count_verdict v (seen ++ [r])%list
  = (count_verdict v seen + if String.eqb (ClaimResult.verdict r) v then 1 else 0)%Z.
Proof.
  unfold count_verdict, len. rewrite filter_app, length_app. simpl.
  destruct (String.eqb (ClaimResult.verdict r) v); simpl; lia.
Qed.

Lemma count_verdict_nonneg (v : string) seen : (0 <= count_verdict v seen)%Z.
Proof. unfold count_verdict, len. lia. Qed.

Lemma summary_loop (results : list ClaimResult.t) :
  forall summary seen,
    summary_of summary seen ->
    summary_of
      (fold_left
         (fun summary claim_result =>
            let verdict := ClaimResult.verdict claim_result in
            dict_set verdict
                     (match assoc verdict summary with Some n => n | None => 0 end + 1)%Z
                     summary)
         results summary)
      (seen ++ results)%list.
Proof.
  induction results as [ | r rest IH ]; intros summary seen Hs; simpl.
  - now rewrite app_nil_r.
  - replace (seen ++ r :: rest)%list with ((seen ++ [r]) ++ rest)%list
      by now rewrite <- app_assoc.
    apply IH. destruct Hs as (Hassoc & Hnodup & Hsum). split; [ | split ].
    + intros v. rewrite count_verdict_snoc.
      pose proof (count_verdict_nonneg v seen) as Hv.
      destruct (String.eqb_spec (ClaimResult.verdict r) v) as [-> | Hne].
      * rewrite assoc_dict_set_same, Hassoc.
        destruct (Z.eqb_spec (count_verdict v seen) 0) as [-> | H0];
          destruct (Z.eqb_spec (count_verdict v seen + 1) 0); try lia; reflexivity.
      * rewrite assoc_dict_set_other by congruence. rewrite Hassoc.
        now rewrite Z.add_0_r.
    + now apply NoDup_dict_set.
    + rewrite sum_counts_dict_set, Hsum. unfold len. rewrite length_app. simpl. lia.
Qed.

(** X3. [CaseReport.get_verdicts_summary] counts the verdicts of the
    report: every verdict that occurs among the claim results is a key,
    exactly once, with the number of results that carry it; no other key
    is present; and the counts add up to the number of claim results. *)
Theorem get_verdicts_summary_counts (report : CaseReport.t) (v : string) :
  assoc v (CaseReport.get_verdicts_summary report)
  = (if (count_verdict v (CaseReport.claims report) =? 0)%Z then None
     else Some (count_verdict v (CaseReport.claims report))) /\
  (In v (map fst (CaseReport.get_verdicts_summary report))
   <-> In v (map ClaimResult.verdict (CaseReport.claims report))) /\
  NoDup (map fst (CaseReport.get_verdicts_summary report)) /\
  sum_counts (CaseReport.get_verdicts_summary report) = len (CaseReport.claims report).
Proof.
  destruct (summary_loop (CaseReport.claims report) [] [])
    as (Hassoc & Hnodup & Hsum).
  { repeat split; try constructor. }
  simpl in Hassoc, Hsum. fold (CaseReport.get_verdicts_summary report) in *.
  split; [ apply Hassoc | ]. split; [ | split; assumption ].
  specialize (Hassoc v).
  rewrite <- count_verdict_In. destruct (Z.eqb_spec (count_verdict v (CaseReport.claims report)) 0).
  - apply assoc_None_not_In in Hassoc. tauto.
  - split; [ easy | intros _ ]. 
    destruct (in_dec string_dec v (map fst (CaseReport.get_verdicts_summary report)))
      as [Hin | Hout]; [ exact Hin | ].
    apply assoc_None_not_In in Hout. congruence.
Qed.

(** ** Searching with a validity date (code/base.py) *)

(** The window test as a boolean. *)
Definition within (valid_from valid_until : option datetime) (t : datetime) : bool :=
  match valid_from with Some vf => (vf <=? t)%Z | None => true end
  && match valid_until with Some vu => (t <=? vu)%Z | None => true end.

Lemma within_in_window valid_from valid_until t :
  within valid_from valid_until t = true <-> in_window valid_from valid_until t.
Proof.
  unfold within, in_window. rewrite andb_true_iff.
  destruct valid_from, valid_until; rewrite ?Z.leb_le; intuition.
Qed.

Section search_validity.
Context {W : Type} `{Sys W} `{BaseCourtCode W}.

Lemma run_Precedent_is_valid (p : Precedent.t) (t : datetime) (s : St W) :
  Precedent.is_valid p (Some t) s
  = (Ret (within (Precedent.valid_from p) (Precedent.valid_until p) t), s).
Proof.
  destruct (Precedent_is_valid_at p t s) as (b & -> & Hb).
  rewrite <- within_in_window in Hb. f_equal. f_equal.
  destruct b, (within (Precedent.valid_from p) (Precedent.valid_until p) t);
    intuition congruence.
Qed.

Lemma run_CourtCodeEntry_is_valid (e : CourtCodeEntry.t) (t : datetime) (s : St W) :
  CourtCodeEntry.is_valid e (Some t) s
  = (Ret (within (CourtCodeEntry.valid_from e) (CourtCodeEntry.valid_until e) t), s).
Proof.
  destruct (CourtCodeEntry_is_valid_at e t s) as (b & -> & Hb).
  rewrite <- within_in_window in Hb. f_equal. f_equal.
  destruct b, (within (CourtCodeEntry.valid_from e) (CourtCodeEntry.valid_until e) t);
    intuition congruence.
Qed.

Lemma run_valid_at (t : datetime) (similar : list Precedent.t) (s : St W) :
  valid_at t similar s
  = (Ret (filter (fun p => within (Precedent.valid_from p) (Precedent.valid_until p) t)
                 similar), s).
Proof.
  induction similar as [ | p rest IH ]; simpl; [ reflexivity | ].
  unfold bind. rewrite run_Precedent_is_valid, IH. unfold ret.
  now destruct (within _ _ t).
Qed.

(** X4. [search_with_validity] always puts both questions to the store,
    the exact search first, and nothing else. All validity tests are made
    at one instant: [check_date], or the clock reading taken once on entry
    when none is given. The exact match is returned when the store has one
    and it is valid at that instant; the precedents returned are those of
    the store's answer that are valid at that instant, in the store's
    order. An exception of the store is not caught; after a failed exact
    search the similar search is not made. *)
Theorem search_with_validity_result (self : CourtCode) (claim : string)
    (check_date : option datetime) (top_k : Z) (threshold : Q) (s : St W) :
  let t := match check_date with
           | Some d => d
           | None => fst (sys_now (world s))
           end in
  let w0 := match check_date with
            | Some _ => world s
            | None => snd (sys_now (world s))
            end in
  let asked_exact := mkCall (db_path self) "search_exact" [JStr claim] in
  let asked_similar := mkCall (db_path self) "search_similar"
                              [JStr claim; JNum (inject_Z top_k); JNum threshold] in
  search_with_validity self claim check_date top_k threshold s
  = match search_exact self claim w0 with
    | (inl e, w1) => (Raise e, mkSt w1 (calls s ++ [asked_exact]))
    | (inr found, w1) =>
        match search_similar self claim top_k threshold w1 with
        | (inl e, w2) => (Raise e, mkSt w2 (calls s ++ [asked_exact; asked_similar]))
        | (inr similar, w2) =>
            (Ret (match found with
                  | Some entry =>
                      if within (CourtCodeEntry.valid_from entry)
                                (CourtCodeEntry.valid_until entry) t
                      then Some entry else None
                  | None => None
                  end,
                  filter (fun p => within (Precedent.valid_from p)
                                          (Precedent.valid_until p) t) similar),
             mkSt w2 (calls s ++ [asked_exact; asked_similar]))
        end
    end.
Proof.
  intros t w0 asked_exact asked_similar. unfold search_with_validity.
  assert ((match check_date with Some d => ret d | None => datetime_now end) s
          = (Ret t, mkSt w0 (calls s))) as Ht.
  { subst t w0. destruct check_date; [ now destruct s | apply run_datetime_now ]. }
  rewrite (run_bind_ret _ _ _ _ _ Ht).
  assert (await_search_exact self claim (mkSt w0 (calls s))
          = match search_exact self claim w0 with
            | (inl e, w1) => (Raise e, mkSt w1 (calls s ++ [asked_exact]))
            | (inr found, w1) => (Ret found, mkSt w1 (calls s ++ [asked_exact]))
            end) as Hexact.
  { unfold await_search_exact, await_call. cbn [world calls].
    now destruct (search_exact self claim w0) as [[e | found] w1]. }
  destruct (search_exact self claim w0) as [[e | found] w1];
    [ now rewrite (run_bind_raise _ _ _ _ _ Hexact) | ].
  rewrite (run_bind_ret _ _ _ _ _ Hexact).
  match goal with
  | |- bind ?m _ ?s1 = _ =>
      assert (m s1
              = (Ret (match found with
                      | Some entry =>
                          if within (CourtCodeEntry.valid_from entry)
                                    (CourtCodeEntry.valid_until entry) t
                          then Some entry else None
                      | None => None
                      end), s1)) as Hvalid
  end.
  { destruct found as [entry |]; [ | reflexivity ].
    unfold bind. rewrite run_CourtCodeEntry_is_valid. unfold ret.
    now destruct (within _ _ t). }
  rewrite (run_bind_ret _ _ _ _ _ Hvalid).
  match goal with
  | |- bind ?m _ ?s1 = _ =>
      assert (m s1
              = match search_similar self claim top_k threshold w1 with
                | (inl e, w2) => (Raise e, mkSt w2 (calls s ++ [asked_exact; asked_similar]))
                | (inr similar, w2) =>
                    (Ret similar, mkSt w2 (calls s ++ [asked_exact; asked_similar]))
                end) as Hsimilar
  end.
  { unfold await_search_similar, await_call. cbn [world calls].
    destruct (search_similar self claim top_k threshold w1) as [[e | similar] w2];
      cbn [of_sum]; rewrite <- app_assoc; reflexivity. }
  destruct (search_similar self claim top_k threshold w1) as [[e | similar] w2];
    [ now rewrite (run_bind_raise _ _ _ _ _ Hsimilar) | ].
  rewrite (run_bind_ret _ _ _ _ _ Hsimilar).
  unfold bind. rewrite run_valid_at. reflexivity.
Qed.
End search_validity.

(** ** Structured answers of a Reasoner (llm/base.py) *)

(** The answer of the provider once [generate_json] has cleaned it: outer
    white space removed, then one pair of enclosing double quotes. *)
Definition cleaned (text : string) : string :=
  let response := strip text in
  if startswith dq response && endswith_char (ascii_of_nat 34) response
  then slice_1_m1 response else response.

Section structured_answers.
Context {W : Type} `{BaseLLMProvider W} `{Lib}.

End structured_answers.

(** ** What a juror's vote carries and costs (jury.py) *)

(** The number of calls of a method among the calls of a log. *)
Definition made (method : string) (log : list call) : Z :=
  len (filter (fun c => String.eqb (call_method c) method) log).

Lemma made_app (method : string) (l1 l2 : list call) :
  made method (l1 ++ l2)%list = (made method l1 + made method l2)%Z.
Proof. unfold made, len. rewrite filter_app, length_app. lia. Qed.

(** [quiet m]: [m] makes no collaborator call. *)
Definition quiet {W A : Type} (m : M (St W) A) : Prop :=
  forall s, calls (snd (m s)) = calls s.

Section call_log.
Context {W : Type}.

Lemma quiet_ret {A : Type} (a : A) : quiet (ret a : M (St W) A).
Proof. intros s. reflexivity. Qed.

Lemma quiet_raise {A : Type} e : quiet (raise e : M (St W) A).
Proof. intros s. reflexivity. Qed.

Lemma quiet_of_sum {A : Type} (r : exn + A) : quiet (of_sum r : M (St W) A).
Proof. destruct r; intros s; reflexivity. Qed.

(** The calls of [m] followed by a quiet continuation are those of [m]. *)
Lemma calls_bind_quiet {A B : Type} (m : M (St W) A) (k : A -> M (St W) B) s :
  (forall a, quiet (k a)) -> calls (snd (bind m k s)) = calls (snd (m s)).
Proof.
  intros Hk. unfold bind. destruct (m s) as [[a | e |] s1]; try reflexivity. apply Hk.
Qed.

Lemma calls_try_quiet {A : Type} (m : M (St W) A) h s :
  (forall e, quiet (h e)) -> calls (snd (try_except m h s)) = calls (snd (m s)).
Proof.
  intros Hh. unfold try_except. destruct (m s) as [[a | e |] s1]; try reflexivity. apply Hh.
Qed.

Lemma quiet_bind {A B : Type} (m : M (St W) A) (k : A -> M (St W) B) :
  quiet m -> (forall a, quiet (k a)) -> quiet (bind m k).
Proof. intros Hm Hk s. rewrite calls_bind_quiet by exact Hk. apply Hm. Qed.

Lemma quiet_try_except {A : Type} (m : M (St W) A) h :
  quiet m -> (forall e, quiet (h e)) -> quiet (try_except m h).
Proof. intros Hm Hh s. rewrite calls_try_quiet by exact Hh. apply Hm. Qed.

Lemma quiet_datetime_now `{Sys W} : quiet (datetime_now : M (St W) datetime).
Proof. intros s. unfold datetime_now. now destruct (sys_now (world s)). Qed.

Lemma quiet_uuid4 `{Sys W} : quiet (uuid4 : M (St W) string).
Proof. intros s. unfold uuid4. now destruct (sys_uuid4 (world s)). Qed.

(** A recorded call adds itself to the log, whatever its answer. *)
Lemma calls_await_call {A : Type} c (f : W -> (exn + A) * W) s :
  calls (snd (await_call c f s)) = (calls s ++ [c])%list.
Proof. unfold await_call. now destruct (f (world s)) as [[e | a] w]. Qed.
End call_log.

#[local] Hint Resolve quiet_ret quiet_raise quiet_of_sum quiet_datetime_now quiet_uuid4
  : outcomes.

(** Structural steps for goals [quiet m]. *)
Ltac quiet_step :=
  lazymatch goal with
  | |- quiet (bind _ _) => apply quiet_bind; [ | intro ]
  | |- quiet (try_except _ _) => apply quiet_try_except; [ | intro ]
  | |- quiet (match ?x with _ => _ end) => destruct x
  | |- quiet _ => solve [ auto with outcomes ]
  end.

Ltac quiet_steps := repeat quiet_step.

Section vote_properties.
Context {W : Type} `{Sys W} `{BaseLLMProvider W} `{BaseReference W} `{Lib}.

(** The call [generate_json] makes. *)
Definition asked_json (llm : LLMProvider) (prompt system_prompt : string) : call :=
  mkCall (provider_class llm) "generate"
         [JStr prompt; JStr (system_prompt ++ json_instruction)].

Lemma generate_json_calls llm prompt system_prompt (s : St W) :
  calls (snd (generate_json llm prompt system_prompt s))
  = (calls s ++ [asked_json llm prompt system_prompt])%list.
Proof.
  unfold generate_json. rewrite calls_bind_quiet by (intro; quiet_steps).
  apply calls_await_call.
Qed.

Lemma quiet_get {S : Type} response key default :
  quiet (builtins.get response key default : M (St S) json).
Proof. unfold builtins.get. quiet_steps. Qed.

Lemma quiet_float {S : Type} x : quiet (builtins.float x : M (St S) Q).
Proof. unfold builtins.float. quiet_steps. Qed.

Lemma quiet_JuryVote_new jury_name claim_id decision confidence reason reference_summary
    search_cycles :
  quiet (JuryVote.new jury_name claim_id decision confidence reason reference_summary
                      search_cycles : M (St W) JuryVote.t).
Proof. unfold JuryVote.new. quiet_steps. Qed.

Lemma JuryVote_new_inv jury_name claim_id decision confidence reason reference_summary
    search_cycles (s : St W) v s' :
  JuryVote.new jury_name claim_id decision confidence reason reference_summary
               search_cycles s = (Ret v, s') ->
  JuryVote.jury_name v = jury_name /\ JuryVote.claim_id v = claim_id /\
  JuryVote.confidence v = confidence /\ (0 <= confidence <= 1)%Q /\
  JuryVote.search_cycles v = search_cycles /\
  JuryVote.reference_summary v = reference_summary /\
  Decision_of_json decision = Some (JuryVote.decision v) /\
  reason = JStr (JuryVote.reason v).
Proof.
  unfold JuryVote.new. intros E. apply bind_ret_inv in E as (t & s1 & _ & E).
  destruct (Decision_of_json decision) as [d |]; [ | discriminate ].
  destruct (Qle_bool 0 confidence) eqn:E0; [ | discriminate ].
  destruct (Qle_bool confidence 1) eqn:E1; [ | discriminate ].
  simpl in E. destruct reason; try discriminate. simpl in E. unfold ret in E.
  injection E as <- _. simpl. apply Qle_bool_iff in E0, E1. intuition.
Qed.

Lemma decide_calls self claim user_prompt reference_summary search_cycles (s : St W) :
  calls (snd (decide self claim user_prompt reference_summary search_cycles s))
  = (calls s ++ [asked_json (Jury._llm self) user_prompt (Jury._system_prompt self)])%list.
Proof.
  unfold decide. rewrite calls_bind_quiet; [ apply generate_json_calls | ].
  intros response.
  repeat first [ apply quiet_get | apply quiet_float | apply quiet_JuryVote_new
               | quiet_step ].
Qed.

Lemma decide_or_abstain_calls self claim user_prompt reference_summary search_cycles
    error_prefix (s : St W) :
  calls (snd (decide_or_abstain self claim user_prompt reference_summary search_cycles
                                error_prefix s))
  = (calls s ++ [asked_json (Jury._llm self) user_prompt (Jury._system_prompt self)])%list.
Proof.
  unfold decide_or_abstain. rewrite calls_try_quiet; [ apply decide_calls | ].
  intro. apply quiet_JuryVote_new.
Qed.

(** The fields of the vote the final guarded decision request returns. *)
Lemma decide_or_abstain_fields self claim user_prompt reference_summary search_cycles
    error_prefix (s : St W) v s' :
  decide_or_abstain self claim user_prompt reference_summary search_cycles error_prefix s
  = (Ret v, s') ->
  JuryVote.jury_name v = Jury.name self /\
  JuryVote.claim_id v = Claim.claim_id claim /\
  (0 <= JuryVote.confidence v <= 1)%Q /\
  JuryVote.search_cycles v = search_cycles /\
  (JuryVote.decision v <> abstain -> JuryVote.reference_summary v = reference_summary).
Proof.
  unfold decide_or_abstain. intros E.
  apply try_ret_inv in E as [E | (e & s1 & _ & E)].
  - unfold decide in E.
    apply bind_ret_inv in E as (response & s1 & _ & E).
    apply bind_ret_inv in E as (decision & s2 & _ & E).
    apply bind_ret_inv in E as (c0 & s3 & _ & E).
    apply bind_ret_inv in E as (confidence & s4 & _ & E).
    apply bind_ret_inv in E as (reason & s5 & _ & E).
    apply JuryVote_new_inv in E as (-> & -> & -> & Hc & -> & -> & _). auto.
  - apply JuryVote_new_inv in E as (-> & -> & -> & Hc & -> & _ & Hd & _).
    simpl in Hd. injection Hd as <-. intuition.
Qed.

(** The call a search of the reference source makes. *)
Definition asked_evidence (ref : Reference) (query : json) : call :=
  mkCall (reference_name ref) "retrieve" [query; JNum (inject_Z 3)].

(** The STEEL loop of a juror with a reference source: it returns, the
    cycle counter advances by at least one when a cycle is allowed and by
    no more than the cycles allowed, every cycle searches once, and every
    cycle but possibly the last asks the Reasoner once. *)
Lemma steel_loop_budget (self : Jury.t) (ref : Reference) (remaining : nat) :
  Jury.reference self = Some ref ->
  forall search_cycle query collected (s : St W),
  exists cycles evidence s' added,
    steel_loop self remaining search_cycle query collected s
    = (Ret (cycles, evidence), s') /\
    (search_cycle <= cycles <= search_cycle + Z.of_nat remaining)%Z /\
    (remaining <> 0%nat -> search_cycle + 1 <= cycles)%Z /\
    calls s' = (calls s ++ added)%list /\
    made "retrieve" added = (cycles - search_cycle)%Z /\
    (cycles - search_cycle - 1 <= made "generate" added <= cycles - search_cycle)%Z /\
    (0 <= made "generate" added)%Z.
Proof.
  intros Href. induction remaining as [ | remaining IH ];
    intros search_cycle query collected s.
  - exists search_cycle, collected, s, []. simpl. rewrite app_nil_r.
    change (made "retrieve" []) with 0%Z. change (made "generate" []) with 0%Z.
    repeat split; try reflexivity; try lia.
  - cbn [steel_loop]. rewrite Href.
    match goal with
    | |- context [bind ?m _ s] =>
        assert (total m) as Hsearch
          by (apply total_try_except; [ | intro; apply total_ret ];
              apply answers_bind; [ apply answers_await_call | intro; apply answers_ret ]);
        assert (calls (snd (m s)) = (calls s ++ [asked_evidence ref query])%list) as Hc1
          by (rewrite calls_try_quiet by (intro; apply quiet_ret);
              rewrite calls_bind_quiet by (intro; apply quiet_ret);
              apply calls_await_call);
        destruct (Hsearch s) as (searched & s1 & E1)
    end.
    rewrite E1 in Hc1. simpl in Hc1. rewrite (run_bind_ret _ _ _ _ _ E1).
    destruct searched as [collected1 |].
    + match goal with
      | |- context [bind ?m _ s1] =>
          assert (total m) as Hthink
            by (apply total_try_except; [ | intro; apply total_ret ];
                apply answers_bind; [ apply answers_generate_json | intro ]; outcomes);
          assert (exists g, call_method g = "generate" /\
                            calls (snd (m s1)) = (calls s1 ++ [g])%list) as (g & Hg & Hc2)
            by (eexists; split; [ | rewrite calls_try_quiet by (intro; apply quiet_ret);
                                    rewrite calls_bind_quiet by (intro; quiet_steps);
                                    apply generate_json_calls ]; reflexivity);
          destruct (Hthink s1) as (next & s2 & E2)
      end.
      rewrite E2 in Hc2. simpl in Hc2. rewrite (run_bind_ret _ _ _ _ _ E2).
      assert (made "retrieve" [asked_evidence ref query; g] = 1%Z
              /\ made "generate" [asked_evidence ref query; g] = 1%Z) as [Hr2 Hg2].
      { unfold made. simpl. rewrite Hg. split; reflexivity. }
      destruct next as [query1 |].
      * destruct (IH (search_cycle + 1)%Z query1 collected1 s2)
          as (cycles & evidence & s' & added & E & Hb & _ & Hc & Hret & Hgen & Hpos).
        exists cycles, evidence, s', ([asked_evidence ref query; g] ++ added)%list.
        split; [ exact E | ]. rewrite !made_app, Hr2, Hg2, Hc, Hc2, Hc1, <- !app_assoc.
        repeat split; try reflexivity; try lia.
      * exists (search_cycle + 1)%Z, collected1, s2, [asked_evidence ref query; g].
        split; [ reflexivity | ]. rewrite Hr2, Hg2, Hc2, Hc1, <- !app_assoc.
        repeat split; try reflexivity; try lia.
    + exists (search_cycle + 1)%Z, collected, s1, [asked_evidence ref query].
      split; [ reflexivity | ]. rewrite Hc1.
      assert (made "retrieve" [asked_evidence ref query] = 1%Z
              /\ made "generate" [asked_evidence ref query] = 0%Z) as [-> ->]
          by (split; reflexivity).
      repeat split; try reflexivity; try lia.
Qed.

(** Whether [vote] takes the STEEL path. *)
Definition steel_mode (self : Jury.t) : bool :=
  Jury.search_cycle_mode self
  && match Jury.reference self with Some _ => true | None => false end.

(** The evidence gathering of the simple mode returns, after one search
    when there is a reference source and none otherwise. *)
Lemma simple_evidence (self : Jury.t) (claim : Claim.t) (s : St W) :
  exists evidence_text s1,
    (match Jury.reference self with
     | Some ref =>
         try_except
           (evidence <- await_retrieve ref (JStr (Claim.text claim)) 3 ;;
            match evidence with
            | [] => ret ""
            | _ => ret (nl ++ nl ++ "Available Evidence:" ++ nl
                        ++ join (nl ++ "---" ++ nl) evidence)
            end)
           (fun _ => ret "")
     | None => ret ""
     end) s = (Ret evidence_text, s1) /\
    calls s1 = (calls s ++ match Jury.reference self with
                           | Some ref => [asked_evidence ref (JStr (Claim.text claim))]
                           | None => []
                           end)%list.
Proof.
  destruct (Jury.reference self) as [ref |].
  - match goal with
    | |- context [try_except ?m ?h s] =>
        assert (total (try_except m h)) as Ht
          by (apply total_try_except; [ | intro; apply total_ret ];
              apply answers_bind; [ apply answers_await_call | intro; outcomes ]);
        assert (calls (snd (try_except m h s))
                = (calls s ++ [asked_evidence ref (JStr (Claim.text claim))])%list) as Hc
          by (rewrite calls_try_quiet by (intro; apply quiet_ret);
              rewrite calls_bind_quiet by (intro; quiet_steps);
              apply calls_await_call);
        destruct (Ht s) as (evidence_text & s1 & E)
    end.
    rewrite E in Hc. exists evidence_text, s1. split; [ exact E | exact Hc ].
  - exists "", s. split; [ reflexivity | now rewrite app_nil_r ].
Qed.

(** The vote and the calls made for it, in both modes. *)
Lemma jury_vote_run (self : Jury.t) (claim : Claim.t) (s : St W) :
  exists v s' before user_prompt,
    jury.vote self claim s = (Ret v, s') /\
    calls s'
    = (calls s ++ before
               ++ [asked_json (Jury._llm self) user_prompt (Jury._system_prompt self)])%list /\
    JuryVote.jury_name v = Jury.name self /\
    JuryVote.claim_id v = Claim.claim_id claim /\
    (0 <= JuryVote.confidence v <= 1)%Q /\
    (if steel_mode self
     then (JuryVote.search_cycles v = 0%Z <-> (Jury.search_cycle_max self <= 0)%Z) /\
          (0 <= JuryVote.search_cycles v <= Z.max 0 (Jury.search_cycle_max self))%Z /\
          made "retrieve" before = JuryVote.search_cycles v /\
          (JuryVote.search_cycles v - 1 <= made "generate" before
           <= JuryVote.search_cycles v)%Z /\
          (0 <= made "generate" before)%Z
     else JuryVote.search_cycles v = 1%Z /\
          before = match Jury.reference self with
                   | Some ref => [asked_evidence ref (JStr (Claim.text claim))]
                   | None => []
                   end).
Proof.
  unfold jury.vote. fold (steel_mode self). destruct (steel_mode self) eqn:Hmode.
  - unfold steel_mode in Hmode. apply andb_true_iff in Hmode as [_ Href].
    destruct (Jury.reference self) as [ref |] eqn:Eref; [ clear Href | discriminate ].
    unfold _vote_with_steel.
    destruct (steel_loop_budget self ref (Z.to_nat (Jury.search_cycle_max self)) Eref
                0%Z (JStr (Claim.text claim)) [] s)
      as (cycles & evidence & s1 & added & E & Hb & Hone & Hc & Hret & Hgen & Hpos).
    rewrite (run_bind_ret _ _ _ _ _ E). cbn [fst snd].
    match goal with
    | |- context [decide_or_abstain self claim ?p ?rs ?sc ?ep s1] =>
        destruct (total_decide_or_abstain self claim p rs sc ep s1) as (v & s' & Ev);
        pose proof (decide_or_abstain_calls self claim p rs sc ep s1) as Hcalls;
        destruct (decide_or_abstain_fields self claim p rs sc ep s1 v s' Ev)
          as (Hn & Hid & Hconf & Hsc & _);
        exists v, s', added, p
    end.
    rewrite Ev in Hcalls. cbn [snd] in Hcalls. rewrite Hcalls, Hc, <- app_assoc, Hsc.
    destruct Hconf as [Hc0 Hc1].
    split; [ exact Ev | ]. repeat split; auto; lia.
  - unfold _vote_simple.
    destruct (simple_evidence self claim s) as (evidence_text & s1 & E & Hc).
    rewrite (run_bind_ret _ _ _ _ _ E).
    match goal with
    | |- context [decide_or_abstain self claim ?p ?rs ?sc ?ep s1] =>
        destruct (total_decide_or_abstain self claim p rs sc ep s1) as (v & s' & Ev);
        pose proof (decide_or_abstain_calls self claim p rs sc ep s1) as Hcalls;
        destruct (decide_or_abstain_fields self claim p rs sc ep s1 v s' Ev)
          as (Hn & Hid & Hconf & Hsc & _);
        exists v, s', (match Jury.reference self with
                       | Some ref => [asked_evidence ref (JStr (Claim.text claim))]
                       | None => []
                       end), p
    end.
    rewrite Ev in Hcalls. cbn [snd] in Hcalls. rewrite Hcalls, Hc, <- app_assoc.
    destruct Hconf as [Hc0 Hc1].
    split; [ exact Ev | ]. repeat split; auto.
Qed.


End vote_properties.

(* ================================================================= *)
(** ** The Judge (judge.py) *)

Lemma ratio_is_zero (k n : Z) :
  (0 < n)%Z -> Qeq_bool (inject_Z k / inject_Z n) 0 = (k =? 0)%Z.
Proof.
  intros Hn. destruct n as [ | p | p ]; try lia.
  destruct (Z.eqb_spec k 0) as [-> | Hk].
  - reflexivity.
  - apply not_true_is_false. intros E. apply Qeq_bool_iff in E.
    unfold Qeq, Qdiv, Qmult, Qinv, inject_Z in E. simpl in E. lia.
Qed.

Lemma ratio_below_half (k n : Z) :
  (0 < n)%Z -> Qle_bool (1 # 2) (inject_Z k / inject_Z n) = (n <=? 2 * k)%Z.
Proof.
  intros Hn. destruct n as [ | p | p ]; try lia.
  destruct (Z.leb_spec (Z.pos p) (2 * k)) as [Hle | Hlt].
  - apply Qle_bool_iff. unfold Qle, Qdiv, Qmult, Qinv, inject_Z. simpl. lia.
  - apply not_true_is_false. intros E. apply Qle_bool_iff in E.
    unfold Qle, Qdiv, Qmult, Qinv, inject_Z in E. simpl in E. lia.
Qed.

(** The default rules, read as a function of the ratio. *)
Lemma default_rules_verdict (r : Q) :
  calculate_verdict r judge.DEFAULT_VERDICT_RULES
  = inr (if Qeq_bool r 0 then "supported"
         else if Qle_bool (1 # 2) r then "refuted" else "suspicious").
Proof.
  unfold calculate_verdict, judge.DEFAULT_VERDICT_RULES. cbn.
  unfold rule_test, float_cmp, float_eq, Qlt_bool. cbn.
  destruct (Qeq_bool r 0); [ reflexivity | ].
  destruct (Qle_bool (1 # 2) r); reflexivity.
Qed.

Section judge_properties.
Context {W : Type} `{Sys W} `{BaseLLMProvider W} `{Lib}.

(** The ratio the Judge computes from the votes it is given. *)
Definition ratio_of (votes : list JuryVote.t) : Q :=
  match votes with
  | [] => 0%Q
  | _ => (inject_Z (len (objecting votes)) / inject_Z (len votes))%Q
  end.

Lemma fallback_reasoning_not_empty total_votes objection_ratio verdict :
  truthy (JStr (_generate_fallback_reasoning total_votes objection_ratio verdict)) = true.
Proof.
  unfold _generate_fallback_reasoning.
  destruct (String.eqb verdict "supported"); [ reflexivity | ].
  destruct (String.eqb verdict "suspicious"); reflexivity.
Qed.

(** The reasoning step returns a truthy value after exactly one request
    to the Judge's Reasoner; when that request raises, the value is the
    fallback text. *)
Lemma generate_reasoning_result (self : Judge.t) claim jury_votes precedents verdict
    objection_ratio (s : St W) :
  exists reasoning s1 user_prompt,
    _generate_reasoning self claim jury_votes precedents verdict objection_ratio s
    = (Ret reasoning, s1) /\
    calls s1 = (calls s ++ [asked_json (Judge._llm self) user_prompt
                                       (Judge._system_prompt self)])%list /\
    truthy reasoning = true /\
    ((exists e s2, generate_json (Judge._llm self) user_prompt (Judge._system_prompt self) s
                   = (Raise e, s2)) ->
     reasoning = JStr (_generate_fallback_reasoning (len jury_votes) objection_ratio verdict)).
Proof.
  destruct (total_generate_reasoning self claim jury_votes precedents verdict
              objection_ratio s) as (reasoning & s1 & E).
  exists reasoning, s1. unfold _generate_reasoning in *.
  match type of E with
  | try_except (bind (generate_json _ ?p _) _) _ _ = _ => exists p
  end.
  split; [ exact E | ]. split; [ | split ].
  - match type of E with
    | ?m s = _ =>
        assert (calls (snd (m s))
                = (calls s ++ [asked_json (Judge._llm self) _ (Judge._system_prompt self)])%list)
          as Hc
          by (rewrite calls_try_quiet by (intro; apply quiet_ret);
              rewrite calls_bind_quiet
                by (intro; apply quiet_bind; [ apply quiet_get | intro; quiet_steps ]);
              apply generate_json_calls)
    end.
    now rewrite E in Hc.
  - apply try_ret_inv in E as [E | (e & s2 & _ & E)].
    + apply bind_ret_inv in E as (response & s2 & _ & E).
      apply bind_ret_inv in E as (got & s3 & _ & E).
      destruct (truthy got) eqn:Hg; unfold ret in E; injection E as <- _;
        [ exact Hg | apply fallback_reasoning_not_empty ].
    + unfold ret in E. injection E as <- _. apply fallback_reasoning_not_empty.
  - intros (e & s2 & Eg). unfold try_except in E.
    rewrite (run_bind_raise _ _ _ _ _ Eg) in E. unfold ret in E. now injection E as <- _.
Qed.

(** [Judge.verdict] once the rules have given a verdict. *)
Lemma judge_verdict_run (self : Judge.t) claim votes precedents (s : St W) v :
  calculate_verdict (ratio_of votes) (Judge.verdict_rules self) = inr v ->
  judge.verdict self claim votes precedents s
  = (reasoning <- _generate_reasoning self claim votes precedents v (ratio_of votes) ;;
     ClaimResult.new claim votes (JStr v) reasoning (len (objecting votes))
                     (ratio_of votes)) s.
Proof.
  intros Ev. unfold judge.verdict. rewrite filter_is_objection. fold (ratio_of votes).
  rewrite Ev. reflexivity.
Qed.

Lemma run_ClaimResult_new claim votes v reasoning objection_count objection_ratio
    (s : St W) :
  ClaimResult.new claim votes (JStr v) reasoning objection_count objection_ratio s
  = match reasoning with
    | JStr text =>
        (Ret (ClaimResult.mk claim votes v text objection_count objection_ratio
                             (fst (sys_now (world s)))),
         mkSt (snd (sys_now (world s))) (calls s))
    | _ => (Raise (ValidationError "ClaimResult" "judge_reasoning"),
            mkSt (snd (sys_now (world s))) (calls s))
    end.
Proof.
  unfold ClaimResult.new. rewrite (run_bind_ret _ _ _ _ _ (run_datetime_now s)).
  now destruct reasoning.
Qed.


End judge_properties.

Section judge_examples.
Import scenario.

End judge_examples.

(* ================================================================= *)
(** ** The Prosecutor's report (prosecutor.py) *)

(** What the fields of a claim are for each source. *)
Definition claim_consistent (c : Claim.t) : Prop :=
  match Claim.source c with
  | cache =>
      (exists id v, Claim.cache_id c = Some id /\ Claim.cached_verdict c = Some v) /\
      Claim.precedents c = []
  | precedent =>
      Claim.precedents c <> [] /\
      Claim.cache_id c = None /\ Claim.cached_verdict c = None
  | new =>
      Claim.precedents c = [] /\
      Claim.cache_id c = None /\ Claim.cached_verdict c = None
  end.

Definition is_cached (c : Claim.t) : bool := Source_eqb (Claim.source c) cache.

(** The number of precedents attached to the claims of a list. *)
Definition attached (cs : list Claim.t) : Z :=
  fold_right Z.add 0%Z (map (fun c => len (Claim.precedents c)) cs).

Lemma attached_app (cs1 cs2 : list Claim.t) :
  attached (cs1 ++ cs2) = (attached cs1 + attached cs2)%Z.
Proof.
  unfold attached. induction cs1 as [ | c cs1 IH ]; simpl; [ reflexivity | ].
  rewrite IH. lia.
Qed.

Section report_properties.
Context {W : Type} `{Sys W} `{BaseLLMProvider W} `{BaseCourtCode W} `{Lib}.

(** The two store questions about a claim text. *)
Definition asked_exact (self : Prosecutor.t) (claim_text : string) : call :=
  mkCall (db_path (Prosecutor.court_code self)) "search_exact" [JStr claim_text].

Definition asked_similar (self : Prosecutor.t) (claim_text : string) : call :=
  mkCall (db_path (Prosecutor.court_code self)) "search_similar"
         [JStr claim_text; JNum (inject_Z 5); JNum (7 # 10)].

Lemma Claim_new_inv text source cache_id cached_verdict precedents (s : St W) c s' :
  Claim.new text source cache_id cached_verdict precedents s = (Ret c, s') ->
  Claim.text c = text /\ Claim.source c = source /\ Claim.cache_id c = cache_id /\
  Claim.cached_verdict c = cached_verdict /\ Claim.precedents c = precedents /\
  calls s' = calls s.
Proof.
  unfold Claim.new, generate_id. rewrite (run_bind_ret _ _ _ _ _ (run_uuid4 s)).
  unfold ret. intros E. injection E as <- <-. simpl. tauto.
Qed.

Lemma quiet_Precedent_is_valid (p : Precedent.t) check_date :
  quiet (Precedent.is_valid p check_date : M (St W) bool).
Proof. unfold Precedent.is_valid. quiet_steps. Qed.

Lemma quiet_CourtCodeEntry_is_valid (e : CourtCodeEntry.t) check_date :
  quiet (CourtCodeEntry.is_valid e check_date : M (St W) bool).
Proof. unfold CourtCodeEntry.is_valid. quiet_steps. Qed.

Lemma quiet_valid_only (similar_precedents : list Precedent.t) :
  quiet (valid_only similar_precedents : M (St W) (list Precedent.t)).
Proof.
  induction similar_precedents as [ | p rest IH ]; simpl; [ apply quiet_ret | ].
  apply quiet_bind; [ apply quiet_Precedent_is_valid | intro ].
  apply quiet_bind; [ exact IH | intro; apply quiet_ret ].
Qed.

(** One claim text: the claim that is added, the tallies, and the store
    questions asked. *)
Lemma process_claim_text_inv (self : Prosecutor.t) claim_text l (s : St W) l' s' :
  process_claim_text self claim_text (l, s) = (Ret tt, (l', s')) ->
  exists c,
    claims l' = (claims l ++ [c])%list /\
    Claim.text c = claim_text /\
    claim_consistent c /\
    cache_hits l' = (cache_hits l + if is_cached c then 1 else 0)%Z /\
    precedents_found l' = (precedents_found l + len (Claim.precedents c))%Z /\
    calls s' = (calls s ++ asked_exact self claim_text
                        :: if is_cached c then [] else [asked_similar self claim_text])%list.
Proof.
  unfold process_claim_text. intros E.
  apply bind_ret_inv in E as (exact_match & [l1 s1] & Hexact & E).
  apply zoom_ret_inv in Hexact as (s1' & Hexact & Hl1). injection Hl1 as -> ->.
  assert (calls s1' = (calls s ++ [asked_exact self claim_text])%list) as Hc1.
  { pose proof (calls_await_call
                  (mkCall (db_path (Prosecutor.court_code self)) "search_exact"
                          [JStr claim_text])
                  (search_exact (Prosecutor.court_code self) claim_text) s) as Hc.
    unfold await_search_exact in Hexact. now rewrite Hexact in Hc. }
  apply bind_ret_inv in E as (use_cache & [l2 s2] & Huse & E).
  assert (l2 = l /\ calls s2 = calls s1') as [-> Hc2].
  { destruct exact_match as [entry |].
    - apply zoom_ret_inv in Huse as (s2' & Huse & Hl2). injection Hl2 as -> ->.
      split; [ reflexivity | ].
      pose proof (quiet_CourtCodeEntry_is_valid entry None s1') as Hq.
      now rewrite Huse in Hq.
    - unfold ret in Huse. now injection Huse as _ <- <-. }
  apply bind_ret_inv in E as (c & [l3 s3] & Hclaim & E).
  unfold modify_local, ret in E. simpl in E. injection E as <- <-.
  exists c. simpl.
  assert (forall (similar_path : M (process_locals * St W) Claim.t),
             similar_path
             = (similar_precedents <-
                  zoom (await_search_similar (Prosecutor.court_code self) claim_text 5
                                             (7 # 10)) ;;
                valid_precedents <- zoom (valid_only similar_precedents) ;;
                match valid_precedents with
                | _ :: _ =>
                    claim <- zoom (Claim.new claim_text precedent None None
                                             valid_precedents) ;;
                    modify_local (fun l : process_locals =>
                      mkProcessLocals (claims l) (cache_hits l)
                                      (precedents_found l + len valid_precedents)) ;;
                    ret claim
                | [] => zoom (Claim.new claim_text new None None [])
                end) ->
             similar_path (l, s2) = (Ret c, (l3, s3)) ->
             Claim.text c = claim_text /\ claim_consistent c /\ is_cached c = false /\
             cache_hits l3 = cache_hits l /\ claims l3 = claims l /\
             precedents_found l3 = (precedents_found l + len (Claim.precedents c))%Z /\
             calls s3 = (calls s2 ++ [asked_similar self claim_text])%list) as Hsimilar.
  { intros similar_path -> Hs.
    apply bind_ret_inv in Hs as (similar & [l4 s4] & Hsearch & Hs).
    apply zoom_ret_inv in Hsearch as (s4' & Hsearch & Hl4). injection Hl4 as -> ->.
    assert (calls s4' = (calls s2 ++ [asked_similar self claim_text])%list) as Hc4.
    { pose proof (calls_await_call
                    (mkCall (db_path (Prosecutor.court_code self)) "search_similar"
                            [JStr claim_text; JNum (inject_Z 5); JNum (7 # 10)])
                    (search_similar (Prosecutor.court_code self) claim_text 5 (7 # 10)) s2)
        as Hc.
      unfold await_search_similar in Hsearch. now rewrite Hsearch in Hc. }
    apply bind_ret_inv in Hs as (valid & [l5 s5] & Hvalid & Hs).
    apply zoom_ret_inv in Hvalid as (s5' & Hvalid & Hl5). injection Hl5 as -> ->.
    assert (calls s5' = calls s4') as Hc5.
    { pose proof (quiet_valid_only similar s4') as Hq. now rewrite Hvalid in Hq. }
    destruct valid as [ | p valid ].
    - apply zoom_ret_inv in Hs as (s6 & Hnew & Hl6). injection Hl6 as -> ->.
      apply Claim_new_inv in Hnew as (Ht & Hsrc & Hid & Hv & Hp & Hc6).
      unfold claim_consistent, is_cached. rewrite Hsrc, Hid, Hv, Hp, Hc6, Hc5, Hc4.
      simpl. repeat split; auto. unfold len. simpl. lia.
    - apply bind_ret_inv in Hs as (c0 & [l6 s6] & Hnew & Hs).
      apply zoom_ret_inv in Hnew as (s6' & Hnew & Hl6). injection Hl6 as -> ->.
      apply Claim_new_inv in Hnew as (Ht & Hsrc & Hid & Hv & Hp & Hc6).
      unfold modify_local, bind, ret in Hs. simpl in Hs. injection Hs as -> <- <-.
      unfold claim_consistent, is_cached. rewrite Hsrc, Hid, Hv, Hp, Hc6, Hc5, Hc4.
      simpl. repeat split; auto. discriminate. }
  destruct exact_match as [entry |]; [ destruct use_cache | ].
  - apply bind_ret_inv in Hclaim as (c0 & [l4 s4] & Hnew & Hclaim).
    apply zoom_ret_inv in Hnew as (s4' & Hnew & Hl4). injection Hl4 as -> ->.
    apply Claim_new_inv in Hnew as (Ht & Hsrc & Hid & Hv & Hp & Hc4).
    unfold modify_local, bind, ret in Hclaim. simpl in Hclaim.
    injection Hclaim as -> <- <-.
    unfold claim_consistent, is_cached. rewrite Hsrc, Hid, Hv, Hp, Hc4, Hc2, Hc1.
    simpl. repeat split; eauto. unfold len. simpl. lia.
  - destruct (Hsimilar _ eq_refl Hclaim) as (Ht & Hok & Hnc & Hhits & Hcl & Hfound & Hc3).
    rewrite Hnc, Hhits, Hcl, Hfound, Hc3, Hc2, Hc1, <- app_assoc.
    repeat split; auto. lia.
  - destruct (Hsimilar _ eq_refl Hclaim) as (Ht & Hok & Hnc & Hhits & Hcl & Hfound & Hc3).
    rewrite Hnc, Hhits, Hcl, Hfound, Hc3, Hc2, Hc1, <- app_assoc.
    repeat split; auto. lia.
Qed.

(** The loop over the claim texts: one claim per text, in order. *)
Lemma process_loop_inv (self : Prosecutor.t) (claim_texts : list string) :
  forall l (s : St W) l' s',
    process_loop self claim_texts (l, s) = (Ret tt, (l', s')) ->
    exists cs added,
      claims l' = (claims l ++ cs)%list /\
      map Claim.text cs = claim_texts /\
      Forall claim_consistent cs /\
      cache_hits l' = (cache_hits l + len (filter is_cached cs))%Z /\
      precedents_found l' = (precedents_found l + attached cs)%Z /\
      calls s' = (calls s ++ added)%list /\
      made "search_exact" added = len cs /\
      made "search_similar" added = (len cs - len (filter is_cached cs))%Z /\
      len added = (made "search_exact" added + made "search_similar" added)%Z.
Proof.
  induction claim_texts as [ | claim_text rest IH ]; intros l s l' s' E; simpl in E.
  - unfold ret in E. injection E as <- <-. exists [], [].
    rewrite !app_nil_r. repeat split; auto; unfold len, attached, made; simpl; lia.
  - apply bind_ret_inv in E as ([] & [l1 s1] & Hstep & E).
    apply process_claim_text_inv in Hstep
      as (c & Hcl & Ht & Hok & Hhits & Hfound & Hcalls).
    apply IH in E as (cs & added & Hcl' & Hts & Hoks & Hhits' & Hfound' & Hcalls'
                      & Hexact & Hsimilar & Hlen).
    set (step := ([asked_exact self claim_text]
                    ++ if is_cached c then [] else [asked_similar self claim_text])%list).
    exists (c :: cs), (step ++ added)%list.
    assert (made "search_exact" step = 1%Z
            /\ made "search_similar" step = (if is_cached c then 0 else 1)%Z
            /\ len step = (1 + if is_cached c then 0 else 1)%Z) as (Hs1 & Hs2 & Hs3)
        by (subst step; destruct (is_cached c); repeat split; reflexivity).
    assert (len (filter is_cached (c :: cs))
            = ((if is_cached c then 1 else 0) + len (filter is_cached cs))%Z) as Hf
        by (cbn [filter]; destruct (is_cached c); unfold len; simpl length; lia).
    assert (len (c :: cs) = (1 + len cs)%Z) as Hn by (unfold len; simpl length; lia).
    assert (len (step ++ added) = (len step + len added)%Z) as Happ
        by (unfold len; rewrite length_app; lia).
    change (attached (c :: cs)) with (len (Claim.precedents c) + attached cs)%Z.
    rewrite !made_app, Happ, Hf, Hn, Hs1, Hs2, Hs3, Hexact, Hsimilar, Hlen.
    rewrite Hcl', Hcl, Hhits', Hhits, Hfound', Hfound, Hcalls', Hcalls.
    subst step. rewrite <- !app_assoc.
    split; [ reflexivity | ]. split; [ simpl; congruence | ].
    split; [ now constructor | ].
    destruct (is_cached c); repeat split; try reflexivity; lia.
Qed.

Lemma strip_idempotent (c : string) : strip (strip c) = strip c.
Proof.
  assert (forall s, rstrip (rstrip s) = rstrip s) as Hr.
  { induction s as [ | a s IH ]; [ reflexivity | ]. cbn [rstrip].
    destruct (rstrip s) as [ | b r ] eqn:E.
    - destruct (is_space a) eqn:Ea; [ reflexivity | ]. cbn [rstrip]. now rewrite Ea.
    - cbn [rstrip] in *. now rewrite IH. }
  assert (forall s, match s with String a _ => is_space a = false | EmptyString => True end ->
                    lstrip s = s) as Hl.
  { intros [ | a s ] Ha; [ reflexivity | ]. simpl. now rewrite Ha. }
  assert (forall s, match lstrip s with
                    | String a _ => is_space a = false
                    | EmptyString => True
                    end) as Hlead.
  { induction s as [ | a s IH ]; [ exact I | ]. simpl.
    destruct (is_space a) eqn:Ea; [ exact IH | exact Ea ]. }
  assert (forall s, match s with String a _ => is_space a = false | EmptyString => True end ->
                    match rstrip s with
                    | String a _ => is_space a = false
                    | EmptyString => True
                    end) as Hkeep.
  { intros [ | a s ] Ha; [ exact I | ]. cbn [rstrip].
    destruct (rstrip s); [ now rewrite Ha | exact Ha ]. }
  unfold strip. rewrite (Hl (rstrip (lstrip c))) by apply Hkeep, Hlead. apply Hr.
Qed.

Lemma stripped_strings_clean (claims : list json) (l : list string) :
  stripped_strings claims = Some l ->
  Forall (fun c => c <> "" /\ strip c = c) l.
Proof.
  revert l. induction claims as [ | x rest IH ]; intros l E; simpl in E.
  - injection E as <-. constructor.
  - destruct x; try discriminate.
    destruct (stripped_strings rest) as [l0 |]; [ | discriminate ].
    specialize (IH l0 eq_refl).
    destruct (String.eqb_spec (strip s) ""); injection E as <-; [ exact IH | ].
    constructor; [ | exact IH ]. split; [ assumption | apply strip_idempotent ].
Qed.

(** The request the claim splitter sends. *)
Definition asked_split (self : Prosecutor.t) (llm : LLMProvider) (case_text : string)
    : call :=
  mkCall (provider_class llm) "generate"
         [JStr (str_or (Prosecutor.prosecutor_prompt self)
                       (Prosecutor._default_system_prompt self)
                ++ nl ++ nl ++ "Case to analyze:" ++ nl ++ case_text);
          JStr "You are a legal prosecutor analyzing cases."].

Lemma split_into_claims_run (self : Prosecutor.t) (case_text : string) (s : St W) :
  exists texts s',
    _split_into_claims self case_text s = (Ret texts, s') /\
    (texts = [case_text] \/ Forall (fun c => c <> "" /\ strip c = c) texts) /\
    calls s' = (calls s ++ match Prosecutor._llm self with
                           | Some llm => [asked_split self llm case_text]
                           | None => []
                           end)%list.
Proof.
  destruct (total_split_into_claims self case_text s) as (texts & s' & E).
  exists texts, s'. split; [ exact E | ]. unfold _split_into_claims in E.
  destruct (Prosecutor._llm self) as [llm |].
  - split.
    + apply try_ret_inv in E as [E | (e & s1 & _ & E)];
        [ | unfold ret in E; injection E as <- _; now left ].
      apply bind_ret_inv in E as (response & s1 & _ & E).
      apply bind_ret_inv in E as (parsed & s2 & _ & E).
      destruct parsed as [[ | | | | claims | ] |]; unfold ret in E;
        try (injection E as <- _; now left).
      destruct (stripped_strings claims) as [l |] eqn:El; injection E as <- _;
        [ right; now apply stripped_strings_clean in El | now left ].
    + match type of E with
      | ?m s = _ =>
          assert (calls (snd (m s)) = (calls s ++ [asked_split self llm case_text])%list)
            as Hc
            by (rewrite calls_try_quiet by (intro; apply quiet_ret);
                rewrite calls_bind_quiet
                  by (intro; apply quiet_bind; [ | intro ]; quiet_steps);
                apply calls_await_call)
      end.
      now rewrite E in Hc.
  - unfold ret in E. injection E as <- <-. split; [ now left | now rewrite app_nil_r ].
Qed.

(** [process], taken apart. *)
Lemma process_inv (self : Prosecutor.t) (case_text : string) (s : St W) report s' :
  prosecutor.process self case_text s = (Ret report, s') ->
  exists claim_texts before added,
    (if Prosecutor.auto_claim_splitting self
     then (claim_texts = [case_text]
           \/ Forall (fun c => c <> "" /\ strip c = c) claim_texts) /\
          before = match Prosecutor._llm self with
                   | Some llm => [asked_split self llm case_text]
                   | None => []
                   end
     else claim_texts = [case_text] /\ before = []) /\
    ProsecutorReport.case_id report = "" /\
    ProsecutorReport.original_text report = case_text /\
    ProsecutorReport.rejected report = false /\
    map Claim.text (ProsecutorReport.claims report) = claim_texts /\
    Forall claim_consistent (ProsecutorReport.claims report) /\
    ProsecutorReport.cache_hits report
    = len (filter is_cached (ProsecutorReport.claims report)) /\
    ProsecutorReport.precedents_found report = attached (ProsecutorReport.claims report) /\
    calls s' = (calls s ++ before ++ added)%list /\
    made "search_exact" added = len (ProsecutorReport.claims report) /\
    made "search_similar" added
    = (len (ProsecutorReport.claims report) - ProsecutorReport.cache_hits report)%Z /\
    len added = (made "search_exact" added + made "search_similar" added)%Z.
Proof.
  unfold prosecutor.process. intros E.
  apply bind_ret_inv in E as (claim_texts & s1 & Hsplit & E).
  apply bind_ret_inv in E as ([[] l] & s2 & Hloop & E).
  unfold with_locals in Hloop.
  destruct (process_loop self claim_texts (mkProcessLocals [] 0 0, s1))
    as [[[] | e |] [l2 s2']] eqn:El; try discriminate.
  injection Hloop as <- <-.
  apply process_loop_inv in El
    as (cs & added & Hcl & Hts & Hoks & Hhits & Hfound & Hcalls & Hexact & Hsimilar & Hlen).
  simpl in Hcl, Hhits, Hfound. cbn [snd] in E.
  unfold ProsecutorReport.new in E.
  rewrite (run_bind_ret _ _ _ _ _ (run_datetime_now s2')) in E.
  unfold ret in E. injection E as <- <-. cbn [calls].
  exists claim_texts,
         (if Prosecutor.auto_claim_splitting self
          then match Prosecutor._llm self with
               | Some llm => [asked_split self llm case_text]
               | None => []
               end
          else []), added.
  cbn [ProsecutorReport.case_id ProsecutorReport.original_text ProsecutorReport.rejected
       ProsecutorReport.claims ProsecutorReport.cache_hits
       ProsecutorReport.precedents_found].
  rewrite Hcl, Hhits, Hfound, Hcalls, Hsimilar, Hexact.
  assert (calls s1 = (calls s ++ if Prosecutor.auto_claim_splitting self
                                 then match Prosecutor._llm self with
                                      | Some llm => [asked_split self llm case_text]
                                      | None => []
                                      end
                                 else [])%list
          /\ if Prosecutor.auto_claim_splitting self
             then claim_texts = [case_text]
                  \/ Forall (fun c => c <> "" /\ strip c = c) claim_texts
             else claim_texts = [case_text]) as [Hc1 Htexts].
  { destruct (Prosecutor.auto_claim_splitting self).
    - destruct (split_into_claims_run self case_text s) as (t & s1' & Es & Ht & Hc).
      rewrite Es in Hsplit. injection Hsplit as -> ->. auto.
    - unfold ret in Hsplit. injection Hsplit as <- <-. now rewrite app_nil_r. }
  rewrite Hc1, <- app_assoc.
  split; [ destruct (Prosecutor.auto_claim_splitting self); auto | ].
  repeat split; auto; lia.
Qed.

(** X10. The tallies of a [ProsecutorReport] agree with its claims: there
    is one claim per claim text, in order (the whole case as the single
    claim when claim splitting is off); [cache_hits] is the number of
    claims marked [cache] and [precedents_found] the number of precedents
    attached to the claims; a [cache] claim carries the identifier and the
    verdict of the stored entry and no precedent, a [precedent] claim
    carries at least one precedent, a [new] claim carries nothing. The case
    identifier is left empty and the report is never marked rejected. *)
Theorem prosecutor_report_tallies (self : Prosecutor.t) (case_text : string)
    (s : St W) report s' :
  prosecutor.process self case_text s = (Ret report, s') ->
  ProsecutorReport.case_id report = "" /\
  ProsecutorReport.original_text report = case_text /\
  ProsecutorReport.rejected report = false /\
  Forall claim_consistent (ProsecutorReport.claims report) /\
  ProsecutorReport.cache_hits report
  = len (filter is_cached (ProsecutorReport.claims report)) /\
  ProsecutorReport.precedents_found report = attached (ProsecutorReport.claims report) /\
  (Prosecutor.auto_claim_splitting self = false ->
   map Claim.text (ProsecutorReport.claims report) = [case_text]).
Proof.
  intros E. apply process_inv in E
    as (texts & before & added & Hsplit & Hid & Htext & Hrej & Hts & Hoks & Hhits & Hfound & _).
  repeat split; auto.
  intros Hoff. rewrite Hoff in Hsplit. destruct Hsplit as [-> _]. exact Hts.
Qed.


(** X12. What preprocessing asks of its collaborators: at most one
    Reasoner call, made first and only when claim splitting is on, then
    store searches only -- one exact search per claim and one similarity
    search per claim that is not answered from the cache. *)
Theorem prosecutor_store_questions (self : Prosecutor.t) (case_text : string)
    (s : St W) report s' :
  prosecutor.process self case_text s = (Ret report, s') ->
  exists before added,
    calls s' = (calls s ++ before ++ added)%list /\
    before = (if Prosecutor.auto_claim_splitting self
              then match Prosecutor._llm self with
                   | Some llm => [asked_split self llm case_text]
                   | None => []
                   end
              else []) /\
    made "search_exact" added = len (ProsecutorReport.claims report) /\
    made "search_similar" added
    = (len (ProsecutorReport.claims report) - ProsecutorReport.cache_hits report)%Z /\
    len added = (made "search_exact" added + made "search_similar" added)%Z.
Proof.
  intros E. apply process_inv in E
    as (texts & before & added & Hsplit & _ & _ & _ & _ & _ & _ & _ & Hc & Hex & Hsim & Hlen).
  exists before, added. repeat split; auto.
  destruct (Prosecutor.auto_claim_splitting self); tauto.
Qed.
End report_properties.

Section report_examples.
Import scenario.

(** The case that splits into four claims, the first of which is stored:
    one cache hit, no precedent. *)
Lemma prosecutor_report_tallies_witness :
  exists report s',
    prosecutor.process splitting_prosecutor "A case." s0 = (Ret report, s') /\
    map Claim.source (ProsecutorReport.claims report) = [cache; new; new; new] /\
    ProsecutorReport.cache_hits report
    = len (filter is_cached (ProsecutorReport.claims report)) /\
    ProsecutorReport.cache_hits report = 1%Z /\
    ProsecutorReport.precedents_found report = 0%Z.
Proof.
  destruct (prosecutor.process splitting_prosecutor "A case." s0)
    as [[report | e |] s'] eqn:E; try (vm_compute in E; discriminate).
  exists report, s'. split; [ reflexivity | ].
  destruct (prosecutor_report_tallies splitting_prosecutor "A case." s0 report s' E)
    as (_ & _ & _ & _ & Hhits & Hfound & _).
  split; [ | split; [ exact Hhits | ] ];
    vm_compute in E; injection E as <- _; split; reflexivity.
Defined.

(** The same case costs one Reasoner call, four exact searches and three
    similarity searches. *)
Lemma prosecutor_store_questions_witness :
  exists report s' before added,
    prosecutor.process splitting_prosecutor "A case." s0 = (Ret report, s') /\
    calls s' = (calls s0 ++ before ++ added)%list /\
    len before = 1%Z /\
    made "search_exact" added = 4%Z /\
    made "search_similar" added = 3%Z /\
    len added = 7%Z.
Proof.
  destruct (prosecutor.process splitting_prosecutor "A case." s0)
    as [[report | e |] s'] eqn:E; try (vm_compute in E; discriminate).
  destruct (prosecutor_store_questions splitting_prosecutor "A case." s0 report s' E)
    as (before & added & Hc & Hb & Hex & Hsim & Hlen).
  exists report, s', before, added. split; [ reflexivity | ]. split; [ exact Hc | ].
  rewrite Hlen, Hsim, Hex, Hb.
  vm_compute in E. injection E as <- _. repeat split.
Defined.
End report_examples.

(* ================================================================= *)
(** ** The Court (court.py) *)

(** A court that differs from [self] in the rules it was given only. *)
Definition with_rules {J : Type} (self : Court.t J)
    (verdict_rules : option (list (string * json))) : Court.t J :=
  Court.mk (Court.prosecutor self) (Court.juries self) (Court.judge self) verdict_rules
           (Court.quorum self) (Court.concurrency_limit self).

(** What every result of a report satisfies: the statistics it stores are
    those of the votes it stores; a result answered from the cache has no
    votes and the stored verdict; a result of a jury trial has at least
    [quorum] votes, none of them an abstention, and a reasoning. *)
Definition result_consistent (quorum : Z) (r : ClaimResult.t) : Prop :=
  ClaimResult.calculate_objection_stats r = r /\
  (0 <= ClaimResult.objection_count r <= len (ClaimResult.jury_votes r))%Z /\
  (0 <= ClaimResult.objection_ratio r <= 1)%Q /\
  match Claim.source (ClaimResult.claim r) with
  | cache =>
      ClaimResult.jury_votes r = [] /\
      Claim.cached_verdict (ClaimResult.claim r) = Some (ClaimResult.verdict r)
  | _ =>
      (quorum <= len (ClaimResult.jury_votes r))%Z /\
      Forall (fun v => JuryVote.decision v <> abstain) (ClaimResult.jury_votes r) /\
      ClaimResult.judge_reasoning r <> ""
  end.

Lemma ratio_in_unit (k n : Z) :
  (0 <= k <= n)%Z -> (0 < n)%Z -> (0 <= inject_Z k / inject_Z n <= 1)%Q.
Proof.
  intros Hk Hn. destruct n as [ | p | p ]; try lia.
  unfold Qle, Qdiv, Qmult, Qinv, inject_Z. simpl. lia.
Qed.

Lemma len_filter_le {A : Type} (f : A -> bool) (l : list A) :
  (0 <= len (filter f l) <= len l)%Z.
Proof. unfold len. pose proof (filter_length_le f l). lia. Qed.

Section court_properties.
Context {W : Type} `{Sys W} `{BaseLLMProvider W} `{BaseReference W} `{BaseCourtCode W}
        `{Lib}.
Context {J : Type} `{Juror W J}.

Lemma hear_loop_with_rules (self : Court.t J) rules case_id domain claims ls :
  hear_loop (with_rules self rules) case_id domain claims ls
  = hear_loop self case_id domain claims ls.
Proof.
  revert ls. induction claims as [ | claim rest IH ]; intros ls; [ reflexivity | ].
  cbn [hear_loop]. unfold bind.
  change (hear_claim (with_rules self rules) case_id domain claim ls)
    with (hear_claim self case_id domain claim ls).
  destruct (hear_claim self case_id domain claim ls) as [[[ | ] | e |] ls1];
    try reflexivity. apply IH.
Qed.

(** X13. The [verdict_rules] argument of the Court is stored and never
    read: two courts that differ in it only conduct every trial alike, in
    every state. The rules that decide are those of the Judge. *)
Theorem court_ignores_verdict_rules (self : Court.t J)
    (verdict_rules : option (list (string * json))) (case_text domain : string)
    (s : St W) :
  Court.verdict_rules (with_rules self verdict_rules) = verdict_rules /\
  hear (with_rules self verdict_rules) case_text domain s = hear self case_text domain s.
Proof.
  split; [ reflexivity | ].
  destruct (prosecutor.process (Court.prosecutor self) case_text s)
    as [[report | e |] sa] eqn:Hp.
  - rewrite (run_hear self case_text domain s report sa Hp).
    rewrite (run_hear (with_rules self verdict_rules) case_text domain s report sa Hp).
    cbv zeta. now rewrite hear_loop_with_rules.
  - unfold hear.
    change (Court.prosecutor (with_rules self verdict_rules)) with (Court.prosecutor self).
    now rewrite !(run_bind_raise _ _ _ _ _ Hp).
  - unfold hear.
    change (Court.prosecutor (with_rules self verdict_rules)) with (Court.prosecutor self).
    now rewrite !(run_bind_hang _ _ _ _ Hp).
Qed.

Lemma judge_verdict_text (self : Judge.t) claim votes precedents (s : St W) r s' :
  judge.verdict self claim votes precedents s = (Ret r, s') ->
  ClaimResult.judge_reasoning r <> "".
Proof.
  destruct (calculate_verdict (ratio_of votes) (Judge.verdict_rules self)) as [e0 | v] eqn:Ev.
  - unfold judge.verdict. rewrite filter_is_objection. fold (ratio_of votes).
    rewrite Ev. discriminate.
  - rewrite (judge_verdict_run self claim votes precedents s v Ev).
    destruct (generate_reasoning_result self claim votes precedents v (ratio_of votes) s)
      as (reasoning & s1 & p & E & _ & Htruthy & _).
    rewrite (run_bind_ret _ _ _ _ _ E), run_ClaimResult_new.
    destruct reasoning; try discriminate. intros Er. injection Er as <- _.
    cbn [ClaimResult.judge_reasoning]. intros ->. discriminate.
Qed.

Lemma stats_fixed (claim : Claim.t) votes verdict reasoning timestamp :
  ClaimResult.calculate_objection_stats
    (ClaimResult.mk claim votes verdict reasoning (len (objecting votes))
                    (ratio_of votes) timestamp)
  = ClaimResult.mk claim votes verdict reasoning (len (objecting votes))
                   (ratio_of votes) timestamp.
Proof.
  unfold ClaimResult.calculate_objection_stats, ratio_of. cbn.
  rewrite filter_is_objection. now destruct votes.
Qed.

Lemma ratio_of_in_unit (votes : list JuryVote.t) : (0 <= ratio_of votes <= 1)%Q.
Proof.
  unfold ratio_of. destruct votes as [ | v rest ]; [ split; discriminate | ].
  rewrite <- filter_is_objection. apply ratio_in_unit; [ apply len_filter_le | ].
  unfold len. simpl. lia.
Qed.

(** A result the Judge returns for votes that passed the quorum test. *)
Lemma judge_result_consistent (self : Judge.t) claim votes precedents (s : St W) r s' q :
  judge.verdict self claim votes precedents s = (Ret r, s') ->
  Claim.source claim <> cache ->
  (q <= len votes)%Z -> Forall (fun v => JuryVote.decision v <> abstain) votes ->
  result_consistent q r.
Proof.
  intros E Hsrc Hq Habs.
  pose proof (judge_verdict_text _ _ _ _ _ _ _ E) as Htext.
  destruct (judge_verdict_inv _ _ _ _ _ _ _ E) as (Hc & Hv & Hcount & Hratio & _).
  fold (ratio_of votes) in Hratio.
  destruct r as [c jv vd jr oc ora ts]. simpl in *. subst c jv oc ora.
  unfold result_consistent. cbn.
  split; [ apply stats_fixed | ].
  split; [ rewrite <- filter_is_objection; apply len_filter_le | ].
  split; [ apply ratio_of_in_unit | ].
  destruct (Claim.source claim); try congruence; auto.
Qed.

Lemma conduct_jury_trial_inv (self : Court.t J) (claim : Claim.t) (s : St W) r s' :
  _conduct_jury_trial self claim s = (Ret (Some r), s') ->
  exists votes s1,
    run_with_concurrency_limit (map (get_vote claim) (Court.juries self))
                               (Court.concurrency_limit self) s = (Ret votes, s1) /\
    (Court.quorum self <= len (successful votes))%Z /\
    judge.verdict (Court.judge self) claim (successful votes)
                  (if Source_eqb (Claim.source claim) precedent
                   then Some (Claim.precedents claim) else None) s1 = (Ret r, s').
Proof.
  unfold _conduct_jury_trial. intros E.
  apply bind_ret_inv in E as (votes & s1 & Hvotes & E). exists votes, s1.
  destruct (Z.ltb_spec (len (successful votes)) (Court.quorum self)); [ discriminate | ].
  apply bind_ret_inv in E as (result & s2 & Hj & E).
  unfold ret in E. injection E as -> ->. auto.
Qed.

(** The result a turn of the loop appends. *)
Lemma appended_result_consistent (self : Court.t J) case_id domain claim l (s : St W) r s1 :
  hear_claim_try self case_id domain claim (l, s) = (Ret Next, (add_result l r, s1)) ->
  result_consistent (Court.quorum self) r.
Proof.
  destruct (Source_eqb (Claim.source claim) cache) eqn:Hsrc.
  - apply Source_eqb_eq in Hsrc. rewrite hear_claim_try_cache by exact Hsrc.
    destruct (ClaimResult.new claim [] _ _ 0 0 s) as [[r0 | e |] s0] eqn:En;
      intros E; try discriminate.
    injection E as E _. apply app_inj_tail in E as [_ E]. subst r0.
    apply ClaimResult_new_inv in En as (Hc & Hv & Hverdict & _ & Hcount & Hratio & _).
    destruct r as [c jv vd jr oc ora ts]. simpl in *. subst c jv oc ora.
    unfold result_consistent. cbn. rewrite Hsrc.
    repeat split; try discriminate; try reflexivity.
    destruct (Claim.cached_verdict claim); simpl in Hverdict; congruence.
  - assert (Claim.source claim <> cache) as Hne
        by (intros Hc; apply Source_eqb_eq in Hc; congruence).
    rewrite hear_claim_try_trial by exact Hne.
    destruct (_conduct_jury_trial self claim s) as [[[r0 |] | e |] s0] eqn:Ec;
      intros E; try discriminate.
    injection E as E _. apply app_inj_tail in E as [_ E]. subst r0.
    apply conduct_jury_trial_inv in Ec as (votes & s2 & _ & Hq & Hj).
    eapply judge_result_consistent; eauto using successful_no_abstain.
Qed.

Lemma trial_run_results (self : Court.t J) case_id domain claims ls events ls' :
  trial_run self case_id domain claims ls events ls' ->
  Forall (result_consistent (Court.quorum self)) (decided events).
Proof.
  induction 1 as [ ls | claim rest l s r s1 events ls2 Hstep _ _ IH
                 | claim rest l s e s1 events ls2 _ _ IH
                 | claim rest l s s1 _ _ ]; simpl; auto.
  constructor; [ | exact IH ]. eapply appended_result_consistent. exact Hstep.
Qed.

(** X14. Every claim result of a report that [hear] returns is
    consistent: recomputing its objection statistics from its votes
    changes nothing, the count lies between 0 and the number of votes and
    the ratio between 0 and 1; a result for a claim answered from the
    cache has no votes and the verdict stored with the claim; a result of
    a jury trial has at least [quorum] votes, none of them an abstention,
    and a non-empty reasoning. *)
Theorem hear_results_consistent (self : Court.t J) (case_text domain : string)
    (s : St W) r s' :
  hear self case_text domain s = (Ret r, s') ->
  Forall (result_consistent (Court.quorum self)) (CaseReport.claims r) /\
  CaseReport.case_text r = case_text /\ CaseReport.domain r = domain /\
  CaseReport.overall_verdict r = None.
Proof.
  intros E.
  assert (exists report sa,
             prosecutor.process (Court.prosecutor self) case_text s = (Ret report, sa))
    as (report & sa & Hp).
  { unfold hear in E. apply bind_ret_inv in E as (report & sa & Hp & _). eauto. }
  rewrite (run_hear self case_text domain s report sa Hp) in E. simpl in E.
  destruct (hear_loop self (fst (sys_uuid4 (world sa))) domain
              (ProsecutorReport.claims report)
              (initial_locals, mkSt (snd (sys_uuid4 (world sa))) (calls sa)))
    as [[[] | e |] [l sc]] eqn:Hloop; try discriminate.
  apply hear_loop_trial_run in Hloop as (events & Hrun).
  destruct (trial_run_locals _ _ _ _ _ _ _ Hrun) as (Hres & _).
  simpl in Hres, E. rewrite run_CaseReport_new in E. injection E as <- _.
  simpl. rewrite Hres. repeat split. eapply trial_run_results. exact Hrun.
Qed.

(** The entry [_record_verdict] hands to the store for a result. *)
Definition recorded_entry (claim_result : ClaimResult.t) (case_id domain : string)
    (w : W) : CourtCodeEntry.t :=
  CourtCodeEntry.mk (fst (sys_uuid4 w))
    (Claim.text (ClaimResult.claim claim_result))
    (ClaimResult.verdict claim_result)
    (ClaimResult.judge_reasoning claim_result)
    domain case_id
    (fst (sys_now (snd (sys_uuid4 w))))
    None None
    (len (ClaimResult.jury_votes claim_result))
    (ClaimResult.objection_count claim_result)
    (ClaimResult.objection_ratio claim_result) [].

Lemma run_record_verdict (self : Court.t J) claim_result case_id domain (s : St W) :
  let entry := recorded_entry claim_result case_id domain (world s) in
  _record_verdict self claim_result case_id domain s
  = (Ret tt,
     mkSt (snd (add_entry (Prosecutor.court_code (Court.prosecutor self)) entry
                          (snd (sys_now (snd (sys_uuid4 (world s)))))))
          (calls s ++ [mkCall (db_path (Prosecutor.court_code (Court.prosecutor self)))
                              "add_entry"
                              [JStr (CourtCodeEntry.entry_id entry);
                               JStr (CourtCodeEntry.claim entry);
                               JStr (CourtCodeEntry.verdict entry)]])).
Proof.
  intros entry. subst entry. unfold recorded_entry.
  unfold _record_verdict, CourtCodeEntry.new, generate_id, try_except.
  unfold bind at 1. unfold bind at 1. rewrite run_uuid4.
  unfold bind at 1. rewrite run_datetime_now. cbn [world calls fst snd]. unfold ret at 1.
  unfold bind, await_add_entry, await_call. cbn [world calls].
  match goal with
  | |- context [add_entry ?c ?e ?w] => destruct (add_entry c e w) as [[e0 | id] w0]
  end; reflexivity.
Qed.

End court_properties.

Section court_examples.
Import scenario.

(** The end-to-end scenario: a cached result and a jury result, both
    consistent with the quorum of three. *)
Lemma hear_results_consistent_witness :
  exists r s',
    hear scenario_court "A case." "fact_check" s0 = (Ret r, s') /\
    Forall (result_consistent 3) (CaseReport.claims r) /\
    CaseReport.case_text r = "A case." /\ CaseReport.domain r = "fact_check".
Proof.
  destruct (hear scenario_court "A case." "fact_check" s0) as [[r | e |] s'] eqn:E;
    try (vm_compute in E; discriminate).
  exists r, s'. split; [ reflexivity | ].
  destruct (hear_results_consistent scenario_court "A case." "fact_check" s0 r s' E)
    as (Hres & Htext & Hdomain & _).
  auto.
Defined.

End court_examples.

(* ================================================================= *)
(** ** The provider registry (llm/factory.py) *)

Lemma insert_sorted_In (x y : string) (l : list string) :
  In y (insert_sorted x l) <-> y = x \/ In y l.
Proof.
  induction l as [ | z l IH ]; simpl; [ intuition | ].
  destruct (String.leb x z); simpl; rewrite ?IH; intuition.
Qed.

Lemma sorted_In (y : string) (l : list string) : In y (sorted l) <-> In y l.
Proof.
  induction l as [ | x l IH ]; simpl; [ tauto | ].
  rewrite insert_sorted_In, IH. intuition.
Qed.

(** Neighbours are in order. *)
Fixpoint ascending (l : list string) : Prop :=
  match l with
  | x :: (y :: _) as rest => String.leb x y = true /\ ascending rest
  | _ => True
  end.

Lemma insert_sorted_ascending (x : string) (l : list string) :
  ascending l -> ascending (insert_sorted x l).
Proof.
  induction l as [ | y l IH ]; intros Hl; [ exact I | ]. simpl.
  destruct (String.leb x y) eqn:E; [ now split | ].
  assert (String.leb y x = true) as Hyx
      by (destruct (String.leb_total x y); congruence).
  destruct l as [ | z l ]; [ now split | ].
  destruct Hl as [Hyz Hl]. specialize (IH Hl). simpl in *.
  destruct (String.leb x z); simpl; auto.
Qed.

Lemma sorted_ascending (l : list string) : ascending (sorted l).
Proof.
  induction l as [ | x l IH ]; [ exact I | ]. simpl. now apply insert_sorted_ascending.
Qed.

Lemma lower_idempotent (s : string) : lower (lower s) = lower s.
Proof.
  induction s as [ | c s IH ]; [ reflexivity | ]. simpl. rewrite IH. f_equal.
  unfold lower_ascii.
  destruct ((65 <=? nat_of_ascii c)%nat && (nat_of_ascii c <=? 90)%nat) eqn:E;
    [ | now rewrite E ].
  apply andb_true_iff in E as [E1 E2]. apply Nat.leb_le in E1, E2.
  rewrite nat_ascii_embedding by lia.
  destruct (Nat.leb_spec (nat_of_ascii c + 32) 90); [ lia | ].
  now rewrite andb_false_r.
Qed.

Lemma lower_empty (s : string) : lower s = "" <-> s = "".
Proof. destruct s; simpl; split; congruence. Qed.

Lemma assoc_filter_out {A : Type} (k : string) (keep : string -> bool)
    (d : list (string * A)) :
  keep k = false -> assoc k (filter (fun kv => keep (fst kv)) d) = None.
Proof.
  intros Hk. induction d as [ | [k' v] d IH ]; simpl; [ reflexivity | ].
  destruct (keep k') eqn:E; simpl; [ | exact IH ].
  destruct (String.eqb_spec k k'); [ congruence | exact IH ].
Qed.

Lemma filter_dict_set_out {A : Type} (k : string) (v : A) (keep : string -> bool)
    (d : list (string * A)) :
  keep k = false ->
  filter (fun kv => keep (fst kv)) (dict_set k v d) = filter (fun kv => keep (fst kv)) d.
Proof.
  intros Hk. induction d as [ | [k' v'] d IH ]; simpl; [ now rewrite Hk | ].
  destruct (String.eqb_spec k k') as [-> | Hne]; simpl.
  - now rewrite Hk.
  - now rewrite IH.
Qed.

Section registry_properties.
Context {W : Type} `{BaseLLMProvider W}.

(** The keyword arguments the factory builds for a configuration. *)
Definition params_of (config : list (string * json)) : list (string * json) :=
  (filter (fun kv => negb (is_null (snd kv)))
          [ ("model_name", dict_get config "model_name" JNull);
            ("api_key", dict_get config "api_key" JNull);
            ("base_url", dict_get config "base_url" JNull);
            ("temperature", dict_get config "temperature" (JNum (7 # 10)));
            ("max_tokens", dict_get config "max_tokens" JNull);
            ("timeout", dict_get config "timeout" (JNum 60)) ]
   ++ filter (fun kv => negb (str_in (fst kv)
                ["provider"; "model_name"; "api_key"; "base_url";
                 "temperature"; "max_tokens"; "timeout"])) config)%list.

(** The model name reaches the provider exactly when the configuration
    has one that is not [None]. *)
Lemma params_model_name (config : list (string * json)) :
  assoc "model_name" (params_of config)
  = match assoc "model_name" config with
    | Some JNull | None => None
    | Some m => Some m
    end.
Proof.
  unfold params_of, dict_get.
  pose proof (assoc_filter_out (A := json) "model_name"
                (fun k => negb (str_in k ["provider"; "model_name"; "api_key"; "base_url";
                                          "temperature"; "max_tokens"; "timeout"]))
                config eq_refl) as Hextra.
  assert (forall d : list (string * json),
             assoc "model_name"
                   (filter (fun kv => negb (is_null (snd kv)))
                           [ ("api_key", match assoc "api_key" config with
                                         | Some v => v | None => JNull end);
                             ("base_url", match assoc "base_url" config with
                                          | Some v => v | None => JNull end);
                             ("temperature", match assoc "temperature" config with
                                             | Some v => v | None => JNum (7 # 10) end);
                             ("max_tokens", match assoc "max_tokens" config with
                                            | Some v => v | None => JNull end);
                             ("timeout", match assoc "timeout" config with
                                         | Some v => v | None => JNum 60 end) ] ++ d)
             = assoc "model_name" d) as Hrest.
  { intros d. cbn [filter snd].
    repeat match goal with
           | |- context [if negb (is_null ?v) then _ else _] => destruct (negb (is_null v))
           end; reflexivity. }
  destruct (assoc "model_name" config) as [m |]; cbn [filter snd].
  - destruct m; cbn [is_null negb app assoc String.eqb Ascii.eqb Bool.eqb];
      try reflexivity.
    rewrite Hrest. exact Hextra.
  - cbn [is_null negb]. rewrite Hrest. exact Hextra.
Qed.

(** The factory, read through the keyword arguments. *)
Lemma create_llm_provider_from_run (registry : list (string * string))
    (config : list (string * json)) (name : string) :
  assoc "provider" config = Some (JStr name) -> name <> "" ->
  create_llm_provider_from registry config
  = match assoc (lower name) registry with
    | None =>
        inl (ValueError ("Unknown provider: " ++ lower name ++ ". Available providers: "
                         ++ join ", " (map fst registry)))
    | Some provider_class =>
        match assoc "model_name" (params_of config) with
        | None => inl (ValueError "Config must include 'model_name' field")
        | Some _ =>
            match provider_init_error provider_class (params_of config) with
            | Some e =>
                inl (RuntimeError ("Failed to create provider '" ++ lower name
                                   ++ "': " ++ str_exn e))
            | None => inr (mkLLMProvider provider_class (params_of config))
            end
        end
    end.
Proof.
  intros Hp Hne. unfold create_llm_provider_from, dict_get at 1 2. rewrite Hp.
  cbn [truthy]. destruct (String.eqb_spec name ""); [ contradiction | ].
  reflexivity.
Qed.

Lemma params_of_dict_set_provider (config : list (string * json)) (v : json) :
  params_of (dict_set "provider" v config) = params_of config.
Proof.
  unfold params_of, dict_get.
  rewrite !assoc_dict_set_other by discriminate.
  f_equal.
  apply (filter_dict_set_out "provider" v
           (fun k => negb (str_in k ["provider"; "model_name"; "api_key"; "base_url";
                                     "temperature"; "max_tokens"; "timeout"]))).
  reflexivity.
Qed.

(** X16. How the factory resolves a provider. The registry it uses at
    import time is the built-in one. A provider is created exactly for a
    configuration whose provider name, lowercased, is registered -- that
    is, listed by [list_providers], which lists the registered names in
    ascending order -- and whose model name is present and not [None];
    the provider then is of the registered class and receives that model
    name. A name that is not registered gives the [Unknown provider]
    error. And the letter case of the provider name does not matter. *)
Theorem provider_resolution (registry : list (string * string))
    (config : list (string * json)) (name : string) :
  create_llm_provider config = create_llm_provider_from _PROVIDER_REGISTRY config /\
  ascending (list_providers registry) /\
  (forall k, In k (list_providers registry) <-> In k (map fst registry)) /\
  (forall p,
      create_llm_provider_from registry config = inr p ->
      exists given m,
        assoc "provider" config = Some (JStr given) /\ given <> "" /\
        In (lower given) (list_providers registry) /\
        assoc (lower given) registry = Some (provider_class p) /\
        assoc "model_name" config = Some m /\ m <> JNull /\
        assoc "model_name" (provider_params p) = Some m) /\
  (assoc "provider" config = Some (JStr name) -> name <> "" ->
   (~ In (lower name) (list_providers registry)
    <-> create_llm_provider_from registry config
        = inl (ValueError ("Unknown provider: " ++ lower name
                           ++ ". Available providers: "
                           ++ join ", " (map fst registry)))) /\
   (forall alias, lower alias = lower name ->
      create_llm_provider_from registry (dict_set "provider" (JStr alias) config)
      = create_llm_provider_from registry config)).
Proof.
  assert (forall k, In k (list_providers registry) <-> In k (map fst registry)) as Hlist
      by (intro; apply sorted_In).
  split; [ reflexivity | ]. split; [ apply sorted_ascending | ]. split; [ exact Hlist | ].
  split.
  - intros p E.
    destruct (assoc "provider" config) as [given |] eqn:Hp;
      [ | unfold create_llm_provider_from, dict_get in E; rewrite Hp in E; discriminate ].
    destruct given as [ | | | given | | ];
      try (unfold create_llm_provider_from, dict_get in E; rewrite Hp in E;
           cbn [truthy negb] in E;
           repeat match type of E with
                  | (if ?b then _ else _) = _ => destruct b
                  end; discriminate).
    destruct (String.eqb_spec given "") as [-> | Hne];
      [ unfold create_llm_provider_from, dict_get in E; rewrite Hp in E; discriminate | ].
    rewrite (create_llm_provider_from_run registry config given Hp Hne) in E.
    destruct (assoc (lower given) registry) as [cls |] eqn:Hreg; [ | discriminate ].
    pose proof (params_model_name config) as Hm.
    destruct (assoc "model_name" (params_of config)) as [m |] eqn:Hpm; [ | discriminate ].
    destruct (provider_init_error cls (params_of config)); [ discriminate | ].
    injection E as <-. cbn [provider_class provider_params].
    exists given, m. rewrite Hlist.
    assert (In (lower given) (map fst registry)) as Hin.
    { destruct (in_dec string_dec (lower given) (map fst registry)) as [Hin | Hout];
        [ exact Hin | ].
      apply assoc_None_not_In in Hout. congruence. }
    destruct (assoc "model_name" config) as [m0 |]; [ | discriminate ].
    assert (m0 = m /\ m <> JNull) as [-> Hnull]
        by (destruct m0; try discriminate; injection Hm as ->;
            (split; [ reflexivity | discriminate ])).
    repeat split; auto.
  - intros Hp Hne. split.
    + rewrite Hlist, <- assoc_None_not_In.
      rewrite (create_llm_provider_from_run registry config name Hp Hne).
      destruct (assoc (lower name) registry) as [cls |]; split; try easy.
      destruct (assoc "model_name" (params_of config)); [ | discriminate ].
      destruct (provider_init_error cls (params_of config)); discriminate.
    + intros alias Halias.
      assert (alias <> "") as Hane.
      { intros ->. apply Hne. apply lower_empty. now rewrite <- Halias. }
      rewrite (create_llm_provider_from_run registry config name Hp Hne).
      rewrite (create_llm_provider_from_run registry _ alias
                 (assoc_dict_set_same "provider" (JStr alias) config) Hane).
      now rewrite Halias, params_of_dict_set_provider.
Qed.

(** X17. Registering a provider class and asking for it. A class that
    does not derive from [BaseLLMProvider] is refused with a [TypeError].
    Otherwise the class is filed under the lowercased name, replacing what
    was filed there and nothing else: the names listed afterwards are the
    new name and those listed before, and a provider created afterwards
    for that name, in any letter case, is of the registered class. *)
Theorem register_provider_round_trip (name : string) (cls : ProviderClass)
    (registry : list (string * string)) :
  (is_llm_provider cls = false ->
   register_provider name cls registry
   = inl (TypeError ("Provider class must inherit from BaseLLMProvider, got "
                     ++ class_name cls))) /\
  (is_llm_provider cls = true ->
   exists registry',
     register_provider name cls registry = inr registry' /\
     assoc (lower name) registry' = Some (class_name cls) /\
     (forall k, k <> lower name -> assoc k registry' = assoc k registry) /\
     (forall k, In k (list_providers registry')
                <-> k = lower name \/ In k (list_providers registry)) /\
     (forall config alias p,
         assoc "provider" config = Some (JStr alias) -> lower alias = lower name ->
         create_llm_provider_from registry' config = inr p ->
         provider_class p = class_name cls)).
Proof.
  unfold register_provider. split; intros Hcls; rewrite Hcls; [ reflexivity | ].
  cbn [negb]. eexists. split; [ reflexivity | ].
  split; [ apply assoc_dict_set_same | ].
  split; [ intros k Hk; now apply assoc_dict_set_other | ].
  split.
  - intros k. unfold list_providers. rewrite !sorted_In, keys_dict_set.
    destruct (assoc (lower name) registry) eqn:E.
    + split; [ tauto | ]. intros [-> | Hin]; [ | exact Hin ].
      destruct (in_dec string_dec (lower name) (map fst registry)) as [Hin | Hout];
        [ exact Hin | ].
      apply assoc_None_not_In in Hout. congruence.
    + rewrite in_app_iff. simpl. intuition.
  - intros config alias p Hp Halias E.
    assert (alias <> "") as Hane.
    { intros ->. unfold create_llm_provider_from, dict_get in E. rewrite Hp in E.
      discriminate. }
    rewrite (create_llm_provider_from_run _ config alias Hp Hane) in E.
    rewrite Halias, assoc_dict_set_same in E.
    destruct (assoc "model_name" (params_of config)); [ | discriminate ].
    destruct (provider_init_error (class_name cls) (params_of config)); [ discriminate | ].
    now injection E as <-.
Qed.
End registry_properties.

(** ** The store on SQLite and a vector collection (code/sqlite_code.py) *)

(** A list of precedents in the order of decreasing similarity. *)
Fixpoint descending (l : list Precedent.t) : Prop :=
  match l with
  | [] => True
  | p :: rest =>
      Forall (fun q => (Precedent.similarity_score q <= Precedent.similarity_score p)%Q) rest
      /\ descending rest
  end.

Lemma Qlt_bool_true (x y : Q) : Qlt_bool x y = true -> (x <= y)%Q.
Proof.
  unfold Qlt_bool. intros E. apply negb_true_iff in E.
  apply Qlt_le_weak, Qnot_le_lt. intros Hle. apply Qle_bool_iff in Hle. congruence.
Qed.

Lemma Qlt_bool_false (x y : Q) : Qlt_bool x y = false -> (y <= x)%Q.
Proof. unfold Qlt_bool. intros E. apply negb_false_iff in E. now apply Qle_bool_iff. Qed.

Lemma insert_by_similarity_In (p q : Precedent.t) (l : list Precedent.t) :
  In q (sqlite_code.insert_by_similarity p l) <-> q = p \/ In q l.
Proof.
  induction l as [ | p' rest IH ]; simpl.
  - intuition.
  - destruct (Qlt_bool _ _); simpl; [ rewrite IH | ]; intuition.
Qed.

Lemma insert_by_similarity_descending (p : Precedent.t) (l : list Precedent.t) :
  descending l -> descending (sqlite_code.insert_by_similarity p l).
Proof.
  induction l as [ | p' rest IH ]; simpl.
  - intros _. split; [ constructor | exact I ].
  - intros [Hall Hrest].
    destruct (Qlt_bool _ _) eqn:Hlt; simpl.
    + split; [ | apply IH, Hrest ].
      apply Forall_forall. intros q Hq. apply insert_by_similarity_In in Hq as [-> | Hq].
      * apply Qlt_bool_true, Hlt.
      * rewrite Forall_forall in Hall. apply Hall, Hq.
    + apply Qlt_bool_false in Hlt. rename Hlt into Hle.
      split; [ | split; assumption ].
      constructor; [ exact Hle | ].
      rewrite Forall_forall in *. intros q Hq. eapply Qle_trans; [ apply Hall, Hq | exact Hle ].
Qed.

Lemma sort_by_similarity_In (q : Precedent.t) (l : list Precedent.t) :
  In q (sqlite_code.sort_by_similarity l) <-> In q l.
Proof.
  induction l as [ | p rest IH ]; simpl; [ reflexivity | ].
  rewrite insert_by_similarity_In, IH. intuition.
Qed.

Lemma sort_by_similarity_descending (l : list Precedent.t) :
  descending (sqlite_code.sort_by_similarity l).
Proof.
  induction l as [ | p rest IH ]; simpl; [ exact I | ].
  now apply insert_by_similarity_descending.
Qed.

Lemma In_prefix {A : Type} (n : nat) (l : list A) (x : A) : In x (firstn n l) -> In x l.
Proof.
  revert n. induction l as [ | a rest IH ]; intros [ | n ]; simpl; try tauto.
  intros [-> | Hx]; [ now left | right; exact (IH _ Hx) ].
Qed.

Lemma firstn_descending (n : nat) (l : list Precedent.t) :
  descending l -> descending (firstn n l).
Proof.
  revert n. induction l as [ | p rest IH ]; intros [ | n ]; simpl; auto.
  intros [Hall Hrest]. split; [ | apply IH, Hrest ].
  rewrite Forall_forall in *. intros q Hq. apply Hall. eapply In_prefix, Hq.
Qed.

Lemma list_upto_descending (k : Z) (l : list Precedent.t) :
  descending l -> descending (list_upto k l).
Proof. unfold list_upto. destruct (k <? 0)%Z; apply firstn_descending. Qed.

Lemma list_upto_In {A : Type} (k : Z) (l : list A) (x : A) :
  In x (list_upto k l) -> In x l.
Proof. unfold list_upto. destruct (k <? 0)%Z; apply In_prefix. Qed.

Lemma len_list_upto {A : Type} (k : Z) (l : list A) :
  (0 <= k -> len (list_upto k l) <= k)%Z.
Proof.
  intros Hk. unfold list_upto, len.
  destruct (k <? 0)%Z eqn:E; [ apply Z.ltb_lt in E; lia | ].
  pose proof (firstn_le_length (Z.to_nat k) l). lia.
Qed.

(** The similarities computed from a list of distances. *)
Lemma similarities_of_In (distances : list Q) (l : list Q) (x : Q) :
  sqlite_code.similarities_of distances = inr l -> In x l ->
  exists dist, In dist distances /\ ~ (1 + dist == 0)%Q /\ x = (1 / (1 + dist))%Q.
Proof.
  revert l. induction distances as [ | d rest IH ]; simpl; intros l E Hx.
  - injection E as <-. destruct Hx.
  - destruct (Qeq_bool (1 + d) 0) eqn:Hz; [ discriminate | ].
    destruct (sqlite_code.similarities_of rest) as [ e | l' ]; [ discriminate | ].
    injection E as <-. destruct Hx as [<- | Hx].
    + exists d. split; [ now left | ]. split; [ | reflexivity ].
      intros Heq. apply Qeq_bool_iff in Heq. congruence.
    + destruct (IH l' eq_refl Hx) as (dist & Hin & Hnz & ->). exists dist. auto.
Qed.

Lemma made_none (method other : string) (log : list call) :
  Forall (fun c => call_method c = other) log -> String.eqb other method = false ->
  made method log = 0%Z.
Proof.
  intros Hlog Hne. unfold made, len.
  induction Hlog as [ | c log Hc _ IH ]; simpl; [ reflexivity | ].
  rewrite Hc, Hne. exact IH.
Qed.

(** The part of a statement on a search result that holds of the empty
    result for lack of elements. *)
Ltac found_nothing :=
  split; [ reflexivity | ];
  split; [ first [ discriminate | intros _; split; reflexivity ] | ];
  split; [ intros; unfold len; simpl; lia | ];
  split; [ exact I | ];
  split; [ constructor | ];
  split; [ intros ? [] | ];
  split; [ intros; reflexivity | ];
  split; [ intros; reflexivity | ].

Section sqlite_store.
Import sqlite_code sqlite_code.SqliteCourtCode.
Context {W : Type} `{Sqlite3 W} `{Collection W}.

Lemma run_await_call {A : Type} c (f : W -> (exn + A) * W) (s : St W) :
  await_call c f s
  = (match fst (f (world s)) with inl e => Raise e | inr a => Ret a end,
     mkSt (snd (f (world s))) (calls s ++ [c])%list).
Proof. unfold await_call. now destruct (f (world s)) as [[e | a] w]. Qed.

(** A guarded call on the collection returns, whatever the collection
    answers. *)
Lemma run_guarded c (f : W -> (exn + unit) * W) (s : St W) :
  try_except (await_call c f) (fun _ => ret tt) s
  = (Ret tt, mkSt (snd (f (world s))) (calls s ++ [c])%list).
Proof.
  unfold try_except. rewrite run_await_call.
  now destruct (fst (f (world s))) as [ e | [] ].
Qed.

Lemma answers_fetch_loop self candidates threshold precedents :
  answers (fetch_loop self candidates threshold precedents).
Proof.
  revert precedents. induction candidates as [ | [entry_id similarity] rest IH ];
    intros precedents; simpl.
  - outcomes.
  - destruct (Qlt_bool similarity threshold); [ apply IH | ].
    apply answers_bind; [ apply answers_await_call | intros [ entry | ]; apply IH ].
Qed.

(** The loop only looks entries up, at most once for each candidate. *)
Lemma fetch_loop_calls self candidates threshold precedents (s : St W) :
  exists log,
    calls (snd (fetch_loop self candidates threshold precedents s)) = (calls s ++ log)%list /\
    Forall (fun c => call_method c = "select") log /\
    (length log <= length candidates)%nat.
Proof.
  revert precedents s. induction candidates as [ | [entry_id similarity] rest IH ];
    intros precedents s; simpl.
  - exists []. rewrite app_nil_r. auto.
  - destruct (Qlt_bool similarity threshold).
    + destruct (IH precedents s) as (log & Hcalls & Hsel & Hlen). exists log. auto.
    + unfold bind. rewrite run_await_call.
      set (c := mkCall (db_path self) "select" [JStr entry_id]).
      set (s1 := mkSt _ _).
      assert (forall acc, exists log,
                 calls (snd (fetch_loop self rest threshold acc s1))
                 = (calls s ++ c :: log)%list /\
                 Forall (fun c => call_method c = "select") log /\
                 (length log <= length rest)%nat) as Hrest.
      { intros acc. destruct (IH acc s1) as (log & Hcalls & Hsel & Hlen).
        exists log. rewrite Hcalls. unfold s1. cbn [calls]. rewrite <- app_assoc. auto. }
      destruct (fst (sql_select_by_id (db_path self) entry_id (world s))) as [ e | [ entry | ] ].
      * exists [c]. simpl. repeat split; auto. lia.
      * destruct (Hrest (precedents
                          ++ [Precedent.mk (CourtCodeEntry.entry_id entry)
                                (CourtCodeEntry.claim entry) (CourtCodeEntry.verdict entry)
                                (CourtCodeEntry.reasoning entry) similarity
                                (CourtCodeEntry.timestamp entry)
                                (CourtCodeEntry.valid_from entry)
                                (CourtCodeEntry.valid_until entry)])%list)
          as (log & Hcalls & Hsel & Hlen).
        exists (c :: log). simpl. repeat split; auto. lia.
      * destruct (Hrest precedents) as (log & Hcalls & Hsel & Hlen).
        exists (c :: log). simpl. repeat split; auto. lia.
Qed.

(** What the loop adds: precedents at or above the threshold, whose
    similarities are among those of the candidates, at most one for each
    candidate; and it only looks entries up. *)
Lemma fetch_loop_inv self candidates threshold precedents (s : St W) r s' :
  fetch_loop self candidates threshold precedents s = (Ret r, s') ->
  exists new,
    r = (precedents ++ new)%list /\
    Forall (fun p => (threshold <= Precedent.similarity_score p)%Q
                     /\ In (Precedent.similarity_score p) (map snd candidates)) new /\
    (length new <= length candidates)%nat.
Proof.
  revert precedents s. induction candidates as [ | [entry_id similarity] rest IH ];
    intros precedents s E; simpl in E.
  - unfold ret in E. injection E as <- <-. exists [].
    rewrite !app_nil_r. repeat split; auto.
  - destruct (Qlt_bool similarity threshold) eqn:Hlt.
    + destruct (IH _ _ E) as (new & -> & Hnew & Hlen).
      exists new. split; [ reflexivity | ]. split.
      { eapply Forall_impl; [ | exact Hnew ]. simpl. intros p [Hp Hin]. auto. }
      simpl. lia.
    + apply Qlt_bool_false in Hlt. rename Hlt into Hle.
      apply bind_ret_inv in E as (row & s1 & Hrow & E).
      destruct row as [ entry | ]; destruct (IH _ _ E) as (new & -> & Hnew & Hlen).
      * eexists (_ :: new). rewrite <- app_assoc. simpl.
        split; [ reflexivity | ]. split; [ | lia ].
        constructor; [ simpl; auto | ].
        eapply Forall_impl; [ | exact Hnew ]. simpl. intros p [Hp Hin]. auto.
      * exists new. split; [ reflexivity | ]. split; [ | simpl; lia ].
        eapply Forall_impl; [ | exact Hnew ]. simpl. intros p [Hp Hin]. auto.
Qed.


(** The runs of the three writes. *)
Lemma run_add_entry (self : SqliteCourtCode.t) (entry : CourtCodeEntry.t) (s : St W) :
  let stored := sqlite_code.with_default_validity self entry in
  let asked := mkCall (db_path self) "insert" [JStr (CourtCodeEntry.entry_id stored)] in
  let inserted := sql_insert (db_path self) stored (world s) in
  add_entry self entry s
  = match fst inserted with
    | inl e => (Raise e, mkSt (snd inserted) (calls s ++ [asked])%list)
    | inr _ =>
        if enable_vector_search self
        then (Ret (CourtCodeEntry.entry_id stored),
              mkSt (snd (collection_add stored (snd inserted)))
                   ((calls s ++ [asked])
                      ++ [mkCall "collection" "add" [JStr (CourtCodeEntry.entry_id stored)]])%list)
        else (Ret (CourtCodeEntry.entry_id stored),
              mkSt (snd inserted) (calls s ++ [asked])%list)
    end.
Proof.
  intros stored asked inserted. unfold add_entry. fold stored. fold asked.
  unfold bind at 1. rewrite run_await_call. fold inserted.
  destruct (fst inserted) as [ e | [] ]; [ reflexivity | ].
  destruct (enable_vector_search self); unfold bind.
  - rewrite run_guarded. reflexivity.
  - reflexivity.
Qed.

Lemma run_update_entry (self : SqliteCourtCode.t) (entry_id : string)
    (updates : list (string * json)) (s : St W) :
  let asked := mkCall (db_path self) "update" [JStr entry_id] in
  let updated := sql_update (db_path self) entry_id updates (world s) in
  updates <> [] ->
  update_entry self entry_id updates s
  = match fst updated with
    | inl e => (Raise e, mkSt (snd updated) (calls s ++ [asked])%list)
    | inr affected =>
        match assoc "claim" updates with
        | Some claim =>
            if enable_vector_search self
            then (Ret (0 <? affected)%Z,
                  mkSt (snd (collection_update entry_id claim (snd updated)))
                       ((calls s ++ [asked])
                          ++ [mkCall "collection" "update" [JStr entry_id; claim]])%list)
            else (Ret (0 <? affected)%Z, mkSt (snd updated) (calls s ++ [asked])%list)
        | None => (Ret (0 <? affected)%Z, mkSt (snd updated) (calls s ++ [asked])%list)
        end
    end.
Proof.
  intros asked updated Hne.
  assert (update_entry self entry_id updates
          = (affected <- await_call asked (sql_update (db_path self) entry_id updates) ;;
             (match assoc "claim" updates with
              | Some claim =>
                  if enable_vector_search self
                  then try_except
                         (await_call (mkCall "collection" "update" [JStr entry_id; claim])
                                     (collection_update entry_id claim))
                         (fun _ => ret tt)
                  else ret tt
              | None => ret tt
              end) ;;
             ret (0 <? affected)%Z)) as ->
      by (clear updated; destruct updates; [ congruence | reflexivity ]).
  unfold bind at 1. rewrite run_await_call. fold updated.
  destruct (fst updated) as [ e | affected ]; [ reflexivity | ].
  destruct (assoc "claim" updates) as [ claim | ];
    [ destruct (enable_vector_search self) | ]; unfold bind.
  - rewrite run_guarded. reflexivity.
  - reflexivity.
  - reflexivity.
Qed.

Lemma run_delete_entry (self : SqliteCourtCode.t) (entry_id : string) (s : St W) :
  let asked := mkCall (db_path self) "delete" [JStr entry_id] in
  let deleted := sql_delete (db_path self) entry_id (world s) in
  delete_entry self entry_id s
  = match fst deleted with
    | inl e => (Raise e, mkSt (snd deleted) (calls s ++ [asked])%list)
    | inr affected =>
        if enable_vector_search self
        then (Ret (0 <? affected)%Z,
              mkSt (snd (collection_delete entry_id (snd deleted)))
                   ((calls s ++ [asked]) ++ [mkCall "collection" "delete" [JStr entry_id]])%list)
        else (Ret (0 <? affected)%Z, mkSt (snd deleted) (calls s ++ [asked])%list)
    end.
Proof.
  intros asked deleted. unfold delete_entry. fold asked.
  unfold bind at 1. rewrite run_await_call. fold deleted.
  destruct (fst deleted) as [ e | affected ]; [ reflexivity | ].
  destruct (enable_vector_search self); unfold bind.
  - rewrite run_guarded. reflexivity.
  - reflexivity.
Qed.

Lemma with_default_validity_entry_id (self : SqliteCourtCode.t) (entry : CourtCodeEntry.t) :
  CourtCodeEntry.entry_id (sqlite_code.with_default_validity self entry)
  = CourtCodeEntry.entry_id entry.
Proof.
  unfold sqlite_code.with_default_validity.
  destruct (CourtCodeEntry.valid_from entry), (default_validity_period self) as [ p | ];
    try reflexivity.
  now destruct (p =? 0)%Z.
Qed.


(** X20. The validity window [add_entry] writes. An entry that already
    has a start of validity, or a store whose default period is [None] or
    zero, leaves the entry as it is. Otherwise the window becomes the
    timestamp of the entry and the timestamp plus the default period,
    replacing an end of validity the entry may have carried; the entry
    written is then valid exactly at the dates from the timestamp to the
    timestamp plus the period, so never when the period is negative.
    That entry is the one handed to the SQL insert, and nothing else of it
    changes. *)
Theorem add_entry_validity_window (self : SqliteCourtCode.t) (entry : CourtCodeEntry.t)
    `{Sys W} (t : datetime) (s : St W) :
  let stored := sqlite_code.with_default_validity self entry in
  let timestamp := CourtCodeEntry.timestamp entry in
  world (snd (add_entry self entry s))
  = (let w := snd (sql_insert (db_path self) stored (world s)) in
     match fst (sql_insert (db_path self) stored (world s)) with
     | inr _ => if enable_vector_search self then snd (collection_add stored w) else w
     | inl _ => w
     end) /\
  (CourtCodeEntry.entry_id stored, CourtCodeEntry.claim stored, CourtCodeEntry.verdict stored,
   CourtCodeEntry.reasoning stored, CourtCodeEntry.domain stored,
   CourtCodeEntry.case_id stored, CourtCodeEntry.timestamp stored,
   CourtCodeEntry.jury_votes_count stored, CourtCodeEntry.objection_count stored,
   CourtCodeEntry.objection_ratio stored, CourtCodeEntry.metadata stored)
  = (CourtCodeEntry.entry_id entry, CourtCodeEntry.claim entry, CourtCodeEntry.verdict entry,
     CourtCodeEntry.reasoning entry, CourtCodeEntry.domain entry,
     CourtCodeEntry.case_id entry, CourtCodeEntry.timestamp entry,
     CourtCodeEntry.jury_votes_count entry, CourtCodeEntry.objection_count entry,
     CourtCodeEntry.objection_ratio entry, CourtCodeEntry.metadata entry) /\
  (CourtCodeEntry.valid_from entry <> None
   \/ default_validity_period self = None
   \/ default_validity_period self = Some 0%Z -> stored = entry) /\
  (forall period,
     CourtCodeEntry.valid_from entry = None ->
     default_validity_period self = Some period -> period <> 0%Z ->
     CourtCodeEntry.valid_from stored = Some timestamp /\
     CourtCodeEntry.valid_until stored = Some (timestamp + period)%Z /\
     CourtCodeEntry.is_valid stored (Some t) s
     = (Ret ((timestamp <=? t) && (t <=? timestamp + period))%Z, s) /\
     (period < 0 -> CourtCodeEntry.is_valid stored (Some t) s = (Ret false, s))%Z).
Proof.
  intros stored timestamp.
  split; [ | split; [ | split ] ].
  - rewrite run_add_entry. cbv zeta. fold stored.
    destruct (fst (sql_insert (db_path self) stored (world s))) as [ e | [] ];
      [ reflexivity | ].
    now destruct (enable_vector_search self).
  - unfold stored, sqlite_code.with_default_validity.
    destruct (CourtCodeEntry.valid_from entry), (default_validity_period self) as [ p | ];
      try reflexivity.
    now destruct (p =? 0)%Z.
  - unfold stored, sqlite_code.with_default_validity.
    intros [Hvf | [-> | ->]].
    + destruct (CourtCodeEntry.valid_from entry); [ | congruence ].
      now destruct (default_validity_period self).
    + now destruct (CourtCodeEntry.valid_from entry).
    + now destruct (CourtCodeEntry.valid_from entry).
  - intros period Hvf Hp Hne.
    assert (CourtCodeEntry.valid_from stored = Some timestamp /\
            CourtCodeEntry.valid_until stored = Some (timestamp + period)%Z) as [Hfrom Huntil].
    { unfold stored, sqlite_code.with_default_validity. rewrite Hvf, Hp.
      apply Z.eqb_neq in Hne. rewrite Hne. simpl. auto. }
    assert (CourtCodeEntry.is_valid stored (Some t) s
            = (Ret ((timestamp <=? t) && (t <=? timestamp + period))%Z, s)) as Hvalid.
    { rewrite run_CourtCodeEntry_is_valid. unfold within. now rewrite Hfrom, Huntil. }
    repeat split; auto.
    intros Hneg. rewrite Hvalid. f_equal. f_equal.
    apply andb_false_iff.
    destruct (Z.leb_spec timestamp t); [ right; apply Z.leb_gt; lia | now left ].
Qed.
End sqlite_store.

(** A store to run the methods on: the table is a list of entries; the
    collection reports every entry of the table, at distance 0 when the
    claim text is the same and at distance 1 otherwise, and refuses all
    writes. *)
Module store_scenario.

Definition Table : Type := list CourtCodeEntry.t.

Definition has_id (entry_id : string) (entry : CourtCodeEntry.t) : bool :=
  String.eqb (CourtCodeEntry.entry_id entry) entry_id.

#[export] Instance table_Sqlite3 : sqlite_code.Sqlite3 Table :=
  {| sqlite_code.sql_connect := fun _ w => (inr tt, w);
     sqlite_code.sql_insert := fun _ entry w =>
       if existsb (has_id (CourtCodeEntry.entry_id entry)) w
       then (inl (mkExn "IntegrityError" "UNIQUE constraint failed"), w)
       else (inr tt, (w ++ [entry])%list);
     sqlite_code.sql_select_by_id := fun _ entry_id w => (inr (find (has_id entry_id) w), w);
     sqlite_code.sql_update := fun _ entry_id _ w => (inr (len (filter (has_id entry_id) w)), w);
     sqlite_code.sql_delete := fun _ entry_id w =>
       (inr (len (filter (has_id entry_id) w)),
        filter (fun entry => negb (has_id entry_id entry)) w) |}.

Definition read_only {A : Type} (w : Table) : (exn + A) * Table :=
  (inl (mkExn "RuntimeError" "the collection is read-only"), w).

#[export] Instance near_Collection : sqlite_code.Collection Table :=
  {| sqlite_code.collection_query := fun claim _ w =>
       (inr (sqlite_code.mkQueryResult
               [map CourtCodeEntry.entry_id w]
               (Some [map (fun entry => if String.eqb (CourtCodeEntry.claim entry) claim
                                        then 0%Q else 1%Q) w])), w);
     sqlite_code.collection_add := fun _ w => read_only w;
     sqlite_code.collection_update := fun _ _ w => read_only w;
     sqlite_code.collection_delete := fun _ w => read_only w |}.

Definition store : sqlite_code.SqliteCourtCode.t :=
  sqlite_code.SqliteCourtCode.mk "court.db" (Some 1000%Z) true.

Definition entry (entry_id claim : string) (timestamp : datetime) : CourtCodeEntry.t :=
  CourtCodeEntry.mk entry_id claim "supported" "Heard." "general" "case-0" timestamp
                    None None 3%Z 0%Z 0%Q [].
End store_scenario.

Section store_examples.
Import store_scenario.

(** Two entries are written, the second one twice; a search for the text
    of the second finds it first, with similarity 1 and the default
    window, and the other one behind it when the threshold lets it in. *)
Example add_then_search :
  exists s1 s2 s3 e,
    sqlite_code.add_entry store (entry "e1" "Water is wet." 10%Z) (mkSt [] []) = (Ret "e1", s1) /\
    sqlite_code.add_entry store (entry "e2" "Fire is hot." 20%Z) s1 = (Ret "e2", s2) /\
    sqlite_code.add_entry store (entry "e2" "Fire is hot." 30%Z) s2 = (Raise e, s3) /\
    world s3 = [sqlite_code.with_default_validity store (entry "e1" "Water is wet." 10%Z);
                sqlite_code.with_default_validity store (entry "e2" "Fire is hot." 20%Z)] /\
    fst (sqlite_code.search_similar store "Fire is hot." 5 (7 # 10) s3)
    = Ret [Precedent.mk "e2" "Fire is hot." "supported" "Heard." (1 / (1 + 0))
                        20%Z (Some 20%Z) (Some 1020%Z)] /\
    fst (sqlite_code.search_similar store "Fire is hot." 5 (1 # 2) s3)
    = Ret [Precedent.mk "e2" "Fire is hot." "supported" "Heard." (1 / (1 + 0))
                        20%Z (Some 20%Z) (Some 1020%Z);
           Precedent.mk "e1" "Water is wet." "supported" "Heard." (1 / (1 + 1))
                        10%Z (Some 10%Z) (Some 1010%Z)] /\
    fst (sqlite_code.search_similar store "Fire is hot." 1 (1 # 2) s3)
    = Ret [Precedent.mk "e2" "Fire is hot." "supported" "Heard." (1 / (1 + 0))
                        20%Z (Some 20%Z) (Some 1020%Z)].
Proof. do 4 eexists. repeat split; vm_compute; reflexivity. Qed.
End store_examples.

(** ** Scores of references (references/base.py, google_search.py) *)

(** The score of the result at position [i]: a tenth less for each
    position, and never under a tenth. *)
Definition rank_score (i : Z) : Q :=
  let score := (1 - inject_Z i * (1 # 10))%Q in
  if Qlt_bool score (1 # 10) then (1 # 10)%Q else score.

Lemma rank_decreases (i j : Z) :
  (i <= j)%Z -> (1 - inject_Z j * (1 # 10) <= 1 - inject_Z i * (1 # 10))%Q.
Proof.
  intros Hij. unfold Qminus. apply Qplus_le_r, Qopp_le_compat.
  apply Qmult_le_compat_r; [ rewrite <- Zle_Qle; exact Hij | discriminate ].
Qed.

Lemma rank_score_bounds (i : Z) : (0 <= i)%Z -> (1 # 10 <= rank_score i <= 1)%Q.
Proof.
  intros Hi. unfold rank_score.
  destruct (Qlt_bool _ _) eqn:E.
  - split; [ apply Qle_refl | discriminate ].
  - split; [ apply Qlt_bool_false, E | ].
    eapply Qle_trans; [ apply (rank_decreases 0 i Hi) | discriminate ].
Qed.

Lemma rank_score_decreases (i j : Z) : (i <= j)%Z -> (rank_score j <= rank_score i)%Q.
Proof.
  intros Hij. pose proof (rank_decreases i j Hij) as Hle. unfold rank_score.
  destruct (Qlt_bool (1 - inject_Z j * (1 # 10)) (1 # 10)) eqn:Ej,
           (Qlt_bool (1 - inject_Z i * (1 # 10)) (1 # 10)) eqn:Ei.
  - apply Qle_refl.
  - apply Qlt_bool_false, Ei.
  - apply Qlt_bool_true in Ei. eapply Qle_trans; eassumption.
  - exact Hle.
Qed.

Lemma rank_score_value (i : Z) :
  ((i <= 9)%Z -> rank_score i == 1 - inject_Z i * (1 # 10))%Q /\
  ((9 <= i)%Z -> rank_score i == 1 # 10)%Q.
Proof.
  unfold rank_score. split; intros Hi.
  - destruct (Qlt_bool _ _) eqn:E; [ | reflexivity ].
    apply Qle_antisym; [ | apply Qlt_bool_true, E ].
    eapply Qle_trans; [ | apply (rank_decreases i 9 Hi) ]. discriminate.
  - destruct (Qlt_bool _ _) eqn:E; [ reflexivity | ].
    apply Qle_antisym; [ | apply Qlt_bool_false, E ].
    eapply Qle_trans; [ apply (rank_decreases 9 i Hi) | discriminate ].
Qed.

Lemma scored_from_nth (k : Z) (results : list string) (i : nat) :
  nth_error (reference_sources.GoogleSearchReference.scored_from k results) i
  = option_map (fun text => (text, rank_score (k + Z.of_nat i))) (nth_error results i).
Proof.
  revert k i. induction results as [ | text rest IH ]; intros k [ | i ]; simpl; try reflexivity.
  - unfold rank_score. now rewrite Z.add_0_r.
  - rewrite IH. now replace (k + 1 + Z.of_nat i)%Z with (k + Z.pos (Pos.of_succ_nat i))%Z by lia.
Qed.

Lemma scored_from_texts (k : Z) (results : list string) :
  map fst (reference_sources.GoogleSearchReference.scored_from k results) = results.
Proof.
  revert k. induction results as [ | text rest IH ]; intros k; simpl; [ reflexivity | ].
  now rewrite IH.
Qed.

Section reference_scores.
Import reference_sources.
Context {W : Type} `{BaseReference W}.

End reference_scores.

(** ** A text kept as a reference (references/text_storage.py) *)

Section text_storage.
Import reference_sources reference_sources.SimpleTextStorage.
Context {W : Type} `{FileSystem W}.

Lemma run_load_text (path : string) (s : St W) :
  _load_text path s
  = (match fst (read_text path (world s)) with
     | inl e => Raise (RuntimeError ("Failed to load text from " ++ path_str path
                                     ++ ": " ++ str_exn e))
     | inr content => Ret content
     end,
     mkSt (snd (read_text path (world s))) (calls s ++ [mkCall path "read" []])%list).
Proof.
  unfold _load_text, try_except, await_call.
  now destruct (read_text path (world s)) as [[ e | content ] w].
Qed.

End text_storage.

(** ** Retrieval from a collection (references/rag_reference.py) *)

Lemma similarities_of_nth (distances : list Q) (l : list Q) :
  sqlite_code.similarities_of distances = inr l ->
  length l = length distances /\
  forall i dist, nth_error distances i = Some dist ->
    ~ (1 + dist == 0)%Q /\ nth_error l i = Some (1 / (1 + dist))%Q.
Proof.
  revert l. induction distances as [ | d rest IH ]; simpl; intros l E.
  - injection E as <-. split; [ reflexivity | ]. intros [ | i ] dist Hd; discriminate.
  - destruct (Qeq_bool (1 + d) 0) eqn:Hz; [ discriminate | ].
    destruct (sqlite_code.similarities_of rest) as [ e | l' ]; [ discriminate | ].
    injection E as <-. destruct (IH l' eq_refl) as [Hlen Hnth].
    split; [ simpl; now rewrite Hlen | ].
    intros [ | i ] dist Hd; simpl in *.
    + injection Hd as <-. split; [ | reflexivity ].
      intros Heq. apply Qeq_bool_iff in Heq. congruence.
    + apply Hnth, Hd.
Qed.

(** A distance that is not negative gives a similarity in (0, 1]. *)
Lemma similarity_in_unit (dist : Q) : (0 <= dist -> 0 < 1 / (1 + dist) <= 1)%Q.
Proof.
  intros Hd.
  assert (0 < 1 + dist)%Q as Hpos.
  { apply Qlt_le_trans with (y := 1%Q); [ reflexivity | ].
    rewrite <- (Qplus_0_r 1) at 1. apply Qplus_le_r, Hd. }
  split.
  - apply Qlt_shift_div_l; [ exact Hpos | ]. rewrite Qmult_0_l. reflexivity.
  - apply Qle_shift_div_r; [ exact Hpos | ]. rewrite Qmult_1_l.
    rewrite <- (Qplus_0_r 1) at 1. apply Qplus_le_r, Hd.
Qed.

Lemma nth_error_combine {A B : Type} (l1 : list A) (l2 : list B) (i : nat) a b :
  nth_error (combine l1 l2) i = Some (a, b) <->
  nth_error l1 i = Some a /\ nth_error l2 i = Some b.
Proof.
  revert l2 i. induction l1 as [ | x l1 IH ]; intros [ | y l2 ] [ | i ]; simpl;
    try (split; [ discriminate | intros [? ?]; discriminate ]).
  - split; [ intros E; injection E as -> ->; auto | intros [E1 E2]; congruence ].
  - apply IH.
Qed.

Section rag_reference.
Import reference_sources reference_sources.LocalRAGReference.
Context {W : Type} `{Collection W}.

End rag_reference.

(** ** The requests of the providers (llm/openai_provider.py,
    anthropic_provider.py, google_provider.py) *)

(** [d.update(new)] for a [new] with distinct keys: the keys of [new] take
    their new values, the others keep theirs. *)
Lemma assoc_dict_update {A : Type} (k : string) (d new : list (string * A)) :
  NoDup (map fst new) ->
  assoc k (providers.dict_update d new)
  = match assoc k new with
    | Some v => Some v
    | None => assoc k d
    end.
Proof.
  unfold providers.dict_update. revert d.
  induction new as [ | [k1 v1] rest IH ]; intros d Hnew; simpl; [ reflexivity | ].
  inversion Hnew as [ | ? ? Hout Hrest ]; subst.
  rewrite IH by exact Hrest.
  destruct (String.eqb_spec k k1) as [-> | Hne].
  - apply assoc_None_not_In in Hout. rewrite Hout. apply assoc_dict_set_same.
  - destruct (assoc k rest); [ reflexivity | ]. now apply assoc_dict_set_other.
Qed.

Lemma assoc_filter_keys {A : Type} (k : string) (keep : string -> bool)
    (d : list (string * A)) :
  assoc k (filter (fun kv => keep (fst kv)) d) = if keep k then assoc k d else None.
Proof.
  destruct (keep k) eqn:Hk; [ | now apply assoc_filter_out ].
  induction d as [ | [k' v] d IH ]; simpl; [ reflexivity | ].
  destruct (String.eqb_spec k k') as [<- | Hne].
  - rewrite Hk. simpl. now rewrite String.eqb_refl.
  - destruct (keep k'); simpl; [ | exact IH ].
    destruct (String.eqb_spec k k'); [ contradiction | exact IH ].
Qed.

Lemma NoDup_filter_keys {A : Type} (keep : string * A -> bool) (d : list (string * A)) :
  NoDup (map fst d) -> NoDup (map fst (filter keep d)).
Proof.
  induction d as [ | [k v] d IH ]; simpl; intros Hd; [ constructor | ].
  inversion Hd as [ | ? ? Hout Hrest ]; subst.
  destruct (keep (k, v)); simpl; [ | exact (IH Hrest) ].
  constructor; [ | exact (IH Hrest) ].
  intros Hin. apply Hout. apply in_map_iff in Hin as ([k' v'] & Hk & Hin).
  apply filter_In in Hin as [Hin _]. apply in_map_iff. now exists (k', v').
Qed.

(** How a parameter of a request is chosen: the provider's extra
    parameters first, then the keyword arguments of the call, then what
    the provider computes itself. *)
Definition chosen (k : string) (extra kwargs computed : list (string * json)) : option json :=
  match assoc k extra with
  | Some v => Some v
  | None =>
      match assoc k kwargs with
      | Some v => Some v
      | None => assoc k computed
      end
  end.

(** The constructor arguments with a name of their own. *)
Definition named_arguments : list string :=
  ["model_name"; "api_key"; "base_url"; "temperature"; "max_tokens"; "timeout"].

Section provider_requests.
Import providers.

(** X24. The parameters of a request to OpenAI and to Anthropic. Each
    parameter is taken from the extra constructor arguments of the
    provider (those without a name of their own) if it occurs there,
    else from the keyword arguments of the call, else from what the
    provider computes: the model, the temperature, the messages and the
    token limit. So an extra constructor argument cannot be overridden for
    one call. For OpenAI the computed messages are the system prompt,
    unless it is empty, and the user prompt, and a token limit is computed
    only when the configured one is truthy; for Anthropic the system
    prompt is a parameter of its own, present unless empty, and the token
    limit computed is always truthy, 4096 standing in for a missing or
    falsy one. The same extra arguments make up the generation
    configuration of Gemini, over the temperature and the token limit. *)
Theorem request_parameters (params kwargs : list (string * json))
    (prompt system_prompt : string) (k : string) :
  NoDup (map fst params) -> NoDup (map fst kwargs) ->
  let extra := if str_in k named_arguments then [] else params in
  let limit := dict_get params "max_tokens" JNull in
  let system_message :=
    if String.eqb system_prompt "" then [] else [message "system" system_prompt] in
  assoc k (OpenAIProvider.api_params (OpenAIProvider.new params) prompt system_prompt kwargs)
  = chosen k extra kwargs
      ([ ("model", dict_get params "model_name" (JStr "gpt-3.5-turbo"));
         ("messages", JArr (system_message ++ [message "user" prompt]));
         ("temperature", dict_get params "temperature" (JNum (7 # 10))) ]
         ++ if truthy limit then [("max_tokens", limit)] else []) /\
  (exists limit',
      truthy limit' = true /\
      (truthy (dict_get params "max_tokens" (JNum 4096)) = true ->
       limit' = dict_get params "max_tokens" (JNum 4096)) /\
      (truthy (dict_get params "max_tokens" (JNum 4096)) = false -> limit' = JNum 4096) /\
      assoc k (AnthropicProvider.api_params (AnthropicProvider.new params)
                                            prompt system_prompt kwargs)
      = chosen k extra kwargs
          ([ ("model", dict_get params "model_name" (JStr "claude-3-5-sonnet-20241022"));
             ("max_tokens", limit');
             ("temperature", dict_get params "temperature" (JNum (7 # 10)));
             ("messages", JArr [message "user" prompt]) ]
             ++ if String.eqb system_prompt "" then [] else [("system", JStr system_prompt)])) /\
  assoc k (GoogleProvider.generation_config (GoogleProvider.new params))
  = chosen k (if String.eqb k "enable_grounding" then [] else extra) []
      (("temperature", dict_get params "temperature" (JNum (7 # 10)))
         :: if truthy limit then [("max_output_tokens", limit)] else []).
Proof.
  intros Hparams Hkwargs extra limit system_message.
  assert (forall named, NoDup (map fst (kwargs_of named params))) as Hextra
      by (intro; apply NoDup_filter_keys, Hparams).
  assert (forall named, NoDup (map fst (kwargs_of ["base_url"] (kwargs_of named params))))
    as Hextra' by (intro; apply NoDup_filter_keys, Hextra).
  assert (assoc k (kwargs_of named_arguments params) = assoc k extra) as Hk.
  { unfold kwargs_of, extra.
    rewrite (assoc_filter_keys k (fun key => negb (str_in key named_arguments))).
    now destruct (str_in k named_arguments). }
  assert (assoc k (kwargs_of ["base_url"]
                     (kwargs_of ["model_name"; "api_key"; "temperature"; "max_tokens";
                                 "timeout"] params))
          = assoc k extra) as Hk'.
  { unfold kwargs_of, extra.
    rewrite (assoc_filter_keys k (fun key => negb (str_in key ["base_url"]))).
    rewrite (assoc_filter_keys k (fun key => negb (str_in key ["model_name"; "api_key";
                                           "temperature"; "max_tokens"; "timeout"]))).
    unfold named_arguments, str_in. simpl.
    repeat match goal with
           | |- context [String.eqb k ?x] => destruct (String.eqb_spec k x); subst; simpl
           end; try reflexivity; try discriminate. }
  split; [ | split ].
  - unfold OpenAIProvider.api_params, OpenAIProvider.new, chosen.
    cbn [model_name temperature max_tokens extra_params]. fold named_arguments. fold limit.
    rewrite (assoc_dict_update k _ _ (Hextra named_arguments)), Hk.
    rewrite (assoc_dict_update k _ _ Hkwargs).
    destruct (assoc k extra); [ reflexivity | ]. destruct (assoc k kwargs); [ reflexivity | ].
    unfold system_message.
    destruct (String.eqb system_prompt ""), (truthy limit); reflexivity.
  - set (given := dict_get params "max_tokens" (JNum 4096)).
    exists (if truthy given then given else JNum 4096).
    split; [ destruct (truthy given) eqn:E; [ exact E | reflexivity ] | ].
    split; [ intros ->; reflexivity | ]. split; [ intros ->; reflexivity | ].
    unfold AnthropicProvider.api_params, AnthropicProvider.new, chosen.
    cbn [model_name temperature max_tokens extra_params]. fold given.
    rewrite (assoc_dict_update k _ _ (Hextra' _)), Hk'.
    rewrite (assoc_dict_update k _ _ Hkwargs).
    destruct (assoc k extra); [ reflexivity | ]. destruct (assoc k kwargs); [ reflexivity | ].
    destruct (String.eqb system_prompt ""); reflexivity.
  - unfold GoogleProvider.generation_config, GoogleProvider.new, chosen.
    cbn [model_name temperature max_tokens extra_params]. fold limit.
    rewrite (assoc_dict_update k _ _ (Hextra' _)).
    assert (assoc k (kwargs_of ["base_url"]
                       (kwargs_of ["model_name"; "api_key"; "temperature"; "max_tokens";
                                   "timeout"; "enable_grounding"] params))
            = assoc k (if String.eqb k "enable_grounding" then [] else extra)) as ->.
    { unfold kwargs_of, extra.
      rewrite (assoc_filter_keys k (fun key => negb (str_in key ["base_url"]))).
      rewrite (assoc_filter_keys k (fun key => negb (str_in key ["model_name"; "api_key";
                                   "temperature"; "max_tokens"; "timeout";
                                   "enable_grounding"]))).
      unfold named_arguments, str_in. simpl.
      repeat match goal with
             | |- context [String.eqb k ?x] => destruct (String.eqb_spec k x); subst; simpl
             end; try reflexivity; try discriminate. }
    destruct (assoc k (if String.eqb k "enable_grounding" then [] else extra));
      [ reflexivity | ].
    destruct (truthy limit); reflexivity.
Qed.

(** A provider configured with [top_p], called with another [top_p]: the
    configured one is sent. *)
Lemma request_parameters_witness :
  assoc "top_p"
        (OpenAIProvider.api_params
           (OpenAIProvider.new [("model_name", JStr "gpt-4"); ("top_p", JNum (9 # 10))])
           "Is water wet?" "" [("top_p", JNum (1 # 2))])
  = Some (JNum (9 # 10)).
Proof.
  pose proof (request_parameters
                [("model_name", JStr "gpt-4"); ("top_p", JNum (9 # 10))]
                [("top_p", JNum (1 # 2))] "Is water wet?" "" "top_p") as Hr.
  destruct Hr as [Hopenai _].
  - repeat constructor; simpl; intuition discriminate.
  - repeat constructor; simpl; intuition discriminate.
  - rewrite Hopenai. reflexivity.
Defined.
End provider_requests.

Section provider_calls.
Import providers.
Context {W : Type} `{OpenAI W} `{Anthropic W} `{Gemini W}.

End provider_calls.
